(** * NebulaBrowser plugin manager: a shallow embedding of [plugin-manager.js]

    The development follows the class [PluginManager]: the values a manifest
    is made of, the manager's fields, the process state around it (the
    [require] cache, the manifests on disk, the console), and then the
    methods, in the order of the source. *)

From stdpp Require Import gmap strings list fin_maps.
From Stdlib Require Import ZArith.

Local Open Scope string_scope.
Local Open Scope list_scope.

Set Warnings "-register-all".

(** ** JavaScript values *)

Module JS.

(** The values [JSON.parse] builds, together with [undefined] and function
    objects.  An array and a function are objects too: they carry named
    properties next to their elements.  Properties are kept in insertion
    order; a key occurs at most once in a parsed document, and reading takes
    the first entry for a key.  Of a finite number the code only ever
    observes whether it is zero and whether it equals another one.
    [VInf] is [Infinity] or [-Infinity], which [JSON.parse] gives for a
    number beyond the range of a double ([1e400]) and [JSON.stringify]
    writes as [null]. *)
Inductive value : Type :=
| VUndef
| VNull
| VBool (b : bool)
| VNum (n : Z)
| VInf (negative : bool)
| VStr (s : string)
| VArr (elems : list value) (props : list (string * value))
| VObj (props : list (string * value))
| VFun (props : list (string * value)).

(** [typeof v] *)
Definition typeof (v : value) : string :=
  match v with
  | VUndef => "undefined"
  | VNull => "object"
  | VBool _ => "boolean"
  | VNum _ => "number"
  | VInf _ => "number"
  | VStr _ => "string"
  | VArr _ _ => "object"
  | VObj _ => "object"
  | VFun _ => "function"
  end.

(** [!!v] *)
Definition truthy (v : value) : bool :=
  match v with
  | VUndef | VNull => false
  | VBool b => b
  | VNum n => negb (n =? 0)%Z
  | VInf _ => true
  | VStr s => negb (String.eqb s "")
  | VArr _ _ | VObj _ | VFun _ => true
  end.

(** [Array.isArray(v)] *)
Definition isArray (v : value) : bool :=
  match v with VArr _ _ => true | _ => false end.

(** The elements of an array. *)
Definition elements (v : value) : list value :=
  match v with VArr es _ => es | _ => [] end.

(** [typeof v === 'string'] *)
Definition is_string (v : value) : bool := String.eqb (typeof v) "string".

(** [v == null] *)
Definition loose_null (v : value) : bool :=
  match v with VUndef | VNull => true | _ => false end.

(** [a === b].  Two objects are identical only when they are the same
    reference; the objects compared here come from separate [JSON.parse]
    calls or from a caller's argument, so they never are. *)
Definition strict_eq (a b : value) : bool :=
  match a, b with
  | VUndef, VUndef => true
  | VNull, VNull => true
  | VBool x, VBool y => Bool.eqb x y
  | VNum x, VNum y => (x =? y)%Z
  | VInf x, VInf y => Bool.eqb x y
  | VStr x, VStr y => String.eqb x y
  | _, _ => false
  end.

Fixpoint prop_lookup (k : string) (ps : list (string * value)) : value :=
  match ps with
  | [] => VUndef
  | (k', v) :: ps' => if String.eqb k' k then v else prop_lookup k ps'
  end.

Fixpoint prop_set (k : string) (v : value) (ps : list (string * value))
  : list (string * value) :=
  match ps with
  | [] => [(k, v)]
  | (k', v') :: ps' =>
      if String.eqb k' k then (k', v) :: ps' else (k', v') :: prop_set k v ps'
  end.

(** [v.k], for the property names the manager reads (none of them is an
    index, [length], or a member of a built-in prototype).  [None] is the
    [TypeError] of reading a property of [null] or [undefined]. *)
Definition get_prop (v : value) (k : string) : option value :=
  match v with
  | VUndef | VNull => None
  | VBool _ | VNum _ | VInf _ | VStr _ => Some VUndef
  | VArr _ ps | VObj ps | VFun ps => Some (prop_lookup k ps)
  end.

(** [v.k = x] in strict mode (a class body is strict code): assigning to a
    property of a primitive is a [TypeError], as it is on [null] and
    [undefined]. *)
Definition set_prop (v : value) (k : string) (x : value) : option value :=
  match v with
  | VArr es ps => Some (VArr es (prop_set k x ps))
  | VObj ps => Some (VObj (prop_set k x ps))
  | VFun ps => Some (VFun (prop_set k x ps))
  | _ => None
  end.

(** [a || b] *)
Definition or_else (a b : value) : value := if truthy a then a else b.

(** [x && x.name] *)
Definition and_name (x : value) : value :=
  if truthy x then default VUndef (get_prop x "name") else x.

(** The own property [k] of an object, if it has one. *)
Fixpoint own_prop (k : string) (ps : list (string * value)) : option value :=
  match ps with
  | [] => None
  | (k', v) :: ps' => if String.eqb k' k then Some v else own_prop k ps'
  end.

(** [typeof v === 'function'].  A function is opaque here: where a
    conversion finds one as [toString] or [valueOf] and calls it, the call
    is taken to return a string.  [JSON.parse] yields no function. *)
Definition callable (v : value) : bool :=
  match v with VFun _ => true | _ => false end.

Definition own_callable (k : string) (ps : list (string * value)) : bool :=
  match own_prop k ps with Some f => callable f | None => false end.

(** The object has an own property [toString] that is not a function, and
    no own function [valueOf]: the own property hides the inherited
    [toString], and the inherited [valueOf] returns the object itself,
    so the conversion to a primitive finds nothing and throws. *)
Definition hides_toString (ps : list (string * value)) : bool :=
  match own_prop "toString" ps with
  | Some f => negb (callable f) && negb (own_callable "valueOf" ps)
  | None => false
  end.

(** [`${v}`] throws a [TypeError].  A primitive always has a string; an
    object has one through its [toString]; an array without a [toString]
    of its own joins the strings of its elements ([null] and [undefined]
    count as empty), unless it has a [join] of its own, which is called
    when it is a function and replaced by [Object.prototype.toString]
    when it is not. *)
Fixpoint to_string_throws (v : value) : bool :=
  match v with
  | VArr es ps =>
      match own_prop "toString" ps, own_prop "join" ps with
      | Some _, _ => hides_toString ps
      | None, Some _ => false
      | None, None => existsb to_string_throws es
      end
  | VObj ps | VFun ps => hides_toString ps
  | _ => false
  end.

(** ['text' + v] throws a [TypeError]: the same conversion, which asks
    [valueOf] before [toString]. *)
Definition concat_throws (v : value) : bool :=
  match v with
  | VArr _ ps | VObj ps | VFun ps =>
      if own_callable "valueOf" ps then false else to_string_throws v
  | _ => false
  end.

(** [JSON.stringify] leaves out a property whose value is [undefined] or a
    function, and writes [null] for such an element of an array. *)
Definition unwritten (v : value) : bool :=
  match v with VUndef | VFun _ => true | _ => false end.

(** What [JSON.parse] reads back from the text [JSON.stringify] writes for
    a value: an infinite number comes back as [null], an array without
    its named properties, an object without the properties that are not
    written.  (No [toJSON] is called: a parsed document holds no
    function.) *)
Fixpoint json_roundtrip (v : value) : value :=
  match v with
  | VInf _ => VNull
  | VArr es _ =>
      VArr (map (λ e, if unwritten e then VNull else json_roundtrip e) es) []
  | VObj ps =>
      VObj (flat_map (λ kv, match kv with
                            | (k, x) => if unwritten x then []
                                        else [(k, json_roundtrip x)]
                            end) ps)
  | _ => v
  end.

End JS.

Export JS.

(** ** Plugin code and what it contributes *)

(** A web-request listener is plugin code called with the details of a
    request: it returns a value or throws. *)
Inductive Outcome : Type :=
| Returns (v : value)
| Throws.

Definition Listener : Type := value → Outcome.

(** Callbacks, IPC handlers and context-menu contributors are function
    references the manager stores and hands back; nothing modelled here
    calls them. *)
Definition Callback : Type := nat.
Definition IpcHandler : Type := nat.
Definition Contributor : Type := nat.

(** The calls a plugin can make on the context [_buildContext] gives it. *)
Inductive CtxCall : Type :=
| CallLog (level : string) (msg : string)
| CallOn (evt : string) (cb : Callback)
| CallRegisterIPC (channel : string) (handler : IpcHandler)
| CallRegisterWebRequest (filter : value) (listener : Listener)
| CallContributeContextMenu (fn : Contributor)
| CallRegisterRendererPage (arg : value).

(** The body of an activation entry point, as far as the manager can see
    it: a sequence of context calls that ends by returning or by throwing.
    After each call the plugin goes on with [next] when the call returned
    and with [handler] when the call threw into the plugin (a plugin that
    does not catch has [Raise] there). *)
Inductive Code : Type :=
| Ret
| Raise
| Call (c : CtxCall) (next : Code) (handler : Code).

(** [ctx.paths] *)
Record Paths : Type := {
  p_appPath : string;
  p_userData : string;
  p_pluginDir : string
}.

Definition Activation : Type := Paths → Code.

(** What [loadAll] observes of [module.exports]: whether it is truthy,
    whether [typeof mod.activate === 'function'] (with that function's
    body), and whether [typeof mod === 'function'] (with its body). *)
Record Exports : Type := {
  exp_truthy : bool;
  exp_activate : option Activation;
  exp_call : option Activation
}.

(** ** The manager's data *)

(** [{ id, dir, manifest, enabled, mod, mainPath }]; [mod_] is the field
    [mod], and [None] is [null]. *)
Record PluginRecord : Type := {
  id : value;
  dir : string;
  manifest : value;
  enabled : bool;
  mod_ : option Exports;
  mainPath : option string
}.

(** [{ id, file, fileUrl, pluginId }] *)
Record Page : Type := {
  pg_id : value;
  pg_file : value;
  pg_fileUrl : option string;
  pg_pluginId : value
}.

(** [{ filter, listener }] *)
Record WebRequestHandler : Type := {
  filter : value;
  listener : Listener
}.

(** What reaches the console, and the two kinds of plugin code the manager
    runs: the top level of a module when [require] loads it, and an
    activation entry point. *)
Inductive Event : Type :=
| EvModuleExecuted (file : string)
| EvLoadFailed (pid : value)
| EvActivate (pid : value) (pdir : string)
| EvActivationError (pid : value)
| EvPluginLog (pid : value) (level msg : string)
| EvRegisterIPCFailed (pid : value) (channel : string)
| EvRegisteredPage (page_id : value) (html : value)
| EvAttachFailed
| EvListenerError.

(** What an interception hook does for one request: the decisions it
    passes to Electron's [callback], in order, and what it logs. *)
Record HookRun : Type := {
  decisions : list value;
  logged : list Event
}.

Definition Hook : Type := value → HookRun.

(** [ses.webRequest]: whether [onBeforeRequest] throws for a filter, and
    the [(filter, hook)] pairs it was called with so far. *)
Record WebRequest : Type := {
  attach_throws : value → bool;
  attached : list (value * Hook)
}.

(** A session; [webRequest] may be missing. *)
Record Session : Type := {
  webRequest : option WebRequest
}.

(** The entries of [discoverPlugins()] and [getPluginsInfo()]. *)
Record Descriptor : Type := {
  d_id : value;
  d_name : value;
  d_version : value;
  d_description : value;
  d_categories : list value;
  d_authors : list value;
  d_enabled : bool;
  d_hasMain : bool;
  d_hasRendererPreload : bool;
  d_dir : string
}.

(** The exceptions that leave a method. *)
Inductive Exn : Type :=
| TypeError
| ModuleNotFound (path : string)
| ModuleThrew (file : string)
| PluginNotFound (pid : value)
| PluginError
| ManifestReadFailed (path : string)
| WriteFailed (path : string).

(** The manager's fields (the first six), and the state of the process
    around it that its methods read and change: [require.cache], the
    channels registered with [ipcMain.handle], the [plugin.json] files
    (a file that is missing or does not parse has no entry), and the
    console. *)
Record Host : Type := {
  plugins : list PluginRecord;
  rendererPreloads : list string;
  rendererPages : list Page;
  listeners : gmap string (list Callback);
  webRequestHandlers : list WebRequestHandler;
  contextMenuContribs : list Contributor;
  require_cache : gmap string Exports;
  ipc_channels : list string;
  files : gmap string value;
  console : list Event
}.

(** [new PluginManager()] in a process with the given module cache and
    manifests. *)
Definition constructor (cache : gmap string Exports) (fs : gmap string value)
  : Host :=
  {| plugins := [];
     rendererPreloads := [];
     rendererPages := [];
     listeners :=
       <["app-ready" := []]> (<["window-created" := []]>
       (<["web-contents-created" := []]> (<["session-configured" := []]> ∅)));
     webRequestHandlers := [];
     contextMenuContribs := [];
     require_cache := cache;
     ipc_channels := [];
     files := fs;
     console := [] |}.

Definition set_plugins (x : list PluginRecord) (h : Host) : Host :=
  {| plugins := x; rendererPreloads := rendererPreloads h;
     rendererPages := rendererPages h; listeners := listeners h;
     webRequestHandlers := webRequestHandlers h;
     contextMenuContribs := contextMenuContribs h;
     require_cache := require_cache h; ipc_channels := ipc_channels h;
     files := files h; console := console h |}.

Definition set_rendererPreloads (x : list string) (h : Host) : Host :=
  {| plugins := plugins h; rendererPreloads := x;
     rendererPages := rendererPages h; listeners := listeners h;
     webRequestHandlers := webRequestHandlers h;
     contextMenuContribs := contextMenuContribs h;
     require_cache := require_cache h; ipc_channels := ipc_channels h;
     files := files h; console := console h |}.

Definition set_rendererPages (x : list Page) (h : Host) : Host :=
  {| plugins := plugins h; rendererPreloads := rendererPreloads h;
     rendererPages := x; listeners := listeners h;
     webRequestHandlers := webRequestHandlers h;
     contextMenuContribs := contextMenuContribs h;
     require_cache := require_cache h; ipc_channels := ipc_channels h;
     files := files h; console := console h |}.

Definition set_listeners (x : gmap string (list Callback)) (h : Host) : Host :=
  {| plugins := plugins h; rendererPreloads := rendererPreloads h;
     rendererPages := rendererPages h; listeners := x;
     webRequestHandlers := webRequestHandlers h;
     contextMenuContribs := contextMenuContribs h;
     require_cache := require_cache h; ipc_channels := ipc_channels h;
     files := files h; console := console h |}.

Definition set_webRequestHandlers (x : list WebRequestHandler) (h : Host)
  : Host :=
  {| plugins := plugins h; rendererPreloads := rendererPreloads h;
     rendererPages := rendererPages h; listeners := listeners h;
     webRequestHandlers := x;
     contextMenuContribs := contextMenuContribs h;
     require_cache := require_cache h; ipc_channels := ipc_channels h;
     files := files h; console := console h |}.

Definition set_contextMenuContribs (x : list Contributor) (h : Host) : Host :=
  {| plugins := plugins h; rendererPreloads := rendererPreloads h;
     rendererPages := rendererPages h; listeners := listeners h;
     webRequestHandlers := webRequestHandlers h;
     contextMenuContribs := x;
     require_cache := require_cache h; ipc_channels := ipc_channels h;
     files := files h; console := console h |}.

Definition set_require_cache (x : gmap string Exports) (h : Host) : Host :=
  {| plugins := plugins h; rendererPreloads := rendererPreloads h;
     rendererPages := rendererPages h; listeners := listeners h;
     webRequestHandlers := webRequestHandlers h;
     contextMenuContribs := contextMenuContribs h;
     require_cache := x; ipc_channels := ipc_channels h;
     files := files h; console := console h |}.

Definition set_ipc_channels (x : list string) (h : Host) : Host :=
  {| plugins := plugins h; rendererPreloads := rendererPreloads h;
     rendererPages := rendererPages h; listeners := listeners h;
     webRequestHandlers := webRequestHandlers h;
     contextMenuContribs := contextMenuContribs h;
     require_cache := require_cache h; ipc_channels := x;
     files := files h; console := console h |}.

Definition set_files (x : gmap string value) (h : Host) : Host :=
  {| plugins := plugins h; rendererPreloads := rendererPreloads h;
     rendererPages := rendererPages h; listeners := listeners h;
     webRequestHandlers := webRequestHandlers h;
     contextMenuContribs := contextMenuContribs h;
     require_cache := require_cache h; ipc_channels := ipc_channels h;
     files := x; console := console h |}.

Definition set_console (x : list Event) (h : Host) : Host :=
  {| plugins := plugins h; rendererPreloads := rendererPreloads h;
     rendererPages := rendererPages h; listeners := listeners h;
     webRequestHandlers := webRequestHandlers h;
     contextMenuContribs := contextMenuContribs h;
     require_cache := require_cache h; ipc_channels := ipc_channels h;
     files := files h; console := x |}.

(** [console.log] / [console.error], and the record of plugin code run. *)
Definition emit_event (e : Event) (h : Host) : Host :=
  set_console (console h ++ [e]) h.

(** ** The environment *)

(** [fs.Dirent], as far as it is read. *)
Record Dirent : Type := {
  ename : string;
  isDirectory : bool
}.

(** The parts of Node and Electron the manager calls and does not change:
    the two application paths, [path.join] on strings, [fs.readdirSync]
    ([None]: it throws), [fs.existsSync] ([None]: it throws),
    [require.resolve] ([None]: it throws), the outcome of running a module
    file ([None]: its top level throws), [pathToFileURL(p).href] ([None]: it
    throws) and whether [fs.promises.writeFile] rejects for a path. *)
Record Env : Type := {
  appPath : string;
  userData : string;
  path_join : string → string → string;
  readdirSync : string → option (list Dirent);
  existsSync : string → option bool;
  resolve : string → option string;
  load_module : string → option Exports;
  pathToFileURL : string → option string;
  write_rejects : string → bool
}.

(** ** Completions *)

(** A method either completes normally or throws; in both cases the state
    it has built so far stays. *)
Inductive completion (A : Type) : Type :=
| Normal (a : A)
| Throw (e : Exn).
Arguments Normal {A} a.
Arguments Throw {A} e.

Definition M (A : Type) : Type := Host → completion A * Host.

Definition ret {A} (a : A) : M A := λ h, (Normal a, h).
Definition throw {A} (e : Exn) : M A := λ h, (Throw e, h).
Definition bind {A B} (m : M A) (k : A → M B) : M B :=
  λ h, match m h with
       | (Normal a, h') => k a h'
       | (Throw e, h') => (Throw e, h')
       end.
(** [try { m } catch { handler }] *)
Definition try_catch {A} (m : M A) (handler : Exn → M A) : M A :=
  λ h, match m h with
       | (Normal a, h') => (Normal a, h')
       | (Throw e, h') => handler e h'
       end.
Definition modify (f : Host → Host) : M unit := λ h, (Normal tt, f h).
Definition gets {A} (f : Host → A) : M A := λ h, (Normal (f h), h).
(** a step that throws [TypeError] when the option is empty *)
Definition or_type_error {A} (o : option A) : M A :=
  match o with Some a => ret a | None => throw TypeError end.

Notation "'let!' x ':=' m 'in' k" := (bind m (λ x, k))
  (at level 10, x name, m at level 100, k at level 200).
Notation "m ';;;' k" := (bind m (λ _, k))
  (at level 100, k at level 200, right associativity).

(** [for (const x of l) body(x)] *)
Fixpoint for_each {A} (body : A → M unit) (l : list A) : M unit :=
  match l with
  | [] => ret tt
  | x :: l' => body x ;;; for_each body l'
  end.

(** ** The methods of [PluginManager] *)

Section Manager.

Context (W : Env).

Definition getPluginDirs : list string :=
  [path_join W (appPath W) "plugins"; path_join W (userData W) "plugins"].

(** [path.join(d, x)] where [x] was read from a manifest: [path.join]
    throws a [TypeError] for an argument that is not a string. *)
Definition join_value (d : string) (x : value) : M string :=
  match x with
  | VStr s => ret (path_join W d s)
  | _ => throw TypeError
  end.

(** The test [loadAll] filters the elements of [authors] with. *)
Definition author_ok (x : value) : bool :=
  is_string x
  || (truthy x && String.eqb (typeof x) "object"
      && is_string (default VUndef (get_prop x "name"))).

(** Lines 51-54: the new value of [manifest.categories]. *)
Definition normalize_categories (manifest : value) : option value :=
  cats ← get_prop manifest "categories";
  if is_string cats then set_prop manifest "categories" (VArr [cats] [])
  else if isArray cats then
    set_prop manifest "categories"
      (VArr (List.filter is_string (elements cats)) [])
  else if loose_null cats then set_prop manifest "categories" (VArr [] [])
  else Some manifest.

(** Lines 56-59: the new value of [manifest.authors]. *)
Definition normalize_authors (manifest : value) : option value :=
  au ← get_prop manifest "authors";
  if is_string au then set_prop manifest "authors" (VArr [au] [])
  else if isArray au then
    set_prop manifest "authors" (VArr (List.filter author_ok (elements au)) [])
  else if loose_null au then set_prop manifest "authors" (VArr [] [])
  else Some manifest.

(** The body of the [try] of lines 48-60, after [JSON.parse]; [None] is an
    exception, which the [catch] turns into [continue]. *)
Definition normalize_manifest (parsed : value) : option value :=
  normalize_categories parsed ≫= normalize_authors.

(** [JSON.parse(fs.readFileSync(path, 'utf8'))]; [None] when either throws. *)
Definition read_manifest (path : string) : M (option value) :=
  gets (λ h, files h !! path).

(** [require(p)] *)
Definition require (p : string) : M Exports := λ h,
  match resolve W p with
  | None => (Throw (ModuleNotFound p), h)
  | Some file =>
      match require_cache h !! file with
      | Some m => (Normal m, h)
      | None =>
          let h' := emit_event (EvModuleExecuted file) h in
          match load_module W file with
          | Some m =>
              (Normal m, set_require_cache (<[file := m]> (require_cache h')) h')
          | None => (Throw (ModuleThrew file), h')
          end
      end
  end.

(** Lines 66-75.  The message the [catch] logs is a template literal
    over the id: when the id has no string, the [catch] itself throws. *)
Definition load_main (record : PluginRecord) : M PluginRecord :=
  let! main := or_type_error (get_prop (manifest record) "main") in
  if truthy main then
    let! mainPath := join_value (dir record) main in
    try_catch
      (let! m := require mainPath in
       ret {| id := id record; dir := dir record; manifest := manifest record;
              enabled := enabled record; mod_ := Some m;
              mainPath := Some mainPath |})
      (λ _, if to_string_throws (id record) then throw TypeError
            else (modify (emit_event (EvLoadFailed (id record))) ;;;
                  ret record))
  else ret record.

(** Lines 77-82 *)
Definition collect_preload (record : PluginRecord) : M unit :=
  let! rpre := or_type_error (get_prop (manifest record) "rendererPreload") in
  if truthy rpre then
    let! rp := join_value (dir record) rpre in
    match existsSync W rp with
    | Some true =>
        modify (λ h, set_rendererPreloads (rendererPreloads h ++ [rp]) h)
    | _ => ret tt
    end
  else ret tt.

(** Lines 44-84: one directory entry of a root. *)
Definition scan_entry (root : string) (ent : Dirent) : M unit :=
  if negb (isDirectory ent) then ret tt else
  let dir := path_join W root (ename ent) in
  let manifestPath := path_join W dir "plugin.json" in
  let! parsed := read_manifest manifestPath in
  match parsed ≫= normalize_manifest with
  | None => ret tt
  | Some manifest =>
      let! en := or_type_error (get_prop manifest "enabled") in
      let enabled := negb (strict_eq en (VBool false)) in
      let! mid := or_type_error (get_prop manifest "id") in
      let id := or_else mid (VStr (ename ent)) in
      let record := {| id := id; dir := dir; manifest := manifest;
                       enabled := enabled; mod_ := None; mainPath := None |} in
      let! record :=
        (if enabled then
           let! record := load_main record in
           collect_preload record ;;; ret record
         else ret record) in
      modify (λ h, set_plugins (plugins h ++ [record]) h)
  end.

(** Lines 40-86: one search root. *)
Definition scan_root (root : string) : M unit :=
  match readdirSync W root with
  | None => ret tt
  | Some entries => for_each (scan_entry root) entries
  end.

(** The names every object inherits; [this._listeners[evt]] is a function
    (or, for [__proto__], an object) for them, and has no [push]. *)
Definition object_prototype_keys : list string :=
  ["constructor"; "__proto__"; "hasOwnProperty"; "isPrototypeOf";
   "propertyIsEnumerable"; "toLocaleString"; "toString"; "valueOf";
   "__defineGetter__"; "__defineSetter__"; "__lookupGetter__";
   "__lookupSetter__"].

(** [on(evt, cb)] *)
Definition on (evt : string) (cb : Callback) : M unit := λ h,
  match listeners h !! evt with
  | Some l => (Normal tt, set_listeners (<[evt := l ++ [cb]]> (listeners h)) h)
  | None =>
      if bool_decide (evt ∈ object_prototype_keys) then (Throw TypeError, h)
      else (Normal tt, set_listeners (<[evt := [cb]]> (listeners h)) h)
  end.

(** The functions of the context of [_buildContext(plugin)].  A [Throw]
    here is an exception that reaches the plugin's code.
    [registerRendererPage] destructures its argument, pushes the page, and
    then calls [manager.log], which the class does not define; the
    [catch] calls [manager.error], which it does not define either, so the
    [TypeError] leaves the function. *)
Definition ctx_call (plugin : PluginRecord) (c : CtxCall) : M unit :=
  match c with
  | CallLog level msg => modify (emit_event (EvPluginLog (id plugin) level msg))
  | CallOn evt cb => on evt cb
  | CallRegisterIPC channel handler =>
      let! chans := gets ipc_channels in
      if bool_decide (channel ∈ chans)
      then modify (emit_event (EvRegisterIPCFailed (id plugin) channel))
      else modify (set_ipc_channels (chans ++ [channel]))
  | CallRegisterWebRequest f l =>
      modify (λ h, set_webRequestHandlers
                     (webRequestHandlers h ++ [{| filter := f; listener := l |}]) h)
  | CallContributeContextMenu fn =>
      modify (λ h, set_contextMenuContribs (contextMenuContribs h ++ [fn]) h)
  | CallRegisterRendererPage arg =>
      let! page_id := or_type_error (get_prop arg "id") in
      let! html := or_type_error (get_prop arg "html") in
      if negb (truthy page_id) || negb (truthy html) then ret tt else
      let fileUrl := match html with
                     | VStr s => pathToFileURL W s
                     | _ => None
                     end in
      modify (λ h, set_rendererPages
                     (rendererPages h ++
                        [{| pg_id := page_id; pg_file := html;
                            pg_fileUrl := fileUrl;
                            pg_pluginId := id plugin |}]) h) ;;;
      modify (emit_event (EvRegisteredPage page_id html)) ;;;
      throw TypeError
  end.

(** Running an entry point against the context of [plugin]. *)
Fixpoint run_code (plugin : PluginRecord) (c : Code) : M unit :=
  match c with
  | Ret => ret tt
  | Raise => throw PluginError
  | Call cc next handler =>
      λ h, match ctx_call plugin cc h with
           | (Normal _, h') => run_code plugin next h'
           | (Throw _, h') => run_code plugin handler h'
           end
  end.

Definition paths_of (plugin : PluginRecord) : Paths :=
  {| p_appPath := appPath W; p_userData := userData W;
     p_pluginDir := dir plugin |}.

(** Calling [p.mod.activate(ctx)] or [p.mod(ctx)]. *)
Definition call_entry (p : PluginRecord) (a : Activation) : M unit :=
  modify (emit_event (EvActivate (id p) (dir p))) ;;;
  run_code p (a (paths_of p)).

(** [!p.enabled || !p.mod] is false *)
Definition loaded (p : PluginRecord) : bool :=
  enabled p && match mod_ p with Some m => exp_truthy m | None => false end.

(** [_buildContext(plugin)]: line 106 builds the log prefix, a template
    literal over the id; everything else in the context is a reference or
    a function that is not called yet. *)
Definition _buildContext (plugin : PluginRecord) : M unit :=
  if to_string_throws (id plugin) then throw TypeError else ret tt.

(** Lines 89-100: the body of the activation loop.  The message the
    [catch] logs is a template literal over the id as well. *)
Definition activate_record (p : PluginRecord) : M unit :=
  if negb (loaded p) then ret tt else
  try_catch
    (_buildContext p ;;;
     match mod_ p with
     | Some m =>
         match exp_activate m with
         | Some a => call_entry p a
         | None =>
             match exp_call m with
             | Some a => call_entry p a
             | None => ret tt
             end
         end
     | None => ret tt
     end)
    (λ _, if to_string_throws (id p) then throw TypeError
          else modify (emit_event (EvActivationError (id p)))).

(** Lines 36-86: the reset of the three lists and the scan of the roots. *)
Definition scan_pass : M unit :=
  modify (set_plugins []) ;;;
  modify (set_rendererPreloads []) ;;;
  modify (set_rendererPages []) ;;;
  for_each scan_root getPluginDirs.

(** Lines 88-101: the activation loop. *)
Definition activation_pass : M unit :=
  let! ps := gets plugins in
  for_each activate_record ps.

(** [loadAll()] *)
Definition loadAll : M unit :=
  scan_pass ;;; activation_pass.

(** [getRendererPreloads()]: [Array.from(new Set(list))].  A [Set] keeps
    its members in the order of their first insertion. *)
Definition set_add (s : list string) (x : string) : list string :=
  if bool_decide (x ∈ s) then s else s ++ [x].

Definition new_Set (l : list string) : list string := foldl set_add [] l.

Definition getRendererPreloads (h : Host) : list string :=
  new_Set (rendererPreloads h).

(** The [authors] of [getPluginsInfo()]:
    [map(x => typeof x === 'string' ? x : (x && x.name) || '').filter(Boolean)] *)
Definition info_authors (authors : value) : list value :=
  if isArray authors then
    List.filter truthy
      (map (λ x, if is_string x then x else or_else (and_name x) (VStr ""))
           (elements authors))
  else [].

(** One entry of [getPluginsInfo()]; [None] is a [TypeError]. *)
Definition info_of (p : PluginRecord) : option Descriptor :=
  name ← get_prop (manifest p) "name";
  version ← get_prop (manifest p) "version";
  description ← get_prop (manifest p) "description";
  cats ← get_prop (manifest p) "categories";
  au ← get_prop (manifest p) "authors";
  main ← get_prop (manifest p) "main";
  rpre ← get_prop (manifest p) "rendererPreload";
  Some {| d_id := id p;
          d_name := or_else name (id p);
          d_version := or_else version (VStr "0.0.0");
          d_description := or_else description (VStr "");
          d_categories := if isArray cats then elements cats else [];
          d_authors := info_authors au;
          d_enabled := enabled p;
          d_hasMain := truthy main;
          d_hasRendererPreload := truthy rpre;
          d_dir := dir p |}.

Definition getPluginsInfo (h : Host) : option (list Descriptor) :=
  mapM info_of (plugins h).

(** The [authors] of [discoverPlugins()], lines 230-235. *)
Definition discover_authors (au : value) : list value :=
  if is_string au then [au]
  else if isArray au then
    List.filter truthy
      (map (λ x, if is_string x then x else or_else (and_name x) VNull)
           (elements au))
  else [].

(** The [categories] of [discoverPlugins()], lines 228-229. *)
Definition discover_categories (cats : value) : list value :=
  if is_string cats then [cats]
  else if isArray cats then List.filter is_string (elements cats)
  else [].

(** Lines 228-247, the [try] body after [JSON.parse]; [None] is an
    exception, which the empty [catch] drops. *)
Definition describe (ent : Dirent) (dir : string) (manifest : value)
  : option Descriptor :=
  cats ← get_prop manifest "categories";
  au ← get_prop manifest "authors";
  mid ← get_prop manifest "id";
  name ← get_prop manifest "name";
  version ← get_prop manifest "version";
  description ← get_prop manifest "description";
  en ← get_prop manifest "enabled";
  main ← get_prop manifest "main";
  rpre ← get_prop manifest "rendererPreload";
  Some {| d_id := or_else mid (VStr (ename ent));
          d_name := or_else name (VStr (ename ent));
          d_version := or_else version (VStr "0.0.0");
          d_description := or_else description (VStr "");
          d_categories := discover_categories cats;
          d_authors := discover_authors au;
          d_enabled := negb (strict_eq en (VBool false));
          d_hasMain := truthy main;
          d_hasRendererPreload := truthy rpre;
          d_dir := dir |}.

(** [for (const x of l) out.push(...body(x))] *)
Fixpoint for_collect {A B} (body : A → M (list B)) (l : list A) : M (list B) :=
  match l with
  | [] => ret []
  | x :: l' =>
      let! ys := body x in
      let! zs := for_collect body l' in
      ret (ys ++ zs)
  end.

(** Lines 222-249: one directory entry. *)
Definition discover_entry (root : string) (ent : Dirent) : M (list Descriptor) :=
  if negb (isDirectory ent) then ret [] else
  let dir := path_join W root (ename ent) in
  let manifestPath := path_join W dir "plugin.json" in
  let! parsed := read_manifest manifestPath in
  match parsed ≫= describe ent dir with
  | Some d => ret [d]
  | None => ret []
  end.

Definition discover_root (root : string) : M (list Descriptor) :=
  match readdirSync W root with
  | None => ret []
  | Some entries => for_collect (discover_entry root) entries
  end.

(** [discoverPlugins()] *)
Definition discoverPlugins : M (list Descriptor) :=
  for_collect discover_root getPluginDirs.

(** [this.plugins.find(x => x.id === id)] *)
Definition find_plugin (pid : value) (ps : list PluginRecord)
  : option PluginRecord :=
  List.find (λ x, strict_eq (id x) pid) ps.

(** What a later [JSON.parse] of the file reads after
    [JSON.stringify(manifest, null, 2)] was written to it.  A function has
    no serialization at all ([None]: [writeFile] rejects its argument). *)
Definition reparse (manifest : value) : option value :=
  if unwritten manifest then None else Some (json_roundtrip manifest).

(** [setEnabled(id, enabled)].  The method is [async]: a [Throw] is the
    rejection of the promise it returns, [Normal true] its fulfilment.
    The message of the not-found error is ['Plugin not found: ' + id]. *)
Definition setEnabled (pid : value) (en : value) : M bool :=
  let! ps := gets plugins in
  match find_plugin pid ps with
  | None =>
      if concat_throws pid then throw TypeError else throw (PluginNotFound pid)
  | Some p =>
      let manifestPath := path_join W (dir p) "plugin.json" in
      let! parsed := read_manifest manifestPath in
      match parsed with
      | None => throw (ManifestReadFailed manifestPath)
      | Some manifest =>
          let! manifest := or_type_error
                             (set_prop manifest "enabled" (VBool (truthy en))) in
          let! doc := or_type_error (reparse manifest) in
          if write_rejects W manifestPath then throw (WriteFailed manifestPath)
          else
            modify (λ h, set_files (<[manifestPath := doc]> (files h)) h) ;;;
            ret true
      end
  end.

(** [_clearRequireCache(p)]; the whole body is in a [try] with an empty
    [catch]. *)
Definition _clearRequireCache (p : PluginRecord) : M unit :=
  match mainPath p with
  | Some mp =>
      if negb (String.eqb mp "") then
        match resolve W mp with
        | Some k => modify (λ h, set_require_cache (delete k (require_cache h)) h)
        | None => ret tt
        end
      else ret tt
  | None => ret tt
  end.

(** The first half of [reload(id)], lines 275-280. *)
Definition invalidate (pid : value) : M unit :=
  let! ps := gets plugins in
  if truthy pid then
    match find_plugin pid ps with
    | Some p => _clearRequireCache p
    | None => ret tt
    end
  else for_each _clearRequireCache ps.

(** [reload(id)]; [reload()] is [reload VUndef]. *)
Definition reload (pid : value) : M unit :=
  invalidate pid ;;; loadAll.

(** [{ cancel: false }] *)
Definition cancel_false : value := VObj [("cancel", VBool false)].

(** Lines 173-181: the function given to [onBeforeRequest].  Electron's
    [callback] is taken not to throw, and the listener to return. *)
Definition hook (listener : Listener) : Hook := λ details,
  match listener details with
  | Returns res =>
      if truthy res && String.eqb (typeof res) "object"
      then {| decisions := [res]; logged := [] |}
      else {| decisions := [cancel_false]; logged := [] |}
  | Throws => {| decisions := [cancel_false]; logged := [EvListenerError] |}
  end.

(** Lines 171-185: attaching one entry. *)
Definition attach (wr : WebRequest) (e : WebRequestHandler)
  : WebRequest * list Event :=
  let f := or_else (filter e) (VObj []) in
  if attach_throws wr f then (wr, [EvAttachFailed])
  else ({| attach_throws := attach_throws wr;
           attached := attached wr ++ [(f, hook (listener e))] |}, []).

Definition attach_all (wr : WebRequest) (es : list WebRequestHandler)
  : WebRequest * list Event :=
  foldl (λ acc e, let '(wr', evs) := attach acc.1 e in (wr', acc.2 ++ evs))
        (wr, []) es.

(** [applyWebRequestHandlers(ses)]; [None] is a [ses] that is [null] or
    [undefined].  It returns the session as the calls leave it. *)
Definition applyWebRequestHandlers (ses : option Session) (h : Host)
  : option Session * Host :=
  match ses with
  | None => (None, h)
  | Some s =>
      match webRequest s with
      | None => (Some s, h)
      | Some wr =>
          let '(wr', evs) := attach_all wr (webRequestHandlers h) in
          (Some {| webRequest := Some wr' |}, set_console (console h ++ evs) h)
      end
  end.

End Manager.

(** ** The event bus, publishing side *)

Section EventBus.

(** What calling a subscriber does belongs to the plugin: [cb_throws cb
    args] tells whether the call [cb(...args)] throws.  Subscribers are
    taken not to subscribe to the bus while it publishes. *)
Context (cb_throws : Callback → list value → bool).

(** What [emit] does: the calls it makes, and the errors it logs. *)
Inductive BusEvent : Type :=
| BusCalled (cb : Callback) (args : list value)
| BusListenerError (evt : string).

(** Lines 163-165: [for (const cb of list) try { cb(...args) } catch ...] *)
Fixpoint call_subscribers (evt : string) (args : list value)
    (subs : list Callback) : list BusEvent :=
  match subs with
  | [] => []
  | cb :: rest =>
      (if cb_throws cb args
       then [BusCalled cb args; BusListenerError evt]
       else [BusCalled cb args])
      ++ call_subscribers evt args rest
  end.

(** [emit(evt, ...args)].  [this._listeners[evt] || []] is the inherited
    member for a name every object inherits, and [for ... of] throws a
    [TypeError] on it, outside the [try]. *)
Definition emit (evt : string) (args : list value) (h : Host)
  : completion (list BusEvent) :=
  match listeners h !! evt with
  | Some subs => Normal (call_subscribers evt args subs)
  | None =>
      if bool_decide (evt ∈ object_prototype_keys) then Throw TypeError
      else Normal []
  end.

(** The subscribers called, in the order of the calls. *)
Definition called (evs : list BusEvent) : list Callback :=
  omap (λ e, match e with BusCalled cb _ => Some cb | _ => None end) evs.

(** The errors logged. *)
Definition bus_errors (evs : list BusEvent) : nat :=
  length (List.filter (λ e, match e with BusListenerError _ => true | _ => false end)
                      evs).

End EventBus.

(** ** Vocabulary for the statements *)

Section Vocabulary.

Context (W : Env).

(** [m.k] for a manifest that is not [null] or [undefined]. *)
Definition prop (m : value) (k : string) : value :=
  default VUndef (get_prop m k).

(** [manifest.enabled !== false] *)
Definition enabled_of (m : value) : bool :=
  negb (strict_eq (prop m "enabled") (VBool false)).

(** [manifest.id || ent.name] *)
Definition id_of (ent : Dirent) (m : value) : value :=
  or_else (prop m "id") (VStr (ename ent)).

(** A manifest field [path.join] accepts when the code passes it on: it is
    falsy (and then not passed on) or a string. *)
Definition joinable (x : value) : bool := negb (truthy x) || is_string x.

(** The manifest follows the package format in the two fields [loadAll]
    joins to the plugin directory: [main] and [rendererPreload], when they
    are given, are strings.  (They are only looked at for an enabled
    plugin.) *)
Definition well_typed (m : value) : bool :=
  negb (enabled_of m)
  || (joinable (prop m "main") && joinable (prop m "rendererPreload")).

(** The directory of a candidate and the manifest [loadAll] gets for it:
    the candidate is a directory, its [plugin.json] parses, and the
    normalization of lines 51-59 goes through. *)
Definition plugin_dir (root : string) (ent : Dirent) : string :=
  path_join W root (ename ent).

Definition manifest_of (h : Host) (root : string) (ent : Dirent)
  : option value :=
  if isDirectory ent
  then files h !! path_join W (plugin_dir root ent) "plugin.json"
       ≫= normalize_manifest
  else None.

(** [require(mp)] throws in a process with module cache [c]: the path does
    not resolve, or it resolves to a file that is not cached and whose
    top level throws. *)
Definition require_fails (c : gmap string Exports) (mp : string) : Prop :=
  match resolve W mp with
  | None => True
  | Some file => c !! file = None ∧ load_module W file = None
  end.

(** [require(mp)] returns [e] in a process with module cache [c]: the path
    resolves to a file that is cached with [e], or that is not cached and
    whose top level runs and exports [e]. *)
Definition require_gives (c : gmap string Exports) (mp : string)
    (e : Exports) : Prop :=
  ∃ file, resolve W mp = Some file ∧
          match c !! file with
          | Some m => m = e
          | None => load_module W file = Some e
          end.

(** The record is the one [loadAll] builds for the candidate. *)
Definition made_for (root : string) (ent : Dirent) (m : value)
    (r : PluginRecord) : Prop :=
  dir r = plugin_dir root ent ∧ manifest r = m ∧
  id r = id_of ent m ∧ enabled r = enabled_of m.

(** A module handle on a record was returned by [require] for the
    record's [main]: the plugin is enabled, [mainPath] is [main] joined to
    the directory, and the module is in the cache under the file that path
    resolves to. *)
Definition mod_ok (c : gmap string Exports) (r : PluginRecord) : Prop :=
  ∀ m, mod_ r = Some m →
    enabled r = true ∧
    ∃ s file, prop (manifest r) "main" = VStr s ∧
              mainPath r = Some (path_join W (dir r) s) ∧
              resolve W (path_join W (dir r) s) = Some file ∧
              c !! file = Some m.

(** [ent] is a plugin candidate of [root] with manifest [m]. *)
Definition candidate (h : Host) (root : string) (ent : Dirent) (m : value)
  : Prop :=
  (∃ entries, readdirSync W root = Some entries ∧ ent ∈ entries) ∧
  manifest_of h root ent = Some m.

(** The entry point [loadAll] calls on a module, if any: a function
    [activate], else the module itself when it is a function. *)
Definition entry_point (m : Exports) : option Activation :=
  match exp_activate m with
  | Some a => Some a
  | None => exp_call m
  end.

(** The record is activated by the loop: it is enabled, its module is
    truthy, and the module has an entry point. *)
Definition activatable (p : PluginRecord) : option Activation :=
  if loaded p then mod_ p ≫= entry_point else None.


(** An object, as [res && typeof res === 'object'] tests it. *)
Definition is_object (v : value) : bool :=
  match v with
  | VArr _ _ | VObj _ => true
  | _ => false
  end.

(** An object carrying a [name] string. *)
Definition named_object (x : value) : Prop :=
  is_object x = true ∧ ∃ n, prop x "name" = VStr n.

(** The string an accepted author stands for: itself, or its [name]. *)
Definition author_name (x : value) : value :=
  if is_string x then x else prop x "name".

(** The decision a request gets from a listener. *)
Inductive decides (l : Listener) (details : value) : value → Prop :=
| decides_object res :
    l details = Returns res → is_object res = true → decides l details res
| decides_other res :
    l details = Returns res → is_object res = false →
    decides l details cancel_false
| decides_throw :
    l details = Throws → decides l details cancel_false.

(** [this.plugins.find(x => x.id === id)] finds [p]: it is the first
    tracked record whose id is strictly equal to [pid]. *)
Definition tracked_as (pid : value) (ps : list PluginRecord)
    (p : PluginRecord) : Prop :=
  ∃ before after, ps = before ++ p :: after ∧
    strict_eq (id p) pid = true ∧
    Forall (λ q, strict_eq (id q) pid = false) before.

(** No tracked record has the id. *)
Definition untracked (pid : value) (ps : list PluginRecord) : Prop :=
  Forall (λ q, strict_eq (id q) pid = false) ps.

(** The activation loop builds a context for the record, and its id has
    no string. *)
Definition aborts_activation (p : PluginRecord) : bool :=
  loaded p && to_string_throws (id p).

(** What the activation loop completes with on a list of records. *)
Definition loop_outcome (ps : list PluginRecord) : completion unit :=
  if existsb aborts_activation ps then Throw TypeError else Normal tt.

(** A string, a boolean, [null] or a finite number: what [JSON.stringify]
    writes and [JSON.parse] reads back as it was. *)
Definition json_plain (v : value) : bool :=
  match v with
  | VNull | VBool _ | VNum _ | VStr _ => true
  | _ => false
  end.

(** Every candidate of the two roots has a well-typed manifest. *)
Definition all_well_typed (h : Host) : Prop :=
  ∀ root ent m, root ∈ getPluginDirs W → candidate h root ent m →
                well_typed m = true.

(** Every candidate of the two roots has an id with a string. *)
Definition all_ids_print (h : Host) : Prop :=
  ∀ root ent m, root ∈ getPluginDirs W → candidate h root ent m →
                to_string_throws (id_of ent m) = false.

(** The calls of entry points the activation loop makes for a list of
    records, in order. *)
Definition activation_targets (ps : list PluginRecord) : list Event :=
  omap (λ p, (λ _, EvActivate (id p) (dir p)) <$> activatable p) ps.

(** The module cache only grows, and only by modules that loaded. *)
Definition cache_grows (c c' : gmap string Exports) : Prop :=
  (∀ k m, c !! k = Some m → c' !! k = Some m) ∧
  (∀ k m, c' !! k = Some m → c !! k = Some m ∨ load_module W k = Some m).

(** The scan reads manifests and loads modules: it leaves the files and
    everything plugins contribute alone, and only appends to the console. *)
Record scan_frame (h h' : Host) : Prop := {
  sf_files : files h' = files h;
  sf_pages : rendererPages h' = rendererPages h;
  sf_listeners : listeners h' = listeners h;
  sf_handlers : webRequestHandlers h' = webRequestHandlers h;
  sf_contribs : contextMenuContribs h' = contextMenuContribs h;
  sf_ipc : ipc_channels h' = ipc_channels h;
  sf_cache : cache_grows (require_cache h) (require_cache h');
  sf_console : console h `prefix_of` console h'
}.

(** Activation runs plugin code against a context: it leaves the records,
    the preload list, the files and the module cache alone, and only
    appends to the lists plugins contribute to. *)
Record act_frame (h h' : Host) : Prop := {
  af_files : files h' = files h;
  af_plugins : plugins h' = plugins h;
  af_preloads : rendererPreloads h' = rendererPreloads h;
  af_cache : require_cache h' = require_cache h;
  af_pages : rendererPages h `prefix_of` rendererPages h';
  af_handlers : webRequestHandlers h `prefix_of` webRequestHandlers h';
  af_contribs : contextMenuContribs h `prefix_of` contextMenuContribs h';
  af_console : console h `prefix_of` console h'
}.

(** What [scan_entry] does for a candidate with manifest [m]: it appends
    one record [r], without a module when loading its [main] throws and
    with the module when loading it succeeds. *)
Definition scanned (c0 c : gmap string Exports) (root : string)
    (ent : Dirent) (m : value) (r : PluginRecord) : Prop :=
  made_for root ent m r ∧ mod_ok c r ∧
  (∀ s, enabled_of m = true → prop m "main" = VStr s →
        require_fails c0 (path_join W (plugin_dir root ent) s) →
        mod_ r = None ∧ mainPath r = None) ∧
  (∀ s e, enabled_of m = true → prop m "main" = VStr s → s ≠ "" →
          require_gives c0 (path_join W (plugin_dir root ent) s) e →
          mod_ r = Some e).

(** The records [rs] are those of the candidates among [entries]: each
    record was built for a candidate, and each candidate has its record. *)
Definition entries_scanned (h h' : Host) (root : string)
    (entries : list Dirent) (rs : list PluginRecord) : Prop :=
  Forall (λ r, ∃ ent m, ent ∈ entries ∧ manifest_of h root ent = Some m ∧
                        scanned (require_cache h) (require_cache h') root ent m r)
         rs ∧
  ∀ ent m, ent ∈ entries → manifest_of h root ent = Some m →
    ∃ r, r ∈ rs ∧ scanned (require_cache h) (require_cache h') root ent m r.

(** The same for a root, whose candidates are the entries of its listing. *)
Definition root_scanned (h h' : Host) (root : string)
    (rs : list PluginRecord) : Prop :=
  Forall (λ r, ∃ ent m, candidate h root ent m ∧
                        scanned (require_cache h) (require_cache h') root ent m r)
         rs ∧
  ∀ ent m, candidate h root ent m →
    ∃ r, r ∈ rs ∧ scanned (require_cache h) (require_cache h') root ent m r.

(** What the scan leaves of the state [loadAll] started from. *)
Record scan_kept (h h1 : Host) : Prop := {
  sk_files : files h1 = files h;
  sk_listeners : listeners h1 = listeners h;
  sk_handlers : webRequestHandlers h1 = webRequestHandlers h;
  sk_contribs : contextMenuContribs h1 = contextMenuContribs h;
  sk_ipc : ipc_channels h1 = ipc_channels h;
  sk_pages : rendererPages h1 = [];
  sk_cache : cache_grows (require_cache h) (require_cache h1);
  sk_console : console h `prefix_of` console h1
}.

(** What [attach_all] adds to the hooks of a session. *)
Definition hooks_of (es : list WebRequestHandler) (wr : WebRequest)
    (new : list (value * Hook)) : Prop :=
  Forall (λ fh, ∃ e, e ∈ es ∧ fh = (or_else (filter e) (VObj []), hook (listener e)))
         new ∧
  ∀ e, e ∈ es → attach_throws wr (or_else (filter e) (VObj [])) = false →
       (or_else (filter e) (VObj []), hook (listener e)) ∈ new.

(** The descriptors of one directory entry. *)
Definition entry_descriptors (h : Host) (root : string) (ent : Dirent)
  : list Descriptor :=
  if isDirectory ent then
    match files h !! path_join W (plugin_dir root ent) "plugin.json"
          ≫= describe ent (plugin_dir root ent) with
    | Some d => [d]
    | None => []
    end
  else [].

Definition root_descriptors (h : Host) (root : string) : list Descriptor :=
  match readdirSync W root with
  | Some entries => entries ≫= entry_descriptors h root
  | None => []
  end.

End Vocabulary.

(** ** The GPU configuration ([gpu-config.js]) *)

Module GPU.

(** The fields of [GPUConfig]. *)
Record Config : Type := {
  isGPUSupported : bool;
  fallbackApplied : bool;
  isSteamOS : bool;
  isLinux : bool
}.

(** The process as [GPUConfig] sees it: [process.platform], what
    [fs.existsSync] answers, the text of [/etc/os-release] ([None]:
    [fs.readFileSync] throws), which environment variables are set to a
    non-empty string, for which switches [app.commandLine.appendSwitch]
    throws, and the entries of the object [app.getGPUFeatureStatus()]
    returns, each status a string ([None]: it throws).  Console output is
    left out. *)
Record Sys : Type := {
  platform : string;
  file_exists : string → bool;
  os_release : option string;
  env_set : string → bool;
  switch_throws : string → bool;
  gpu_feature_status : option (list (string * string))
}.

(** The instance and the command line built so far (switch and value). *)
Record State : Type := {
  cfg : Config;
  switches : list (string * option string)
}.

(** [s.includes(sub)] *)
Definition includes (sub s : string) : bool :=
  match String.index 0 sub s with
  | Some _ => true
  | None => false
  end.

Section Methods.

Context (sys : Sys).

(** [new GPUConfig()] *)
Definition constructor : Config :=
  {| isGPUSupported := false; fallbackApplied := false; isSteamOS := false;
     isLinux := String.eqb (platform sys) "linux" |}.

(** [detectSteamOS()]; the inner [option] is the [try]: [None] when
    reading [/etc/os-release] throws, which the [catch] answers with
    [false]. *)
Definition detectSteamOS (c : Config) : bool :=
  if negb (isLinux c) then false
  else if file_exists sys "/etc/steamos-release" then true
  else if file_exists sys "/usr/share/steamos/steamos.conf" then true
  else
    match (if file_exists sys "/etc/os-release"
           then (λ osRelease, includes "SteamOS" osRelease
                              || includes "steamos" osRelease)
                  <$> os_release sys
           else Some false) with
    | None => false
    | Some true => true
    | Some false =>
        if env_set sys "GAMESCOPE_WAYLAND_DISPLAY" || env_set sys "SteamDeck"
        then true
        else if env_set sys "STEAM_RUNTIME" || env_set sys "SteamAppId"
             then true
             else false
    end.

(** One or more calls of [app.commandLine.appendSwitch], in order, up to
    the first that throws; [false] when one threw. *)
Fixpoint appendSwitches (sws : list (string * option string)) (st : State)
  : bool * State :=
  match sws with
  | [] => (true, st)
  | (sw, v) :: rest =>
      if switch_throws sys sw then (false, st)
      else appendSwitches rest
             {| cfg := cfg st; switches := switches st ++ [(sw, v)] |}
  end.

(** The switches of [applyConservativeSettings()]. *)
Definition conservative_switches : list (string * option string) :=
  (if negb (String.eqb (platform sys) "linux")
   then [("no-sandbox", None); ("disable-gpu-sandbox", None)]
   else [])
  ++ [("disable-dev-shm-usage", None);
      ("disable-background-timer-throttling", None);
      ("disable-renderer-backgrounding", None);
      ("disable-backgrounding-occluded-windows", None);
      ("enable-quic", None);
      ("max_old_space_size", Some "4096")].

Definition applyConservativeSettings (st : State) : bool * State :=
  appendSwitches conservative_switches st.

(** The switches of [applyFallback()]. *)
Definition fallback_switches : list (string * option string) :=
  [("disable-gpu", None); ("disable-gpu-compositing", None);
   ("disable-software-rasterizer", None)].

(** [applyFallback()]: the two fields are set after the switches. *)
Definition applyFallback (st : State) : bool * State :=
  match appendSwitches fallback_switches st with
  | (true, st') =>
      (true, {| cfg := {| isGPUSupported := false; fallbackApplied := true;
                          isSteamOS := isSteamOS (cfg st');
                          isLinux := isLinux (cfg st') |};
                switches := switches st' |})
  | (false, st') => (false, st')
  end.

(** The switches of [tryEnableGPU()] off SteamOS. *)
Definition acceleration_switches (c : Config) : list (string * option string) :=
  [("ignore-gpu-blacklist", None); ("ignore-gpu-blocklist", None);
   ("enable-gpu-rasterization", None); ("enable-zero-copy", None);
   ("enable-accelerated-video-decode", None);
   ("enable-accelerated-mjpeg-decode", None)]
  ++ (if negb (isLinux c) then [("enable-features", Some "VaapiVideoDecoder")]
      else []).

(** [tryEnableGPU()] *)
Definition tryEnableGPU (st : State) : bool * State :=
  if isSteamOS (cfg st) then (true, st)
  else match appendSwitches (acceleration_switches (cfg st)) st with
       | (true, st') => (true, st')
       | (false, st') => applyFallback st'
       end.

(** [configure()] *)
Definition configure (st : State) : bool * State :=
  let st1 := {| cfg := {| isGPUSupported := isGPUSupported (cfg st);
                          fallbackApplied := fallbackApplied (cfg st);
                          isSteamOS := detectSteamOS (cfg st);
                          isLinux := isLinux (cfg st) |};
                switches := switches st |} in
  match applyConservativeSettings st1 with
  | (true, st2) =>
      if negb (isSteamOS (cfg st2)) then tryEnableGPU st2 else (true, st2)
  | (false, st2) => (false, st2)
  end.

(** The result of [checkGPUStatus()]: the report with [isSupported],
    [enabledFeatures] and [fullStatus], or the object of the [catch],
    which has [isSupported: false] and the error message only. *)
Inductive Status : Type :=
  | Report (isSupported : bool) (enabledFeatures : list string)
           (fullStatus : list (string * string))
  | Failure.

(** [checkGPUStatus()]; [gpuInfo] stands for [Object.entries(gpuInfo)]. *)
Definition checkGPUStatus (c : Config) : Status * Config :=
  match gpu_feature_status sys with
  | Some gpuInfo =>
      let enabledFeatures :=
        map fst (List.filter (λ kv, negb (includes "disabled" kv.2)) gpuInfo) in
      let c' := {| isGPUSupported := Nat.ltb 2 (List.length enabledFeatures);
                   fallbackApplied := fallbackApplied c;
                   isSteamOS := isSteamOS c; isLinux := isLinux c |} in
      (Report (isGPUSupported c') enabledFeatures gpuInfo, c')
  | None => (Failure, c)
  end.

(** [getRecommendations()] *)
Definition getRecommendations (c : Config) : list string :=
  (if negb (isGPUSupported c)
   then ["GPU acceleration is not available on this system";
         "The browser will use software rendering (slower but stable)";
         "Consider updating your graphics drivers";
         "Check if your system supports hardware acceleration"]
   else ["GPU acceleration is working";
         "Browser should have good performance"])
  ++ (if fallbackApplied c
      then ["Fallback mode is active due to GPU issues";
            "Performance may be reduced but stability improved"]
      else []).

End Methods.

(** The names of the switches of a command line. *)
Definition switch_names (st : State) : list string := map fst (switches st).

End GPU.

(** ** Vocabulary for the further properties *)

Section Comparison.

Context (W : Env).

(** Two states a scan can run from with the same outcome: the same files,
    records and preload list, and the module cache of the second one is
    that of the first one, grown by modules that loaded. *)
Record scan_alike (a b : Host) : Prop := {
  sa_files : files b = files a;
  sa_plugins : plugins b = plugins a;
  sa_preloads : rendererPreloads b = rendererPreloads a;
  sa_cache : cache_grows W (require_cache a) (require_cache b)
}.

(** The event is not the execution of a module file that module cache [c]
    holds. *)
Definition fresh_module (c : gmap string Exports) (e : Event) : Prop :=
  match e with
  | EvModuleExecuted file => c !! file = None
  | _ => True
  end.

(** From [h] to [h'] the module cache grew, and the console grew by events
    none of which is the execution of a module that was cached in [h]. *)
Definition runs_fresh (h h' : Host) : Prop :=
  cache_grows W (require_cache h) (require_cache h') ∧
  ∃ evs, console h' = console h ++ evs ∧
         Forall (fresh_module (require_cache h)) evs.

(** The record was built for a candidate of one of the two roots; a
    disabled one has no module. *)
Definition from_candidate (h : Host) (r : PluginRecord) : Prop :=
  ∃ root ent m,
    root ∈ getPluginDirs W ∧ candidate W h root ent m ∧
    made_for W root ent m r ∧ (enabled r = false → mod_ r = None).

(** The path is the [rendererPreload] of an enabled candidate, joined to
    its directory, and [fs.existsSync] found it. *)
Definition declared_preload (h : Host) (rp : string) : Prop :=
  ∃ root ent m s,
    root ∈ getPluginDirs W ∧ candidate W h root ent m ∧
    enabled_of m = true ∧ prop m "rendererPreload" = VStr s ∧ s ≠ "" ∧
    rp = path_join W (plugin_dir W root ent) s ∧
    existsSync W rp = Some true.

(** The page registration is one [registerRendererPage] makes for plugin
    [p]: id and file are truthy, the plugin id is that of [p], and the URL
    is that of the file when the file is a string [pathToFileURL] accepts. *)
Definition page_of (p : PluginRecord) (pg : Page) : Prop :=
  truthy (pg_id pg) = true ∧ truthy (pg_file pg) = true ∧
  pg_pluginId pg = id p ∧
  pg_fileUrl pg = match pg_file pg with
                  | VStr s => pathToFileURL W s
                  | _ => None
                  end.

(** The provenance of what a scan builds, as an invariant of its loops. *)
Definition provenance (h0 h : Host) : Prop :=
  files h = files h0 ∧
  Forall (from_candidate h0) (plugins h) ∧
  Forall (declared_preload h0) (rendererPreloads h).

End Comparison.

(** ** A small installation to evaluate the methods on *)

Module Demo.

(** Two roots, [/app/plugins] and [/home/plugins].  The bundled root holds
    [ads] (its entry point registers a request listener, a menu
    contributor and a page, and does not catch what [registerRendererPage]
    throws), [broken] (the top level of its main module throws), a file
    and a directory without manifest; the user root holds [ads-user]
    (same id as [ads]; its module is itself the entry point) and [off]
    (disabled). *)

Definition join (a b : string) : string :=
  String.append a (String.append "/" b).

Definition manifests : gmap string value :=
  list_to_map
    [("/app/plugins/ads/plugin.json",
      VObj [("id", VStr "adblock"); ("main", VStr "index.js");
            ("rendererPreload", VStr "preload.js");
            ("authors", VArr [VObj [("name", VStr "Ann")]; VStr "Bob"; VNum 5] [])]);
     ("/app/plugins/broken/plugin.json",
      VObj [("id", VStr "broken"); ("main", VStr "index.js")]);
     ("/home/plugins/ads-user/plugin.json",
      VObj [("id", VStr "adblock"); ("main", VStr "main.js");
            ("rendererPreload", VStr "preload.js")]);
     ("/home/plugins/off/plugin.json",
      VObj [("id", VStr "off"); ("enabled", VBool false);
            ("main", VStr "index.js")])].

Definition block_all : Listener := λ _, Returns (VObj [("cancel", VBool true)]).

Definition ads_activate : Activation := λ _,
  Call (CallRegisterWebRequest (VObj [("urls", VArr [VStr "*://ads/*"] [])]) block_all)
    (Call (CallContributeContextMenu 7)
       (Call (CallRegisterRendererPage
                (VObj [("id", VStr "ads"); ("html", VStr "/app/plugins/ads/page.html")]))
          Ret Raise)
       Raise)
    Raise.

Definition ads_user_main : Activation := λ _,
  Call (CallLog "log" "ready") (Call (CallOn "app-ready" 1) Ret Raise) Raise.

Definition ads_exports : Exports :=
  {| exp_truthy := true; exp_activate := Some ads_activate; exp_call := None |}.

Definition ads_user_exports : Exports :=
  {| exp_truthy := true; exp_activate := None; exp_call := Some ads_user_main |}.

Definition env : Env :=
  {| appPath := "/app";
     userData := "/home";
     path_join := join;
     readdirSync := λ root,
       if String.eqb root "/app/plugins" then
         Some [{| ename := "ads"; isDirectory := true |};
               {| ename := "broken"; isDirectory := true |};
               {| ename := "README.md"; isDirectory := false |};
               {| ename := "empty"; isDirectory := true |}]
       else if String.eqb root "/home/plugins" then
         Some [{| ename := "ads-user"; isDirectory := true |};
               {| ename := "off"; isDirectory := true |}]
       else None;
     existsSync := λ p, Some (String.eqb p "/app/plugins/ads/preload.js"
                              || String.eqb p "/home/plugins/ads-user/preload.js");
     resolve := λ p,
       if String.eqb p "/app/plugins/ads/index.js"
          || String.eqb p "/app/plugins/broken/index.js"
          || String.eqb p "/home/plugins/ads-user/main.js"
       then Some p else None;
     load_module := λ file,
       if String.eqb file "/app/plugins/ads/index.js" then Some ads_exports
       else if String.eqb file "/home/plugins/ads-user/main.js"
            then Some ads_user_exports
            else None;
     pathToFileURL := λ p, Some (String.append "file://" p);
     write_rejects := λ _, false |}.

(** A fresh manager in a process that has loaded nothing yet. *)
Definition start : Host := constructor ∅ manifests.

(** The state after the first [loadAll()], and after a second one. *)
Definition after_load : Host := (loadAll env start).2.
Definition after_reload : Host := (reload env VUndef after_load).2.

(** An id that has no string: the manifest says [{"toString": 1}]. *)
Definition opaque_id : value := VObj [("toString", VNum 1)].

(** The same installation, where [broken] declares that id. *)
Definition manifests_opaque_broken : gmap string value :=
  <["/app/plugins/broken/plugin.json" :=
      VObj [("id", opaque_id); ("main", VStr "index.js")]]> manifests.

Definition start_opaque_broken : Host := constructor ∅ manifests_opaque_broken.

(** The same installation, where the [main] of [broken] is the number 5. *)
Definition manifests_numeric_main : gmap string value :=
  <["/app/plugins/broken/plugin.json" :=
      VObj [("id", VStr "broken"); ("main", VNum 5)]]> manifests.

Definition start_numeric_main : Host := constructor ∅ manifests_numeric_main.

(** The same installation, where [ads-user] declares that id. *)
Definition manifests_opaque_user : gmap string value :=
  <["/home/plugins/ads-user/plugin.json" :=
      VObj [("id", opaque_id); ("main", VStr "main.js");
            ("rendererPreload", VStr "preload.js")]]> manifests.

Definition start_opaque_user : Host := constructor ∅ manifests_opaque_user.

(** The same installation, where [empty/plugin.json] holds the JSON array
    [[]], and the state after a load pass on it. *)
Definition manifests_array : gmap string value :=
  <["/app/plugins/empty/plugin.json" := VArr [] []]> manifests.

Definition after_load_array : Host :=
  (loadAll env (constructor ∅ manifests_array)).2.

End Demo.

(** Two bundled plugins, [a] and [b], whose [main] is the same file, one
    level up. *)
Module DemoShared.

Definition manifests : gmap string value :=
  list_to_map
    [("/app/plugins/a/plugin.json",
      VObj [("id", VStr "a"); ("main", VStr "../lib/index.js")]);
     ("/app/plugins/b/plugin.json",
      VObj [("id", VStr "b"); ("main", VStr "../lib/index.js")])].

Definition lib_exports : Exports :=
  {| exp_truthy := true; exp_activate := None; exp_call := None |}.

Definition env : Env :=
  {| appPath := "/app";
     userData := "/home";
     path_join := Demo.join;
     readdirSync := λ root,
       if String.eqb root "/app/plugins" then
         Some [{| ename := "a"; isDirectory := true |};
               {| ename := "b"; isDirectory := true |}]
       else None;
     existsSync := λ _, Some false;
     resolve := λ p,
       if String.eqb p "/app/plugins/a/../lib/index.js"
          || String.eqb p "/app/plugins/b/../lib/index.js"
       then Some "/app/plugins/lib/index.js" else None;
     load_module := λ file,
       if String.eqb file "/app/plugins/lib/index.js" then Some lib_exports
       else None;
     pathToFileURL := λ p, Some (String.append "file://" p);
     write_rejects := λ _, false |}.

Definition after_load : Host := (loadAll env (constructor ∅ manifests)).2.

End DemoShared.

(** A Linux desktop on which [appendSwitch] throws for [enable-zero-copy]. *)
Module DemoGPU.

Definition sys : GPU.Sys :=
  {| GPU.platform := "linux";
     GPU.file_exists := λ _, false;
     GPU.os_release := None;
     GPU.env_set := λ _, false;
     GPU.switch_throws := λ sw, String.eqb sw "enable-zero-copy";
     GPU.gpu_feature_status := None |}.

Definition start : GPU.State :=
  {| GPU.cfg := GPU.constructor sys; GPU.switches := [] |}.

(** A Windows desktop on which [appendSwitch] never throws. *)
Definition desktop : GPU.Sys :=
  {| GPU.platform := "win32";
     GPU.file_exists := λ _, false;
     GPU.os_release := None;
     GPU.env_set := λ _, false;
     GPU.switch_throws := λ _, false;
     GPU.gpu_feature_status :=
       Some [("2d_canvas", "enabled"); ("gpu_compositing", "enabled");
             ("vulkan", "disabled_off"); ("webgl", "enabled")] |}.

(** A Linux machine under Gamescope whose [/etc/os-release] exists but
    cannot be read. *)
Definition deck : GPU.Sys :=
  {| GPU.platform := "linux";
     GPU.file_exists := λ f, String.eqb f "/etc/os-release";
     GPU.os_release := None;
     GPU.env_set := λ v, String.eqb v "GAMESCOPE_WAYLAND_DISPLAY";
     GPU.switch_throws := λ _, false;
     GPU.gpu_feature_status := None |}.

End DemoGPU.

(** ** Facts about values *)

Lemma prop_lookup_set_eq k v ps : prop_lookup k (prop_set k v ps) = v.
Proof.
  induction ps as [|[k' v'] ps IH]; simpl.
  - by rewrite String.eqb_refl.
  - destruct (String.eqb k' k) eqn:E; simpl; rewrite E; auto.
Qed.

Lemma prop_lookup_set_ne k k' v ps :
  k ≠ k' → prop_lookup k' (prop_set k v ps) = prop_lookup k' ps.
Proof.
  intros Hne. induction ps as [|[k0 v0] ps IH]; simpl.
  - destruct (String.eqb k k') eqn:E; [|done].
    apply String.eqb_eq in E. done.
  - destruct (String.eqb k0 k) eqn:E; simpl.
    + apply String.eqb_eq in E. subst k0.
      destruct (String.eqb k k') eqn:E'; [|done].
      apply String.eqb_eq in E'. done.
    + by rewrite IH.
Qed.

Lemma get_set_prop_eq m k x m' :
  set_prop m k x = Some m' → get_prop m' k = Some x.
Proof.
  destruct m; simpl; intros [= <-]; simpl; by rewrite prop_lookup_set_eq.
Qed.

Lemma get_set_prop_ne m k k' x m' :
  k ≠ k' → set_prop m k x = Some m' → get_prop m' k' = get_prop m k'.
Proof.
  intros Hne.
  destruct m; simpl; intros [= <-]; simpl; by rewrite prop_lookup_set_ne.
Qed.

(** ** General facts about completions and loops *)

Ltac unfold_m :=
  unfold or_type_error in *;
  unfold bind, ret, throw, modify, gets, try_catch in *;
  cbv beta iota in *.

Lemma for_each_app {A} (body : A → M unit) (l1 l2 : list A) (h : Host) :
  for_each body (l1 ++ l2) h =
  match for_each body l1 h with
  | (Normal _, h') => for_each body l2 h'
  | (Throw e, h') => (Throw e, h')
  end.
Proof.
  revert h. induction l1 as [|x l1 IH]; intros h; simpl.
  - reflexivity.
  - unfold bind. destruct (body x h) as [[[]|e] h1]; [apply IH | reflexivity].
Qed.

Section Proofs.

Context (W : Env).

(** *** What a pass leaves alone *)

#[local] Instance cache_grows_preorder : PreOrder (cache_grows W).
Proof.
  split.
  - intros c. split; auto.
  - intros c1 c2 c3 [H1 H2] [H3 H4]. split; [auto|].
    intros k m Hk. destruct (H4 k m Hk) as [?|?]; auto.
Qed.

#[local] Instance scan_frame_preorder : PreOrder (scan_frame W).
Proof.
  split.
  - intros h. split; reflexivity.
  - intros h1 h2 h3 [] []. split; try congruence; etrans; eauto.
Qed.

#[local] Instance act_frame_preorder : PreOrder act_frame.
Proof.
  split.
  - intros h. split; reflexivity.
  - intros h1 h2 h3 [] []. split; try congruence; etrans; eauto.
Qed.

Lemma require_frame p h c h' : require W p h = (c, h') → scan_frame W h h'.
Proof.
  unfold require. intros Hr.
  destruct (resolve W p) as [file|]; [|injection Hr as _ <-; reflexivity].
  destruct (require_cache h !! file) as [m|] eqn:Hc;
    [injection Hr as _ <-; reflexivity|].
  destruct (load_module W file) as [m|] eqn:Hl; injection Hr as _ <-.
  - split; simpl; try reflexivity; [|by apply prefix_app_r].
    split; intros k m' Hk.
    + destruct (decide (file = k)) as [->|Hne]; [congruence|].
      by rewrite lookup_insert_ne.
    + destruct (decide (file = k)) as [->|Hne].
      * rewrite lookup_insert_eq in Hk. right. congruence.
      * rewrite lookup_insert_ne in Hk by done. by left.
  - split; simpl; try reflexivity. by apply prefix_app_r.
Qed.

Lemma join_value_frame d x h c h' : join_value W d x h = (c, h') → h' = h.
Proof. destruct x; unfold join_value; unfold_m; congruence. Qed.

Lemma load_main_frame r h c h' : load_main W r h = (c, h') → scan_frame W h h'.
Proof.
  unfold load_main. unfold_m.
  destruct (get_prop (manifest r) "main") as [main|];
    [|intros [= _ <-]; reflexivity].
  destruct (truthy main); [|intros [= _ <-]; reflexivity].
  destruct (join_value W (dir r) main h) as [[mp|e] h1] eqn:Ej;
    apply join_value_frame in Ej as ->; [|intros [= _ <-]; reflexivity].
  destruct (require W mp h) as [[m|e] h2] eqn:Er;
    apply require_frame in Er; [by intros [= _ <-]|].
  destruct (to_string_throws (id r)); simpl; intros [= _ <-]; [done|].
  etrans; [exact Er|]. split; simpl; try reflexivity. by apply prefix_app_r.
Qed.

Lemma require_plugins p h c h' :
  require W p h = (c, h') → plugins h' = plugins h.
Proof.
  unfold require. destruct (resolve W p) as [file|]; [|by intros [= _ <-]].
  destruct (require_cache h !! file); [by intros [= _ <-]|].
  destruct (load_module W file); by intros [= _ <-].
Qed.

Lemma load_main_plugins r h c h' :
  load_main W r h = (c, h') → plugins h' = plugins h.
Proof.
  unfold load_main. unfold_m.
  destruct (get_prop (manifest r) "main") as [main|]; [|by intros [= _ <-]].
  destruct (truthy main); [|by intros [= _ <-]].
  destruct (join_value W (dir r) main h) as [[mp|e] h1] eqn:Ej;
    apply join_value_frame in Ej as ->; [|by intros [= _ <-]].
  destruct (require W mp h) as [[m|e] h2] eqn:Er;
    apply require_plugins in Er; [by intros [= _ <-]|].
  destruct (to_string_throws (id r)); simpl; by intros [= _ <-].
Qed.

Lemma collect_preload_frame r h c h' :
  collect_preload W r h = (c, h') → scan_frame W h h'.
Proof.
  unfold collect_preload. unfold_m.
  destruct (get_prop (manifest r) "rendererPreload") as [rp|];
    [|intros [= _ <-]; reflexivity].
  destruct (truthy rp); [|intros [= _ <-]; reflexivity].
  destruct (join_value W (dir r) rp h) as [[p|e] h1] eqn:Ej;
    apply join_value_frame in Ej as ->; [|intros [= _ <-]; reflexivity].
  destruct (existsSync W p) as [[]|]; intros [= _ <-];
    split; simpl; reflexivity.
Qed.

(** *** Normalized manifests *)

Lemma set_prop_get m k x m' k' :
  set_prop m k x = Some m' → is_Some (get_prop m' k').
Proof. destruct m; simpl; intros [= <-]; simpl; eauto. Qed.

Lemma normalize_authors_get p m k :
  normalize_authors p = Some m → is_Some (get_prop m k).
Proof.
  unfold normalize_authors.
  destruct (get_prop p "authors") as [au|] eqn:Hc; simpl; [|done].
  assert (Hp : is_Some (get_prop p k)) by (destruct p; simpl in *; eauto; done).
  destruct (is_string au); [by apply set_prop_get|].
  destruct au; simpl; try (intros [= <-]; done); by apply set_prop_get.
Qed.

(** A normalized manifest is an object: every property read succeeds. *)
Lemma normalize_manifest_get p m k :
  normalize_manifest p = Some m → get_prop m k = Some (prop m k).
Proof.
  unfold normalize_manifest, prop. intros H.
  destruct (normalize_categories p) as [m1|]; simpl in H; [|done].
  destruct (normalize_authors_get _ _ k H) as [v ->]. done.
Qed.

(** *** The scan, one entry at a time *)

Lemma require_fails_grows c c' mp :
  cache_grows W c c' → require_fails W c mp → require_fails W c' mp.
Proof.
  unfold require_fails. intros [_ Hnew].
  destruct (resolve W mp) as [file|]; [|done].
  intros [Hc Hl]. split; [|done].
  destruct (c' !! file) as [m|] eqn:E; [|done].
  destruct (Hnew _ _ E); congruence.
Qed.

Lemma mod_ok_grows c c' r : cache_grows W c c' → mod_ok W c r → mod_ok W c' r.
Proof.
  intros [Hold _] Hok m Hm. destruct (Hok m Hm) as (He & s & file & ? & ? & ? & ?).
  split; [done|]. exists s, file. eauto.
Qed.

Lemma require_spec mp h c h' :
  require W mp h = (c, h') →
  match c with
  | Normal m => ∃ file, resolve W mp = Some file ∧ require_cache h' !! file = Some m
  | Throw _ => require_fails W (require_cache h) mp
  end.
Proof.
  unfold require, require_fails.
  destruct (resolve W mp) as [file|]; [|by intros [= <- _]].
  destruct (require_cache h !! file) as [m|] eqn:Hc.
  - intros [= <- <-]. eauto.
  - destruct (load_module W file) as [m|] eqn:Hl; intros [= <- <-].
    + exists file. simpl. by rewrite lookup_insert_eq.
    + done.
Qed.

Lemma require_fails_throws mp h :
  require_fails W (require_cache h) mp → ∃ e h', require W mp h = (Throw e, h').
Proof.
  unfold require, require_fails.
  destruct (resolve W mp) as [file|]; [|eauto].
  intros [-> ->]. eauto.
Qed.

Lemma require_gives_grows c c' mp e :
  cache_grows W c c' → require_gives W c mp e → require_gives W c' mp e.
Proof.
  intros [Hold Hnew] (file & Hres & Hc). exists file. split; [done|].
  destruct (c !! file) as [m|] eqn:E.
  - by rewrite (Hold _ _ E).
  - destruct (c' !! file) as [m'|] eqn:E'; [|done].
    destruct (Hnew _ _ E'); congruence.
Qed.

Lemma require_gives_returns mp h e :
  require_gives W (require_cache h) mp e → ∃ h', require W mp h = (Normal e, h').
Proof.
  unfold require. intros (file & -> & Hc).
  destruct (require_cache h !! file) as [m|]; [subst; eauto|].
  rewrite Hc. eauto.
Qed.

Lemma joinable_str s : joinable (VStr s) = true.
Proof. unfold joinable. simpl. apply orb_true_r. Qed.

(** [load_main] on the fresh record of an enabled plugin. *)
Lemma load_main_spec r h c h' :
  mod_ r = None → mainPath r = None → enabled r = true →
  is_Some (get_prop (manifest r) "main") →
  load_main W r h = (c, h') →
  match c with
  | Normal r' =>
      id r' = id r ∧ dir r' = dir r ∧ manifest r' = manifest r ∧
      enabled r' = enabled r ∧
      joinable (prop (manifest r) "main") = true ∧
      mod_ok W (require_cache h') r' ∧
      (∀ s, prop (manifest r) "main" = VStr s →
            require_fails W (require_cache h) (path_join W (dir r) s) →
            mod_ r' = None ∧ mainPath r' = None) ∧
      (∀ s e, prop (manifest r) "main" = VStr s → s ≠ "" →
              require_gives W (require_cache h) (path_join W (dir r) s) e →
              mod_ r' = Some e)
  | Throw _ =>
      joinable (prop (manifest r) "main") = false ∨
      to_string_throws (id r) = true
  end.
Proof.
  intros Hmod Hmp Hen [main Hmain]. unfold load_main, prop.
  rewrite Hmain. unfold_m. simpl.
  destruct (truthy main) eqn:Ht.
  - destruct main; simpl in Ht |- *; unfold_m;
      try (intros [= <- <-]; left;
           unfold joinable; simpl; by rewrite ?Ht).
    destruct (require W (path_join W (dir r) s) h) as [[m|e] h1] eqn:Er.
    + intros [= <- <-]; simpl.
      apply require_spec in Er as Hs. destruct Hs as (file & Hres & Hcache).
      split_and!; try done.
      * apply joinable_str.
      * intros m' [= <-]. simpl. split; [done|].
        exists s, file. unfold prop. simpl. rewrite Hmain. done.
      * intros s' [= <-] Hfails.
        destruct (require_fails_throws _ _ Hfails) as (e & h2 & Hr). congruence.
      * intros s' e [= <-] _ Hg.
        destruct (require_gives_returns _ _ _ Hg) as (h2 & Hr). congruence.
    + destruct (to_string_throws (id r)) eqn:Hts; simpl; intros [= <- <-];
        [by right|].
      split_and!; try done; [apply joinable_str|..].
      * intros m Hm. congruence.
      * intros s' e' [= <-] _ Hg.
        destruct (require_gives_returns _ _ _ Hg) as (h2 & Hr). congruence.
  - intros [= <- <-]. split_and!; try done.
    + unfold joinable. by rewrite Ht.
    + intros m Hm. congruence.
    + intros s e -> Hne. simpl in Ht.
      destruct (String.eqb s "") eqn:E; [|done].
      apply String.eqb_eq in E. done.
Qed.

Lemma collect_preload_spec r h c h' :
  is_Some (get_prop (manifest r) "rendererPreload") →
  collect_preload W r h = (c, h') →
  plugins h' = plugins h ∧
  match c with
  | Normal _ => joinable (prop (manifest r) "rendererPreload") = true
  | Throw _ => joinable (prop (manifest r) "rendererPreload") = false
  end.
Proof.
  intros [rp Hrp]. unfold collect_preload, prop. rewrite Hrp. unfold_m. simpl.
  unfold joinable. destruct (truthy rp) eqn:Ht; [|by intros [= <- <-]].
  destruct rp; simpl in Ht |- *; unfold_m; try (by intros [= <- <-]).
  destruct (existsSync W _) as [[]|]; by intros [= <- <-].
Qed.

Lemma scanned_grows c0 c0' c c' root ent m r :
  cache_grows W c0' c0 → cache_grows W c c' →
  scanned W c0 c root ent m r → scanned W c0' c' root ent m r.
Proof.
  intros H0 Hc (Hmade & Hok & Hfail & Hgives). split_and!; [done|..].
  - by eapply mod_ok_grows.
  - intros s He Hs Hf. apply (Hfail s He Hs). by eapply require_fails_grows.
  - intros s e He Hs Hne Hg. apply (Hgives s e He Hs Hne).
    by eapply require_gives_grows.
Qed.

Lemma scan_entry_spec root ent h c h' :
  scan_entry W root ent h = (c, h') →
  scan_frame W h h' ∧
  match manifest_of W h root ent, c with
  | None, Normal _ => plugins h' = plugins h
  | None, Throw _ => False
  | Some m, Normal _ =>
      well_typed m = true ∧
      ∃ r, plugins h' = plugins h ++ [r] ∧
           scanned W (require_cache h) (require_cache h') root ent m r
  | Some m, Throw _ =>
      (well_typed m = false ∨ to_string_throws (id_of ent m) = true) ∧
      plugins h' = plugins h
  end.
Proof.
  unfold scan_entry, manifest_of, plugin_dir, read_manifest.
  destruct (isDirectory ent); simpl; [|by intros [= <- <-]].
  unfold_m.
  set (d := path_join W root (ename ent)).
  destruct (files h !! path_join W d "plugin.json" ≫= normalize_manifest)
    as [m|] eqn:Hm; [|by intros [= <- <-]].
  assert (Hget : ∀ k, get_prop m k = Some (prop m k)).
  { intros k. destruct (files h !! _) as [p|]; simpl in Hm; [|done].
    by eapply normalize_manifest_get. }
  rewrite !Hget. cbv beta iota.
  fold (enabled_of m). fold (id_of ent m).
  unfold well_typed.
  set (r0 := {| id := id_of ent m; dir := d; manifest := m;
                enabled := enabled_of m; mod_ := None; mainPath := None |}).
  destruct (enabled_of m) eqn:Hen; simpl.
  - destruct (load_main W r0 h) as [[r1|e] h1] eqn:El.
    + apply load_main_frame in El as Hf1. pose proof El as El'.
      apply load_main_spec in El; try done; [|by rewrite Hget].
      destruct El as (Hid & Hdir & Hman & Henr & Hj & Hok & Hfail & Hgives).
      destruct (collect_preload W r1 h1) as [[[]|e] h2] eqn:Ec.
      * apply collect_preload_frame in Ec as Hf2.
        apply collect_preload_spec in Ec; [|rewrite Hman; by rewrite Hget].
        destruct Ec as [Hpl Hj2]. rewrite Hman in Hj2.
        intros [= <- <-]. split.
        { etrans; [exact Hf1|]. etrans; [exact Hf2|].
          split; simpl; reflexivity. }
        simpl in Hj, Hj2. rewrite Hj, Hj2. split; [done|].
        exists r1. simpl. split.
        { rewrite Hpl. by rewrite (load_main_plugins _ _ _ _ El'). }
        destruct Hf2 as [_ _ _ _ _ _ Hc2 _].
        split_and!.
        -- unfold made_for. by rewrite Hid, Hdir, Hman, Henr, Hen.
        -- by eapply mod_ok_grows.
        -- intros s _ Hs Hfl. apply (Hfail s); done.
        -- intros s e0 _ Hs Hne Hg. apply (Hgives s e0); done.
      * apply collect_preload_frame in Ec as Hf2.
        apply collect_preload_spec in Ec; [|rewrite Hman; by rewrite Hget].
        destruct Ec as [Hpl Hj2]. rewrite Hman in Hj2.
        intros [= <- <-]. split; [by etrans|].
        simpl in Hj, Hj2. rewrite Hj, Hj2. split; [by left|].
        rewrite Hpl. by rewrite (load_main_plugins _ _ _ _ El').
    + apply load_main_frame in El as Hf1.
      pose proof (load_main_plugins _ _ _ _ El) as Hpl.
      apply load_main_spec in El; try done; [|by rewrite Hget].
      intros [= <- <-]. split; [done|]. split; [|done].
      destruct El as [Hj|Hts]; [left|by right].
      simpl in Hj. by rewrite Hj.
  - intros [= <- <-]. split; [split; simpl; reflexivity|].
    split; [done|]. exists r0. simpl. split; [done|].
    split_and!; try done. intros s e He. congruence.
Qed.

Lemma manifest_of_files h h' root ent :
  files h' = files h → manifest_of W h' root ent = manifest_of W h root ent.
Proof. unfold manifest_of. by intros ->. Qed.

Lemma scan_entries_spec root entries h c h' :
  for_each (scan_entry W root) entries h = (c, h') →
  scan_frame W h h' ∧
  match c with
  | Normal _ =>
      (∀ ent m, ent ∈ entries → manifest_of W h root ent = Some m →
                well_typed m = true) ∧
      ∃ rs, plugins h' = plugins h ++ rs ∧ entries_scanned W h h' root entries rs
  | Throw _ =>
      ∃ ent m, ent ∈ entries ∧ manifest_of W h root ent = Some m ∧
               (well_typed m = false ∨ to_string_throws (id_of ent m) = true)
  end.
Proof.
  revert h. induction entries as [|ent entries IH]; intros h; simpl.
  - intros [= <- <-]. split; [done|]. split; [intros ? ? []%elem_of_nil|].
    exists []. rewrite app_nil_r. split; [done|].
    split; [constructor|intros ? ? []%elem_of_nil].
  - unfold bind. destruct (scan_entry W root ent h) as [[[]|e] h1] eqn:E1.
    + apply scan_entry_spec in E1 as [Hf1 Hs1]. intros Hrest.
      apply IH in Hrest as [Hf2 Hs2].
      assert (Hm : ∀ ent', manifest_of W h1 root ent' = manifest_of W h root ent')
        by (intros; apply manifest_of_files, Hf1).
      split; [by etrans|]. destruct c as [[]|e].
      * destruct Hs2 as (Hwt & rs & Hpl & Hall & Hex).
        assert (Hg1 := sf_cache _ _ _ Hf1). assert (Hg2 := sf_cache _ _ _ Hf2).
        split.
        { intros ent' m [->|Hin]%elem_of_cons Hm'.
          - rewrite Hm' in Hs1. tauto.
          - apply (Hwt ent' m Hin). by rewrite Hm. }
        assert (Hlift : ∀ ent' m r,
                 scanned W (require_cache h1) (require_cache h') root ent' m r →
                 scanned W (require_cache h) (require_cache h') root ent' m r).
        { intros. eapply scanned_grows; [exact Hg1|reflexivity|done]. }
        destruct (manifest_of W h root ent) as [m|] eqn:Hme.
        -- destruct Hs1 as (_ & r & Hpl1 & Hsc).
           assert (Hsc' : scanned W (require_cache h) (require_cache h') root ent m r)
             by (eapply scanned_grows; [reflexivity|exact Hg2|done]).
           exists (r :: rs). split; [rewrite Hpl, Hpl1; by rewrite <-app_assoc|].
           split.
           ++ constructor.
              ** exists ent, m. split; [left|done].
              ** eapply Forall_impl; [exact Hall|]. simpl.
                 intros r' (ent' & m' & Hin & Hm' & Hsc2).
                 exists ent', m'. rewrite <-Hm. split_and!; [by right|done|auto].
           ++ intros ent' m' [->|Hin]%elem_of_cons Hm'.
              ** exists r. split; [left|]. congruence.
              ** destruct (Hex ent' m' Hin) as (r' & Hr' & Hsc2); [by rewrite Hm|].
                 exists r'. split; [by right|auto].
        -- exists rs. split; [by rewrite Hpl, Hs1|]. split.
           ++ eapply Forall_impl; [exact Hall|]. simpl.
              intros r' (ent' & m' & Hin & Hm' & Hsc2).
              exists ent', m'. rewrite <-Hm. split_and!; [by right|done|auto].
           ++ intros ent' m' [->|Hin]%elem_of_cons Hm'; [congruence|].
              destruct (Hex ent' m' Hin) as (r' & Hr' & Hsc2); [by rewrite Hm|].
              exists r'. split; [done|auto].
      * destruct Hs2 as (ent' & m & Hin & Hm' & Hwt).
        exists ent', m. rewrite <-Hm. split_and!; [by right|done..].
    + apply scan_entry_spec in E1 as [Hf1 Hs1]. intros [= <- <-].
      split; [done|]. destruct (manifest_of W h root ent) as [m|] eqn:Hme; [|done].
      exists ent, m. split_and!; [left|done|exact (proj1 Hs1)].
Qed.

Lemma scan_root_spec root h c h' :
  scan_root W root h = (c, h') →
  scan_frame W h h' ∧
  match c with
  | Normal _ =>
      (∀ ent m, candidate W h root ent m → well_typed m = true) ∧
      ∃ rs, plugins h' = plugins h ++ rs ∧ root_scanned W h h' root rs
  | Throw _ =>
      ∃ ent m, candidate W h root ent m ∧
               (well_typed m = false ∨ to_string_throws (id_of ent m) = true)
  end.
Proof.
  unfold scan_root, root_scanned, candidate.
  destruct (readdirSync W root) as [entries|] eqn:Hrd.
  - intros Hs. apply scan_entries_spec in Hs as [Hf Hs]. split; [done|].
    destruct c as [[]|e].
    + destruct Hs as (Hwt & rs & Hpl & Hall & Hex). split.
      { intros ent m [(es & [= <-] & Hin) Hm]. eauto. }
      exists rs. split; [done|]. split.
      * eapply Forall_impl; [exact Hall|]. simpl.
        intros r (ent & m & Hin & Hm & Hsc). exists ent, m. eauto 10.
      * intros ent m [(es & [= <-] & Hin) Hm]. eauto.
    + destruct Hs as (ent & m & Hin & Hm & Hwt). exists ent, m. eauto 10.
  - intros [= <- <-]. split; [done|]. split.
    { intros ent m [(es & [=] & _) _]. }
    exists []. rewrite app_nil_r. split; [done|]. split; [constructor|].
    intros ent m [(es & [=] & _) _].
Qed.

Lemma candidate_files h h' root ent m :
  files h' = files h → candidate W h' root ent m ↔ candidate W h root ent m.
Proof. intros Hf. unfold candidate. by rewrite (manifest_of_files _ _ _ _ Hf). Qed.

Lemma root_scanned_lift h h' ha hb root rs :
  files ha = files h →
  cache_grows W (require_cache h) (require_cache ha) →
  cache_grows W (require_cache hb) (require_cache h') →
  root_scanned W ha hb root rs → root_scanned W h h' root rs.
Proof.
  intros Hf Ha Hb [Hall Hex]. split.
  - eapply Forall_impl; [exact Hall|]. simpl.
    intros r (ent & m & Hc & Hsc). exists ent, m.
    split; [by apply (candidate_files _ _ _ _ _ Hf)|by eapply scanned_grows].
  - intros ent m Hc. apply (candidate_files _ _ _ _ _ Hf) in Hc.
    destruct (Hex ent m Hc) as (r & Hr & Hsc).
    exists r. split; [done|by eapply scanned_grows].
Qed.

(** *** The scan as a whole *)

Lemma scan_pass_spec h c h1 :
  scan_pass W h = (c, h1) →
  scan_kept W h h1 ∧
  match c with
  | Normal _ =>
      (∀ root ent m, root ∈ getPluginDirs W → candidate W h root ent m →
                     well_typed m = true) ∧
      ∃ rs1 rs2,
        plugins h1 = rs1 ++ rs2 ∧
        root_scanned W h h1 (path_join W (appPath W) "plugins") rs1 ∧
        root_scanned W h h1 (path_join W (userData W) "plugins") rs2
  | Throw _ =>
      ∃ root ent m, root ∈ getPluginDirs W ∧ candidate W h root ent m ∧
                    (well_typed m = false ∨
                     to_string_throws (id_of ent m) = true)
  end.
Proof.
  unfold scan_pass, getPluginDirs. unfold_m. simpl. unfold bind, ret.
  set (h0 := set_rendererPages [] (set_rendererPreloads [] (set_plugins [] h))).
  set (ra := path_join W (appPath W) "plugins").
  set (ru := path_join W (userData W) "plugins").
  assert (Hfiles0 : files h0 = files h) by done.
  destruct (scan_root W ra h0) as [[[]|e] ha] eqn:Ea.
  - apply scan_root_spec in Ea as [Hfa (Hwta & rs1 & Hpla & Hsa)].
    destruct (scan_root W ru ha) as [[[]|e] hb] eqn:Eb.
    + apply scan_root_spec in Eb as [Hfb (Hwtb & rs2 & Hplb & Hsb)].
      intros [= <- <-].
      assert (Hf : scan_frame W h0 hb) by (by etrans).
      split; [destruct Hf; split; done|]. split.
      * intros root ent m Hin Hc.
        apply elem_of_cons in Hin as [->|Hin].
        { apply (Hwta ent m). by apply (candidate_files _ _ _ _ _ Hfiles0). }
        apply list_elem_of_singleton in Hin as ->.
        apply (Hwtb ent m). apply candidate_files with h; [|done].
        by rewrite (sf_files _ _ _ Hfa).
      * exists rs1, rs2. split; [by rewrite Hplb, Hpla|]. split.
        -- eapply root_scanned_lift; [exact Hfiles0|reflexivity| |exact Hsa].
           apply (sf_cache _ _ _ Hfb).
        -- eapply root_scanned_lift; [| |reflexivity|exact Hsb].
           ++ by rewrite (sf_files _ _ _ Hfa).
           ++ apply (sf_cache _ _ _ Hfa).
    + apply scan_root_spec in Eb as [Hfb (ent & m & Hc & Hwt)].
      intros [= <- <-].
      assert (Hf : scan_frame W h0 hb) by (by etrans).
      split; [destruct Hf; split; done|].
      exists ru, ent, m. split_and!; [right; left| |done].
      apply candidate_files with ha; [|done]. by rewrite (sf_files _ _ _ Hfa).
  - apply scan_root_spec in Ea as [Hfa (ent & m & Hc & Hwt)].
    intros [= <- <-]. split; [destruct Hfa; split; done|].
    exists ra, ent, m. split_and!; [left| |done].
    by apply (candidate_files _ _ _ _ _ Hfiles0).
Qed.

(** *** Activation *)

Lemma on_frame evt cb h c h' : on evt cb h = (c, h') → act_frame h h'.
Proof.
  unfold on. destruct (listeners h !! evt); [by intros [= _ <-]|].
  case_bool_decide; by intros [= _ <-].
Qed.

Lemma ctx_call_frame p cc h c h' : ctx_call W p cc h = (c, h') → act_frame h h'.
Proof.
  destruct cc; simpl; unfold_m.
  - intros [= _ <-]. split; simpl; try reflexivity. by apply prefix_app_r.
  - apply on_frame.
  - case_bool_decide; intros [= _ <-]; split; simpl; try reflexivity.
    by apply prefix_app_r.
  - intros [= _ <-]. split; simpl; try reflexivity. by apply prefix_app_r.
  - intros [= _ <-]. split; simpl; try reflexivity. by apply prefix_app_r.
  - destruct (get_prop arg "id") as [i|]; [|by intros [= _ <-]].
    destruct (get_prop arg "html") as [html|]; [|by intros [= _ <-]].
    destruct (negb (truthy i) || negb (truthy html)); intros [= _ <-]; [done|].
    split; simpl; try reflexivity; by apply prefix_app_r.
Qed.

Lemma run_code_frame p code h c h' : run_code W p code h = (c, h') → act_frame h h'.
Proof.
  revert h. induction code as [| |cc next IHn handler IHh]; intros h; simpl.
  - by intros [= _ <-].
  - by intros [= _ <-].
  - destruct (ctx_call W p cc h) as [[[]|e] h1] eqn:E;
      apply ctx_call_frame in E; intros Hr; [apply IHn in Hr|apply IHh in Hr];
      by etrans.
Qed.

(** A record with a module whose id has no string stops the loop: the
    context cannot be built and the [catch] cannot log, so the
    [TypeError] leaves [loadAll]; nothing was changed. *)
Lemma activate_record_aborts p h :
  aborts_activation p = true → activate_record W p h = (Throw TypeError, h).
Proof.
  unfold aborts_activation, activate_record, _buildContext.
  intros [Hl Ht]%andb_true_iff. rewrite Hl, Ht. reflexivity.
Qed.

Lemma call_entry_frame p a h c h' :
  call_entry W p a h = (c, h') → act_frame h h'.
Proof.
  unfold call_entry. unfold_m. intros Hr. apply run_code_frame in Hr.
  etrans; [|exact Hr]. split; simpl; try reflexivity. by apply prefix_app_r.
Qed.

Lemma activate_record_frame p h c h' :
  activate_record W p h = (c, h') → act_frame h h'.
Proof.
  unfold activate_record, _buildContext.
  destruct (negb (loaded p)); [by intros [= _ <-]|].
  destruct (to_string_throws (id p)); [by intros [= _ <-]|].
  unfold try_catch, bind, ret. simpl.
  assert (Hwrap : ∀ (m : M unit),
            (∀ c1 h1, m h = (c1, h1) → act_frame h h1) →
            match m h with
            | (Normal a0, h'0) => (Normal a0, h'0)
            | (Throw _, h'0) => modify (emit_event (EvActivationError (id p))) h'0
            end = (c, h') → act_frame h h').
  { intros m Hm. destruct (m h) as [[[]|e] h1] eqn:E; intros [= _ <-].
    - by eapply Hm.
    - etrans; [by eapply Hm|]. split; simpl; try reflexivity.
      by apply prefix_app_r. }
  destruct (mod_ p) as [m|]; [|by intros [= _ <-]].
  destruct (exp_activate m) as [a|];
    [apply Hwrap; intros ? ?; apply call_entry_frame|].
  destruct (exp_call m) as [a|];
    [apply Hwrap; intros ? ?; apply call_entry_frame|].
  by intros [= _ <-].
Qed.

(** The console after [activate_record], for a record the loop does not
    stop at: when the loop activates it, the call of the entry point, what
    the plugin logs, and the error when the entry point throws; nothing
    for any other record. *)
Lemma activate_record_spec p h :
  aborts_activation p = false →
  ∃ h', activate_record W p h = (Normal tt, h') ∧ act_frame h h' ∧
        match activatable p with
        | Some a =>
            ∃ evs, console h' = console h ++ EvActivate (id p) (dir p) :: evs ∧
              ∀ e h2, run_code W p (a (paths_of W p))
                        (emit_event (EvActivate (id p) (dir p)) h) = (Throw e, h2) →
                      console h' = console h2 ++ [EvActivationError (id p)]
        | None => h' = h
        end.
Proof.
  unfold aborts_activation, activate_record, activatable, _buildContext.
  destruct (loaded p) eqn:Hl; simpl; [|by eexists].
  intros ->. unfold try_catch, bind, ret. simpl.
  destruct (mod_ p) as [m|]; simpl; [|by eexists].
  unfold entry_point.
  assert (Hcall : ∀ a, ∃ h',
    match call_entry W p a h with
    | (Normal a0, h'0) => (Normal a0, h'0)
    | (Throw _, h'0) => modify (emit_event (EvActivationError (id p))) h'0
    end = (Normal tt, h') ∧ act_frame h h' ∧
    ∃ evs, console h' = console h ++ EvActivate (id p) (dir p) :: evs ∧
      ∀ e h2, run_code W p (a (paths_of W p))
                (emit_event (EvActivate (id p) (dir p)) h) = (Throw e, h2) →
              console h' = console h2 ++ [EvActivationError (id p)]).
  { intros a. unfold call_entry. unfold_m.
    set (h0 := emit_event (EvActivate (id p) (dir p)) h).
    assert (Hf0 : act_frame h h0)
      by (split; simpl; try reflexivity; by apply prefix_app_r).
    destruct (run_code W p (a (paths_of W p)) h0) as [[[]|e] h2] eqn:Er;
      apply run_code_frame in Er as Hf.
    - exists h2. split; [done|]. split; [by etrans|].
      destruct (af_console _ _ Hf) as [evs Hevs]. exists evs. split.
      + rewrite Hevs. simpl. by rewrite <-app_assoc.
      + intros e' h2' [=].
    - eexists. split; [done|]. split.
      { etrans; [exact Hf0|]. etrans; [exact Hf|].
        split; simpl; try reflexivity. by apply prefix_app_r. }
      destruct (af_console _ _ Hf) as [evs Hevs].
      exists (evs ++ [EvActivationError (id p)]). split.
      + simpl. rewrite Hevs. simpl. by rewrite <-!app_assoc.
      + intros e' h2' [= _ <-]. done. }
  destruct (exp_activate m) as [a|]; [apply Hcall|].
  destruct (exp_call m) as [a|]; [apply Hcall|].
  by eexists.
Qed.

(** The activation loop only appends to what plugins contribute. *)
Lemma activation_loop_frame ps h c h' :
  for_each (activate_record W) ps h = (c, h') → act_frame h h'.
Proof.
  revert h. induction ps as [|p ps IH]; intros h; simpl.
  - by intros [= _ <-].
  - unfold bind. destruct (activate_record W p h) as [[[]|e] h1] eqn:E;
      apply activate_record_frame in E.
    + intros Hrest. etrans; [exact E|]. by eapply IH.
    + by intros [= _ <-].
Qed.

(** How the loop ends is decided by the records alone: it throws exactly
    when one of them has a module and an id without a string. *)
Lemma activation_loop_outcome ps h :
  (for_each (activate_record W) ps h).1 = loop_outcome ps.
Proof.
  unfold loop_outcome. revert h. induction ps as [|p ps IH]; intros h; simpl.
  - done.
  - unfold bind. destruct (aborts_activation p) eqn:Ha; simpl.
    + by rewrite activate_record_aborts.
    + destruct (activate_record_spec p h Ha) as (h1 & -> & _). apply IH.
Qed.

(** When no record stops it, the loop completes; the console grows by the
    events of the records it activates, in the order of the records. *)
Lemma activation_loop_spec ps h :
  existsb aborts_activation ps = false →
  ∃ h' evs, for_each (activate_record W) ps h = (Normal tt, h') ∧
            act_frame h h' ∧ console h' = console h ++ evs ∧
            activation_targets ps `sublist_of` evs.
Proof.
  revert h. induction ps as [|p ps IH]; intros h; simpl.
  - intros _. exists h, []. rewrite app_nil_r. done.
  - intros [Hp Hps]%orb_false_iff. unfold bind.
    destruct (activate_record_spec p h Hp) as (h1 & -> & Hf1 & Hs1).
    destruct (IH h1 Hps) as (h' & evs & -> & Hf2 & Hc & Hsub).
    unfold activation_targets. simpl. fold (activation_targets ps).
    destruct (activatable p) as [a|]; simpl.
    + destruct Hs1 as (evs1 & Hc1 & _).
      exists h', (EvActivate (id p) (dir p) :: evs1 ++ evs).
      split_and!; [done|by etrans|..].
      * rewrite Hc, Hc1. by rewrite <-app_assoc.
      * apply sublist_skip. by apply sublist_inserts_l.
    + subst h1. by exists h', evs.
Qed.

(** A record of the list whose entry point throws when the loop calls it:
    the error is logged with its id after the call, and the records after
    it are activated after that. *)
Lemma activation_loop_throwing ps1 p ps2 a h h1 e h2 :
  existsb aborts_activation (ps1 ++ p :: ps2) = false →
  activatable p = Some a →
  for_each (activate_record W) ps1 h = (Normal tt, h1) →
  run_code W p (a (paths_of W p)) (emit_event (EvActivate (id p) (dir p)) h1)
    = (Throw e, h2) →
  ∃ h' evs, for_each (activate_record W) (ps1 ++ p :: ps2) h = (Normal tt, h') ∧
            act_frame h h' ∧ console h' = console h ++ evs ∧
            (EvActivate (id p) (dir p) :: EvActivationError (id p)
               :: activation_targets ps2) `sublist_of` evs.
Proof.
  rewrite existsb_app. simpl.
  intros [Hok1 [Hokp Hok2]%orb_false_iff]%orb_false_iff Ha Hpre Hr.
  rewrite for_each_app.
  destruct (activation_loop_spec ps1 h Hok1)
    as (h1' & evs1 & Hpre' & Hf1 & Hc1 & _).
  rewrite Hpre in Hpre'. injection Hpre' as <-. rewrite Hpre.
  simpl. unfold bind.
  destruct (activate_record_spec p h1 Hokp) as (h3 & -> & Hf2 & Hs2).
  rewrite Ha in Hs2. destruct Hs2 as (evs2 & Hc2 & Herr).
  specialize (Herr e h2 Hr).
  apply run_code_frame in Hr as Hf3. destruct (af_console _ _ Hf3) as [evs3 Hc3].
  simpl in Hc3.
  destruct (activation_loop_spec ps2 h3 Hok2)
    as (h' & evs4 & -> & Hf4 & Hc4 & Hsub).
  exists h', (evs1 ++ EvActivate (id p) (dir p) :: evs3
                ++ EvActivationError (id p) :: evs4).
  split_and!; [done|by repeat (etrans; [eassumption|])|..].
  - rewrite Hc4, Herr, Hc3, Hc1. by rewrite <-!app_assoc.
  - apply sublist_inserts_l. apply sublist_skip. apply sublist_inserts_l.
    by apply sublist_skip.
Qed.

Lemma activation_targets_app ps1 ps2 :
  activation_targets (ps1 ++ ps2) = activation_targets ps1 ++ activation_targets ps2.
Proof. unfold activation_targets. apply omap_app. Qed.

Lemma activation_targets_elem p a ps :
  p ∈ ps → activatable p = Some a →
  EvActivate (id p) (dir p) ∈ activation_targets ps.
Proof.
  intros Hin Ha. unfold activation_targets. apply list_elem_of_omap.
  exists p. split; [done|]. by rewrite Ha.
Qed.

(** Two records of the list, in their order. *)
Lemma activation_targets_two ps i j p q a b :
  i < j → ps !! i = Some p → ps !! j = Some q →
  activatable p = Some a → activatable q = Some b →
  [EvActivate (id p) (dir p); EvActivate (id q) (dir q)]
    `sublist_of` activation_targets ps.
Proof.
  intros Hij Hi Hj Ha Hb.
  assert (Hq : q ∈ drop (S i) ps).
  { apply list_elem_of_lookup. exists (j - S i).
    rewrite lookup_drop. rewrite <-Hj. f_equal. lia. }
  rewrite <-(take_drop_middle ps i p Hi), activation_targets_app.
  apply sublist_inserts_l.
  unfold activation_targets at 1. simpl. rewrite Ha. simpl.
  apply sublist_skip. apply singleton_sublist_l.
  by eapply activation_targets_elem.
Qed.

(** *** [loadAll] as a whole *)

Lemma loadAll_unfold h :
  loadAll W h =
  match scan_pass W h with
  | (Normal _, h1) => for_each (activate_record W) (plugins h1) h1
  | (Throw e, h1) => (Throw e, h1)
  end.
Proof. reflexivity. Qed.

(** The records of a scan carry the ids of the candidates. *)
Lemma scanned_records_print h h1 :
  scan_pass W h = (Normal tt, h1) → all_ids_print W h →
  existsb aborts_activation (plugins h1) = false.
Proof.
  intros E Hids. apply scan_pass_spec in E as [_ (_ & rs1 & rs2 & -> & Hs1 & Hs2)].
  assert (Hroot : ∀ root rs, root ∈ getPluginDirs W → root_scanned W h h1 root rs →
            existsb aborts_activation rs = false).
  { intros root rs Hin [Hall _].
    destruct (existsb aborts_activation rs) eqn:Hex; [|done].
    apply existsb_exists in Hex as (r & Hr%list_elem_of_In & Ha).
    rewrite Forall_forall in Hall.
    destruct (Hall r Hr) as (ent & m & Hc & (_ & _ & Hid & _) & _).
    unfold aborts_activation in Ha. apply andb_true_iff in Ha as [_ Ha].
    rewrite Hid, (Hids root ent m Hin Hc) in Ha. done. }
  rewrite existsb_app.
  rewrite (Hroot _ rs1 ltac:(left) Hs1), (Hroot _ rs2 ltac:(right; left) Hs2).
  done.
Qed.

(** What a load pass does when every enabled candidate gives [path.join]
    strings and every candidate's id has a string: it completes, whatever
    modules fail to load and whatever entry points throw. *)
Lemma loadAll_spec h :
  all_well_typed W h → all_ids_print W h →
  ∃ h1 h' evs rs1 rs2,
    scan_pass W h = (Normal tt, h1) ∧ loadAll W h = (Normal tt, h') ∧
    scan_kept W h h1 ∧ act_frame h1 h' ∧
    plugins h' = rs1 ++ rs2 ∧
    root_scanned W h h' (path_join W (appPath W) "plugins") rs1 ∧
    root_scanned W h h' (path_join W (userData W) "plugins") rs2 ∧
    console h' = console h1 ++ evs ∧
    activation_targets (plugins h') `sublist_of` evs.
Proof.
  intros Hwt Hids. rewrite loadAll_unfold.
  destruct (scan_pass W h) as [[[]|e] h1] eqn:E.
  - pose proof (scanned_records_print _ _ E Hids) as Hok.
    apply scan_pass_spec in E as [Hk Hs].
    destruct Hs as (_ & rs1 & rs2 & Hpl & Hs1 & Hs2).
    destruct (activation_loop_spec (plugins h1) h1 Hok)
      as (h' & evs & -> & Hf & Hc & Hsub).
    exists h1, h', evs, rs1, rs2.
    assert (Hg : cache_grows W (require_cache h1) (require_cache h'))
      by (rewrite (af_cache _ _ Hf); reflexivity).
    rewrite (af_plugins _ _ Hf).
    split_and!; try done;
      (eapply root_scanned_lift; [reflexivity|reflexivity|exact Hg|done]).
  - apply scan_pass_spec in E as [Hk Hs].
    destruct Hs as (root & ent & m & Hin & Hc & [Hf|Hf]).
    + rewrite (Hwt root ent m Hin Hc) in Hf. done.
    + rewrite (Hids root ent m Hin Hc) in Hf. done.
Qed.

Lemma root_scanned_elem h h' root rs ent m :
  root_scanned W h h' root rs → candidate W h root ent m →
  ∃ r, r ∈ rs ∧ scanned W (require_cache h) (require_cache h') root ent m r.
Proof. intros [_ Hex]. apply Hex. Qed.

Lemma inert_not_activated r h : mod_ r = None → activate_record W r h = (Normal tt, h).
Proof.
  intros Hm. unfold activate_record, loaded. rewrite Hm.
  by rewrite andb_false_r.
Qed.

(** Isolation of a load failure, where it holds: every enabled candidate
    gives [path.join] strings and every id has a string.  When loading
    [main] throws for a candidate, [loadAll] still completes; the
    plugin's record is in the list with no module handle and no main
    path, the activation loop does nothing for it, and every candidate,
    its siblings included, has its record. *)
Lemma load_failure_leaves_inert_record h root ent m s :
  all_well_typed W h → all_ids_print W h →
  root ∈ getPluginDirs W → candidate W h root ent m →
  enabled_of m = true → prop m "main" = VStr s →
  require_fails W (require_cache h) (path_join W (plugin_dir W root ent) s) →
  ∃ h', loadAll W h = (Normal tt, h') ∧
    Forall (mod_ok W (require_cache h')) (plugins h') ∧
    (∃ r, r ∈ plugins h' ∧ made_for W root ent m r ∧
          mod_ r = None ∧ mainPath r = None ∧
          ∀ h0, activate_record W r h0 = (Normal tt, h0)) ∧
    (∀ root' ent' m', root' ∈ getPluginDirs W → candidate W h root' ent' m' →
       ∃ r', r' ∈ plugins h' ∧ made_for W root' ent' m' r').
Proof.
  intros Hwt Hids Hroot Hcand Hen Hmain Hfails.
  destruct (loadAll_spec h Hwt Hids)
    as (h1 & h' & evs & rs1 & rs2 & _ & Hl & _ & _ & Hpl & Hs1 & Hs2 & _).
  exists h'. split; [done|].
  assert (Hany : ∀ root' ent' m', root' ∈ getPluginDirs W →
            candidate W h root' ent' m' →
            ∃ r', r' ∈ plugins h' ∧
                  scanned W (require_cache h) (require_cache h') root' ent' m' r').
  { intros root' ent' m' Hin Hc. rewrite Hpl.
    apply elem_of_cons in Hin as [->|Hin].
    - destruct (root_scanned_elem _ _ _ _ _ _ Hs1 Hc) as (r & Hr & Hsc).
      exists r. split; [apply elem_of_app; by left|done].
    - apply list_elem_of_singleton in Hin as ->.
      destruct (root_scanned_elem _ _ _ _ _ _ Hs2 Hc) as (r & Hr & Hsc).
      exists r. split; [apply elem_of_app; by right|done]. }
  split_and!.
  - rewrite Hpl. apply Forall_app. destruct Hs1 as [H1 _], Hs2 as [H2 _].
    split; (eapply Forall_impl; [eassumption|]); simpl;
      intros r (? & ? & _ & _ & Hok & _); exact Hok.
  - destruct (Hany root ent m Hroot Hcand) as (r & Hr & Hmade & _ & Hfail & _).
    destruct (Hfail s Hen Hmain Hfails) as [Hmod Hmp].
    exists r. split_and!; try done. intros h0. by apply inert_not_activated.
  - intros root' ent' m' Hin Hc.
    destruct (Hany root' ent' m' Hin Hc) as (r & Hr & Hmade & _).
    by exists r.
Qed.

(** Isolation of an activation failure, where it holds: no record with a
    module has an id without a string.  When the entry point of a record
    throws, [loadAll] still completes: the exception is caught and the
    error is logged with that record's id, and a record later in the list
    that has a loaded module and an entry point is activated after it.
    ([hi] is the state in which the loop calls the entry point of [p]:
    the state the loop reaches on the records before [p].) *)
Lemma activation_failure_is_isolated h h1 i j p q a b hi e h2 :
  scan_pass W h = (Normal tt, h1) →
  existsb aborts_activation (plugins h1) = false →
  plugins h1 !! i = Some p → plugins h1 !! j = Some q → i < j →
  activatable p = Some a → activatable q = Some b →
  for_each (activate_record W) (take i (plugins h1)) h1 = (Normal tt, hi) →
  run_code W p (a (paths_of W p)) (emit_event (EvActivate (id p) (dir p)) hi)
    = (Throw e, h2) →
  ∃ h' evs, loadAll W h = (Normal tt, h') ∧
            plugins h' = plugins h1 ∧
            console h' = console h1 ++ evs ∧
            [EvActivate (id p) (dir p); EvActivationError (id p);
             EvActivate (id q) (dir q)] `sublist_of` evs.
Proof.
  intros Hscan Hok Hi Hj Hij Ha Hb Hpre Hthrow.
  rewrite loadAll_unfold, Hscan.
  assert (Hsplit : for_each (activate_record W) (plugins h1) h1 =
                   for_each (activate_record W)
                     (take i (plugins h1) ++ p :: drop (S i) (plugins h1)) h1)
    by (by rewrite take_drop_middle).
  rewrite Hsplit.
  assert (Hok' : existsb aborts_activation
                   (take i (plugins h1) ++ p :: drop (S i) (plugins h1)) = false)
    by (by rewrite take_drop_middle).
  destruct (activation_loop_throwing (take i (plugins h1)) p
              (drop (S i) (plugins h1)) a h1 hi e h2 Hok' Ha Hpre Hthrow)
    as (h' & evs & -> & Hf & Hc & Hsub).
  exists h', evs. split_and!; [done|apply (af_plugins _ _ Hf)|done|].
  etrans; [|exact Hsub]. do 2 apply sublist_skip.
  apply singleton_sublist_l. eapply activation_targets_elem; [|exact Hb].
  apply list_elem_of_lookup. exists (j - S i).
  rewrite lookup_drop, <-Hj. f_equal. lia.
Qed.

(** A record whose module loaded and has an entry point is one the
    activation loop calls. *)
Lemma loaded_record_activatable r e a :
  enabled r = true → mod_ r = Some e → exp_truthy e = true →
  entry_point e = Some a → activatable r = Some a.
Proof.
  intros He Hm Ht Ha. unfold activatable, loaded. by rewrite He, Hm, Ht.
Qed.

(** No deduplication, where the pass completes: every enabled candidate
    gives [path.join] strings and every id has a string.  Two plugin
    directories, one under each root, whose manifests give the same id:
    [loadAll] keeps a record for each, the bundled one before the user
    one; and when both are enabled and the main module of each loads,
    is truthy and has an entry point, both records have their module and
    both entry points are called, in that order. *)
Lemma same_id_in_both_roots_kept_and_activated h ent1 m1 ent2 m2 :
  all_well_typed W h → all_ids_print W h →
  candidate W h (path_join W (appPath W) "plugins") ent1 m1 →
  candidate W h (path_join W (userData W) "plugins") ent2 m2 →
  id_of ent1 m1 = id_of ent2 m2 →
  ∃ h' h1 evs i j r1 r2,
    loadAll W h = (Normal tt, h') ∧
    i < j ∧ plugins h' !! i = Some r1 ∧ plugins h' !! j = Some r2 ∧
    made_for W (path_join W (appPath W) "plugins") ent1 m1 r1 ∧
    made_for W (path_join W (userData W) "plugins") ent2 m2 r2 ∧
    id r1 = id r2 ∧
    scan_pass W h = (Normal tt, h1) ∧ console h' = console h1 ++ evs ∧
    (∀ s1 e1 a1 s2 e2 a2,
       enabled_of m1 = true → prop m1 "main" = VStr s1 → s1 ≠ "" →
       require_gives W (require_cache h)
         (path_join W (plugin_dir W (path_join W (appPath W) "plugins") ent1) s1)
         e1 →
       exp_truthy e1 = true → entry_point e1 = Some a1 →
       enabled_of m2 = true → prop m2 "main" = VStr s2 → s2 ≠ "" →
       require_gives W (require_cache h)
         (path_join W (plugin_dir W (path_join W (userData W) "plugins") ent2) s2)
         e2 →
       exp_truthy e2 = true → entry_point e2 = Some a2 →
       mod_ r1 = Some e1 ∧ mod_ r2 = Some e2 ∧
       [EvActivate (id r1) (dir r1); EvActivate (id r2) (dir r2)]
         `sublist_of` evs).
Proof.
  intros Hwt Hids Hc1 Hc2 Hid.
  destruct (loadAll_spec h Hwt Hids)
    as (h1 & h' & evs & rs1 & rs2 & Hsc & Hl & _ & _ & Hpl & Hs1 & Hs2 & Hc & Hsub).
  destruct (root_scanned_elem _ _ _ _ _ _ Hs1 Hc1)
    as (r1 & Hr1 & Hm1 & _ & _ & Hg1).
  destruct (root_scanned_elem _ _ _ _ _ _ Hs2 Hc2)
    as (r2 & Hr2 & Hm2 & _ & _ & Hg2).
  apply list_elem_of_lookup in Hr1 as [i Hi], Hr2 as [j Hj].
  assert (Hilt := lookup_lt_Some _ _ _ Hi).
  exists h', h1, evs, i, (length rs1 + j), r1, r2.
  assert (Hi' : plugins h' !! i = Some r1) by (rewrite Hpl; by apply lookup_app_l_Some).
  assert (Hj' : plugins h' !! (length rs1 + j) = Some r2).
  { rewrite Hpl, lookup_app_r by lia. rewrite <-Hj. f_equal. lia. }
  split_and!; try done; [lia|..].
  - destruct Hm1 as (_ & _ & -> & _), Hm2 as (_ & _ & -> & _). done.
  - intros s1 e1 a1 s2 e2 a2 He1 Hmain1 Hn1 Hq1 Ht1 Ha1 He2 Hmain2 Hn2 Hq2 Ht2 Ha2.
    pose proof (Hg1 s1 e1 He1 Hmain1 Hn1 Hq1) as Hmod1.
    pose proof (Hg2 s2 e2 He2 Hmain2 Hn2 Hq2) as Hmod2.
    split_and!; [done..|].
    destruct Hm1 as (_ & _ & _ & Hen1), Hm2 as (_ & _ & _ & Hen2).
    rewrite He1 in Hen1. rewrite He2 in Hen2.
    etrans; [|exact Hsub].
    eapply activation_targets_two; [|exact Hi'|exact Hj'| |]; [lia|..];
      by eapply loaded_record_activatable.
Qed.

(** *** Preloads *)

Lemma set_add_spec s x :
  NoDup s → NoDup (set_add s x) ∧ (∀ y, y ∈ set_add s x ↔ y ∈ s ∨ y = x) ∧
            ∃ t, set_add s x = s ++ t ∧ t `sublist_of` [x].
Proof.
  intros Hs. unfold set_add. case_bool_decide as Hx.
  - split_and!; [done|..].
    + intros y. split; [by left|]. intros [?| ->]; done.
    + exists []. rewrite app_nil_r. split; [done|apply sublist_nil_l].
  - split_and!.
    + apply NoDup_app. split_and!; [done|..].
      * intros y Hy ->%list_elem_of_singleton. done.
      * apply NoDup_singleton.
    + intros y. rewrite elem_of_app, list_elem_of_singleton. done.
    + by exists [x].
Qed.

Lemma foldl_set_add_spec l s :
  NoDup s →
  NoDup (foldl set_add s l) ∧ (∀ y, y ∈ foldl set_add s l ↔ y ∈ s ∨ y ∈ l) ∧
  ∃ t, foldl set_add s l = s ++ t ∧ t `sublist_of` l.
Proof.
  revert s. induction l as [|x l IH]; intros s Hs; simpl.
  - split_and!; [done|..].
    + intros y. rewrite elem_of_nil. tauto.
    + exists []. by rewrite app_nil_r.
  - destruct (set_add_spec s x Hs) as (Hnd & Hmem & t1 & Ht1 & Hsub1).
    destruct (IH _ Hnd) as (Hnd' & Hmem' & t2 & Ht2 & Hsub2).
    split_and!; [done|..].
    + intros y. rewrite Hmem', Hmem, elem_of_cons. tauto.
    + exists (t1 ++ t2). split; [rewrite Ht2, Ht1; by rewrite <-app_assoc|].
      by apply (sublist_app t1 [x] t2 l).
Qed.

(** C10.  [getRendererPreloads()] holds every collected path once: it has
    no duplicates, the same members as the internal list, and their order
    of first appearance. *)
Theorem getRendererPreloads_no_duplicates h :
  NoDup (getRendererPreloads h) ∧
  (∀ x, x ∈ getRendererPreloads h ↔ x ∈ rendererPreloads h) ∧
  getRendererPreloads h `sublist_of` rendererPreloads h.
Proof.
  unfold getRendererPreloads, new_Set.
  destruct (foldl_set_add_spec (rendererPreloads h) [] (NoDup_nil_2))
    as (Hnd & Hmem & t & Ht & Hsub).
  split_and!; [done|..].
  - intros x. rewrite Hmem, elem_of_nil. tauto.
  - by rewrite Ht.
Qed.

(** *** Web-request hooks *)

Lemma is_object_test res :
  truthy res && String.eqb (typeof res) "object" = is_object res.
Proof. destruct res as [| |[]| | | | | |]; simpl; by rewrite ?andb_false_r. Qed.

(** A hook answers every request with exactly one decision. *)
Lemma hook_decides l details :
  ∃ d, decisions (hook l details) = [d] ∧ decides l details d.
Proof.
  unfold hook. destruct (l details) as [res|] eqn:El.
  - rewrite is_object_test. destruct (is_object res) eqn:Ho.
    + exists res. split; [done|]. by eapply decides_object.
    + exists cancel_false. split; [done|]. by eapply decides_other.
  - exists cancel_false. split; [done|]. by apply decides_throw.
Qed.

Lemma attach_all_spec es wr evs0 :
  ∃ new evs,
    foldl (λ acc e, let '(wr', evs) := attach acc.1 e in (wr', acc.2 ++ evs))
          (wr, evs0) es =
    ({| attach_throws := attach_throws wr; attached := attached wr ++ new |}, evs) ∧
    hooks_of es wr new.
Proof.
  revert wr evs0. induction es as [|e es IH]; intros wr evs0; simpl.
  - exists [], evs0. rewrite app_nil_r. destruct wr. split; [done|].
    split; [constructor|intros ? []%elem_of_nil].
  - unfold attach at 2. simpl.
    destruct (attach_throws wr (or_else (filter e) (VObj []))) eqn:Hthrow.
    + destruct (IH wr (evs0 ++ [EvAttachFailed])) as (new & evs & -> & Hall & Hex).
      exists new, evs. split; [done|]. split.
      * eapply Forall_impl; [exact Hall|]. simpl.
        intros fh (e' & Hin & ->). exists e'. split; [by right|done].
      * intros e' [->|Hin]%elem_of_cons Hno; [congruence|]. by apply Hex.
    + set (wr1 := {| attach_throws := attach_throws wr;
                     attached := attached wr ++
                       [(or_else (filter e) (VObj []), hook (listener e))] |}).
      destruct (IH wr1 (evs0 ++ [])) as (new & evs & -> & Hall & Hex).
      exists ((or_else (filter e) (VObj []), hook (listener e)) :: new), evs.
      simpl. rewrite <-app_assoc. split; [done|]. split.
      * constructor; [exists e; split; [left|done]|].
        eapply Forall_impl; [exact Hall|]. simpl.
        intros fh (e' & Hin & ->). exists e'. split; [by right|done].
      * intros e' [->|Hin]%elem_of_cons Hno; [left|]. right. by apply Hex.
Qed.

(** C7.  [applyWebRequestHandlers] attaches one hook for every collected
    entry (for which [onBeforeRequest] itself does not throw), and attaches
    nothing else.  For every request, such a hook passes exactly one
    decision to the callback: the listener's result when that is an
    object, and [{cancel: false}] when the listener returns anything else
    or throws. *)
Theorem web_request_hooks_always_decide (wr : WebRequest) (h : Host) :
  ∃ new evs,
    applyWebRequestHandlers (Some {| webRequest := Some wr |}) h =
    (Some {| webRequest :=
               Some {| attach_throws := attach_throws wr;
                       attached := attached wr ++ new |} |},
     set_console (console h ++ evs) h) ∧
    Forall (λ fh, ∃ e, e ∈ webRequestHandlers h ∧
                       fh.1 = or_else (filter e) (VObj []) ∧
                       ∀ details, ∃ d, decisions (fh.2 details) = [d] ∧
                                       decides (listener e) details d) new ∧
    ∀ e, e ∈ webRequestHandlers h →
         attach_throws wr (or_else (filter e) (VObj [])) = false →
         ∃ hk, (or_else (filter e) (VObj []), hk) ∈ new ∧
               ∀ details, ∃ d, decisions (hk details) = [d] ∧
                               decides (listener e) details d.
Proof.
  unfold applyWebRequestHandlers, attach_all. simpl.
  destruct (attach_all_spec (webRequestHandlers h) wr [])
    as (new & evs & -> & Hall & Hex).
  exists new, evs. split; [done|]. split.
  - eapply Forall_impl; [exact Hall|]. simpl.
    intros fh (e & Hin & ->). exists e. split_and!; [done..|].
    intros details. apply hook_decides.
  - intros e Hin Hno. exists (hook (listener e)). split; [by apply Hex|].
    intros details. apply hook_decides.
Qed.

(** *** Reload *)





(** [find] returns the first record with the id, and nothing exactly when
    no record has it. *)
Lemma find_plugin_spec pid ps :
  match find_plugin pid ps with
  | Some p => tracked_as pid ps p
  | None => untracked pid ps
  end.
Proof.
  unfold find_plugin, tracked_as, untracked.
  induction ps as [|q ps IH]; simpl; [constructor|].
  destruct (strict_eq (id q) pid) eqn:Hq.
  - exists [], ps. split_and!; [done..|constructor].
  - destruct (List.find _ ps) as [p|].
    + destruct IH as (before & after & -> & Hp & Hb).
      exists (q :: before), after. split_and!; [done..|by constructor].
    + by constructor.
Qed.

Lemma find_plugin_tracked pid ps p :
  tracked_as pid ps p → find_plugin pid ps = Some p.
Proof.
  intros (before & after & -> & Hp & Hb). unfold find_plugin.
  induction Hb as [|q before Hq _ IH]; simpl; [by rewrite Hp|by rewrite Hq].
Qed.

Lemma find_plugin_untracked pid ps :
  untracked pid ps → find_plugin pid ps = None.
Proof.
  unfold find_plugin. induction 1 as [|q ps Hq _ IH]; simpl; [done|].
  by rewrite Hq.
Qed.


(** *** Discovery *)

Lemma for_collect_pure {A B} (body : A → M (list B)) (f : A → list B) l h :
  (∀ x, x ∈ l → body x h = (Normal (f x), h)) →
  for_collect body l h = (Normal (l ≫= f), h).
Proof.
  induction l as [|x l IH]; intros Hbody; simpl; [done|].
  unfold bind. rewrite Hbody by left. rewrite IH; [done|].
  intros; apply Hbody. by right.
Qed.

Lemma discover_entry_pure root ent h :
  discover_entry W root ent h = (Normal (entry_descriptors W h root ent), h).
Proof.
  unfold discover_entry, entry_descriptors, plugin_dir, read_manifest.
  destruct (isDirectory ent); simpl; [|done]. unfold_m.
  by destruct (files h !! _ ≫= _).
Qed.

Lemma discover_root_pure root h :
  discover_root W root h = (Normal (root_descriptors W h root), h).
Proof.
  unfold discover_root, root_descriptors.
  destruct (readdirSync W root) as [entries|]; [|done].
  apply for_collect_pure. intros; apply discover_entry_pure.
Qed.

Lemma discoverPlugins_pure h :
  discoverPlugins W h = (Normal (getPluginDirs W ≫= root_descriptors W h), h).
Proof. apply for_collect_pure. intros; apply discover_root_pure. Qed.

Lemma describe_spec ent d p :
  loose_null p = false →
  ∃ x, describe ent d p = Some x ∧ d_dir x = d ∧
       d_id x = id_of ent p ∧ d_enabled x = enabled_of p.
Proof.
  intros Hp. unfold describe, id_of, enabled_of, prop.
  assert (Hget : ∀ k, ∃ v, get_prop p k = Some v)
    by (intros k; destruct p; simpl in *; eauto; done).
  destruct (Hget "categories") as [? ->], (Hget "authors") as [? ->],
    (Hget "id") as [? ->], (Hget "name") as [? ->],
    (Hget "version") as [? ->], (Hget "description") as [? ->],
    (Hget "enabled") as [? ->], (Hget "main") as [? ->],
    (Hget "rendererPreload") as [? ->].
  simpl. eexists. split; [done|]. done.
Qed.

Lemma describe_dir ent d p x : describe ent d p = Some x → d_dir x = d.
Proof.
  unfold describe. intros H.
  repeat (apply bind_Some in H as (? & _ & H)). by injection H as <-.
Qed.

(** C9.  [discoverPlugins()] never throws and leaves the state as it is:
    no module is loaded or run, the module cache and the console are
    untouched.  Every descriptor it returns comes from a directory whose
    [plugin.json] parsed, so a candidate without a readable manifest is
    left out; and every directory whose manifest parsed to a value other
    than [null] has a descriptor, with [enabled] false when the manifest
    says [enabled: false], whatever the other candidates are. *)
Theorem discoverPlugins_lists_disabled_and_runs_nothing h :
  ∃ out, discoverPlugins W h = (Normal out, h) ∧
    (∀ d, d ∈ out →
       ∃ root ent p,
         root ∈ getPluginDirs W ∧
         (∃ entries, readdirSync W root = Some entries ∧ ent ∈ entries) ∧
         isDirectory ent = true ∧
         files h !! path_join W (plugin_dir W root ent) "plugin.json" = Some p ∧
         d_dir d = plugin_dir W root ent) ∧
    (∀ root entries ent p,
       root ∈ getPluginDirs W → readdirSync W root = Some entries →
       ent ∈ entries → isDirectory ent = true →
       files h !! path_join W (plugin_dir W root ent) "plugin.json" = Some p →
       loose_null p = false →
       ∃ d, d ∈ out ∧ d_dir d = plugin_dir W root ent ∧
            d_id d = id_of ent p ∧ d_enabled d = enabled_of p ∧
            (prop p "enabled" = VBool false → d_enabled d = false)).
Proof.
  rewrite discoverPlugins_pure. eexists. split; [done|]. split.
  - intros d (root & Hd & Hroot)%list_elem_of_bind.
    unfold root_descriptors in Hd.
    destruct (readdirSync W root) as [entries|] eqn:Hrd; [|by apply elem_of_nil in Hd].
    apply list_elem_of_bind in Hd as (ent & Hd & Hent).
    unfold entry_descriptors in Hd.
    destruct (isDirectory ent) eqn:Hdir; [|by apply elem_of_nil in Hd].
    destruct (files h !! _) as [p|] eqn:Hf; simpl in Hd; [|by apply elem_of_nil in Hd].
    destruct (describe ent _ p) as [x|] eqn:Hx; [|by apply elem_of_nil in Hd].
    apply list_elem_of_singleton in Hd as ->.
    exists root, ent, p. split_and!; eauto. by eapply describe_dir.
  - intros root entries ent p Hroot Hrd Hent Hdir Hf Hp.
    destruct (describe_spec ent (plugin_dir W root ent) p Hp)
      as (x & Hx & Hxd & Hxi & Hxe).
    exists x. split_and!; try done.
    + apply list_elem_of_bind. exists root. split; [|done].
      unfold root_descriptors. rewrite Hrd.
      apply list_elem_of_bind. exists ent. split; [|done].
      unfold entry_descriptors. rewrite Hdir, Hf. simpl. rewrite Hx. left.
    + intros He. rewrite Hxe. unfold enabled_of. by rewrite He.
Qed.

(** *** Persistence *)

(** What the round trip through the file leaves of the properties. *)
Lemma prop_lookup_own k ps : prop_lookup k ps = default VUndef (own_prop k ps).
Proof.
  induction ps as [|[k' v] ps IH]; simpl; [done|]. by destruct (String.eqb k' k).
Qed.

Lemma own_prop_set_eq k v ps : own_prop k (prop_set k v ps) = Some v.
Proof.
  induction ps as [|[k' v'] ps IH]; simpl.
  - by rewrite String.eqb_refl.
  - destruct (String.eqb k' k) eqn:E; simpl; rewrite E; auto.
Qed.

Lemma own_prop_set_ne k k' v ps :
  k ≠ k' → own_prop k' (prop_set k v ps) = own_prop k' ps.
Proof.
  intros Hne. induction ps as [|[k0 v0] ps IH]; simpl.
  - destruct (String.eqb k k') eqn:E; [|done].
    apply String.eqb_eq in E. done.
  - destruct (String.eqb k0 k) eqn:E; simpl.
    + apply String.eqb_eq in E. subst k0.
      destruct (String.eqb k k') eqn:E'; [|done].
      apply String.eqb_eq in E'. done.
    + by rewrite IH.
Qed.

Lemma json_plain_roundtrip v :
  json_plain v = true → unwritten v = false ∧ json_roundtrip v = v.
Proof. by destruct v. Qed.

(** A property that is written reads back as its own round trip, and a
    property the object does not have is not there afterwards. *)
Lemma json_roundtrip_prop k ps :
  match own_prop k ps with
  | Some v =>
      unwritten v = false →
      get_prop (json_roundtrip (VObj ps)) k = Some (json_roundtrip v)
  | None => get_prop (json_roundtrip (VObj ps)) k = Some VUndef
  end.
Proof.
  simpl. induction ps as [|[k' v'] ps IH]; simpl; [done|].
  destruct (String.eqb k' k) eqn:E.
  - intros ->. simpl. by rewrite E.
  - destruct (own_prop k ps) as [v|].
    + intros Hv. destruct (unwritten v'); simpl; [auto|]. rewrite E. auto.
    + destruct (unwritten v'); simpl; [auto|]. by rewrite E.
Qed.

(** The document [setEnabled] leaves in the file of an object manifest. *)
Lemma enabled_written ps b :
  get_prop (json_roundtrip (VObj (prop_set "enabled" (VBool b) ps))) "enabled"
  = Some (VBool b).
Proof.
  pose proof (json_roundtrip_prop "enabled" (prop_set "enabled" (VBool b) ps)) as H.
  rewrite own_prop_set_eq in H. by apply H.
Qed.

Lemma others_written ps b k :
  k ≠ "enabled" →
  match own_prop k ps with
  | Some v =>
      json_plain v = true →
      get_prop (json_roundtrip (VObj (prop_set "enabled" (VBool b) ps))) k
      = Some v
  | None =>
      get_prop (json_roundtrip (VObj (prop_set "enabled" (VBool b) ps))) k
      = Some VUndef
  end.
Proof.
  intros Hk.
  pose proof (json_roundtrip_prop k (prop_set "enabled" (VBool b) ps)) as H.
  rewrite own_prop_set_ne in H by done.
  destruct (own_prop k ps) as [v|]; [|done].
  intros [Hw Hr]%json_plain_roundtrip. rewrite (H Hw). by f_equal.
Qed.

(** C6, as the code has it.  [setEnabled(id, enabled)] throws when no
    tracked record has the id ([Plugin not found], or a [TypeError] when
    the id has no string to put in that message), and throws [Manifest
    read failed] when the manifest of the first record with the id cannot
    be read or parsed.  It throws when the manifest is not an object and
    when the write is rejected.  Whenever it throws it has changed
    nothing.  It returns [true] only after it rewrote the file with what
    [JSON.stringify] writes for the manifest with [enabled] set to the
    boolean: for a manifest that is a JSON object, the file then has
    [enabled] equal to the boolean; for one that is a JSON array, the
    file has the array again and no [enabled]. *)
Theorem setEnabled_fails_loudly pid en h :
  (untracked pid (plugins h) →
   setEnabled W pid en h
   = (Throw (if concat_throws pid then TypeError else PluginNotFound pid), h)) ∧
  (∀ p, tracked_as pid (plugins h) p →
     let mp := path_join W (dir p) "plugin.json" in
     match files h !! mp with
     | None => setEnabled W pid en h = (Throw (ManifestReadFailed mp), h)
     | Some m =>
         (is_object m = false → setEnabled W pid en h = (Throw TypeError, h)) ∧
         (∀ ps, m = VObj ps →
            if write_rejects W mp
            then setEnabled W pid en h = (Throw (WriteFailed mp), h)
            else ∃ doc,
              setEnabled W pid en h =
                (Normal true, set_files (<[mp := doc]> (files h)) h) ∧
              doc = json_roundtrip (VObj (prop_set "enabled" (VBool (truthy en)) ps)) ∧
              get_prop doc "enabled" = Some (VBool (truthy en))) ∧
         (∀ es ps, m = VArr es ps →
            if write_rejects W mp
            then setEnabled W pid en h = (Throw (WriteFailed mp), h)
            else setEnabled W pid en h =
                   (Normal true,
                    set_files (<[mp := json_roundtrip m]> (files h)) h) ∧
                 get_prop (json_roundtrip m) "enabled" = Some VUndef)
     end) ∧
  (∀ e h', setEnabled W pid en h = (Throw e, h') → h' = h) ∧
  (∀ b h', setEnabled W pid en h = (Normal b, h') →
     b = true ∧
     ∃ p m m' doc,
       tracked_as pid (plugins h) p ∧
       files h !! path_join W (dir p) "plugin.json" = Some m ∧
       is_object m = true ∧
       set_prop m "enabled" (VBool (truthy en)) = Some m' ∧
       doc = json_roundtrip m' ∧
       write_rejects W (path_join W (dir p) "plugin.json") = false ∧
       h' = set_files (<[path_join W (dir p) "plugin.json" := doc]> (files h)) h).
Proof.
  pose proof (find_plugin_spec pid (plugins h)) as Hspec.
  split_and!.
  - intros Hun. unfold setEnabled. unfold_m.
    rewrite (find_plugin_untracked _ _ Hun). by destruct (concat_throws pid).
  - intros p Hp. unfold setEnabled, read_manifest. unfold_m.
    rewrite (find_plugin_tracked _ _ _ Hp). simpl.
    destruct (files h !! _) as [m|] eqn:Hm; [|done]. split_and!.
    + by destruct m.
    + intros ps ->. simpl. unfold reparse. simpl.
      destruct (write_rejects W _); [done|].
      eexists. split_and!; [done..|]. apply enabled_written.
    + intros es ps ->. simpl. unfold reparse. simpl.
      by destruct (write_rejects W _).
  - intros e h'. unfold setEnabled, read_manifest. unfold_m.
    destruct (find_plugin pid (plugins h)) as [p|];
      [|destruct (concat_throws pid); by intros [= _ <-]].
    simpl. destruct (files h !! _) as [m|]; [|by intros [= _ <-]].
    destruct (set_prop m "enabled" (VBool (truthy en))) as [m'|];
      [|by intros [= _ <-]].
    simpl. destruct (reparse m') as [doc|]; [|by intros [= _ <-]].
    destruct (write_rejects W _); [by intros [= _ <-]|]. done.
  - intros b h'. unfold setEnabled, read_manifest. unfold_m.
    destruct (find_plugin pid (plugins h)) as [p|];
      [|by destruct (concat_throws pid)].
    simpl. destruct (files h !! _) as [m|] eqn:Hm; [|done].
    destruct (set_prop m "enabled" (VBool (truthy en))) as [m'|] eqn:Hset;
      [|done].
    simpl. unfold reparse.
    destruct (unwritten m') eqn:Hun; [done|]. simpl.
    destruct (write_rejects W _) eqn:Hw; [done|].
    intros [= <- <-]. split; [done|].
    exists p, m, m', (json_roundtrip m'). split_and!; try done.
    destruct m; try done. simpl in Hset. injection Hset as <-. done.
Qed.

(** *** Authors *)

Lemma author_ok_spec x :
  author_ok x = true ↔ is_string x = true ∨ named_object x.
Proof.
  unfold author_ok, named_object, prop.
  rewrite orb_true_iff, andb_true_iff, is_object_test. split.
  - intros [?|[Ho Hn]]; [by left|right]. split; [done|].
    destruct (default VUndef (get_prop x "name")); try done. by eexists.
  - intros [?|[Ho [n Hn]]]; [by left|right]. by rewrite Ho, Hn.
Qed.

Lemma author_name_string x :
  author_ok x = true → is_string (author_name x) = true.
Proof.
  intros [Hs|[_ [n Hn]]]%author_ok_spec; unfold author_name.
  - by rewrite Hs.
  - destruct (is_string x) eqn:E; [done|]. by rewrite Hn.
Qed.

Lemma accepted_author_reported x fallback :
  author_ok x = true → truthy fallback = false →
  truthy (if is_string x then x else or_else (and_name x) fallback)
  = truthy (author_name x) ∧
  (truthy (author_name x) = true →
   (if is_string x then x else or_else (and_name x) fallback) = author_name x).
Proof.
  intros Hok Hfb. unfold author_name.
  destruct (is_string x) eqn:Hs; [done|].
  apply author_ok_spec in Hok as [?|[Ho [n Hn]]]; [congruence|].
  assert (Hand : and_name x = prop x "name").
  { unfold and_name, prop. by destruct x. }
  unfold or_else. rewrite Hand.
  destruct (truthy (prop x "name")) eqn:E; [by rewrite E|by rewrite Hfb].
Qed.

Lemma accepted_authors_reported es fallback :
  truthy fallback = false →
  Forall (λ x, author_ok x = true) es →
  List.filter truthy
    (map (λ x, if is_string x then x else or_else (and_name x) fallback) es)
  = List.filter truthy (map author_name es).
Proof.
  intros Hfb. induction 1 as [|x es Hx _ IH]; simpl; [done|].
  destruct (accepted_author_reported x fallback Hx Hfb) as [-> Heq].
  destruct (truthy (author_name x)); [|done]. rewrite IH. f_equal. by apply Heq.
Qed.

Lemma reported_authors_strings es :
  Forall (λ x, author_ok x = true) es →
  Forall (λ y, is_string y = true) (List.filter truthy (map author_name es)).
Proof.
  induction 1 as [|x es Hx _ IH]; simpl; [constructor|].
  destruct (truthy (author_name x)); [|done].
  constructor; [by apply author_name_string|done].
Qed.

Lemma filter_author_ok_accepted es :
  Forall (λ x, author_ok x = true) (List.filter author_ok es).
Proof.
  apply Forall_forall. intros x Hx%list_elem_of_In%filter_In. tauto.
Qed.

(** C2, as the code has it.  [loadAll] turns a string [authors] into a
    one-element array and an absent or [null] one into an empty array; of
    an array it keeps, in order and unchanged, the elements that are
    strings or objects carrying a [name] string, and drops the others;
    any other value stays as it is.  An object that is kept stays an
    object.  (The normalization throws, and the candidate is skipped, for
    a manifest that is not an object.)  The strings are produced by [getPluginsInfo()], and by
    [discoverPlugins()]: on accepted elements both report the strings and
    the name strings of the objects, leaving out empty ones. *)
Theorem authors_normalization m :
  match normalize_authors m with
  | None => is_object m = false
  | Some m' =>
      match prop m "authors" with
      | VStr s => prop m' "authors" = VArr [VStr s] []
      | VUndef | VNull => prop m' "authors" = VArr [] []
      | VArr es _ =>
          let kept := List.filter author_ok es in
          prop m' "authors" = VArr kept [] ∧
          (∀ x, x ∈ kept ↔ x ∈ es ∧ (is_string x = true ∨ named_object x)) ∧
          info_authors (prop m' "authors") = List.filter truthy (map author_name kept) ∧
          Forall (λ y, is_string y = true) (info_authors (prop m' "authors"))
      | _ => m' = m
      end
  end ∧
  ∀ es ps, Forall (λ x, author_ok x = true) es →
    discover_authors (VArr es ps) = List.filter truthy (map author_name es) ∧
    Forall (λ y, is_string y = true) (discover_authors (VArr es ps)).
Proof.
  split.
  - unfold normalize_authors, prop.
    destruct (get_prop m "authors") as [au|] eqn:Hau; simpl;
      [|by destruct m].
    destruct au as [| |b|n|neg|s|es ps|ps|ps]; simpl;
      try (destruct (set_prop m "authors" _) as [m'|] eqn:Hset;
           [|by destruct m]; apply get_set_prop_eq in Hset as ->); try done.
    simpl. split_and!; [done|..].
    + intros x. rewrite list_elem_of_In, filter_In, <-list_elem_of_In.
      by rewrite author_ok_spec.
    + apply accepted_authors_reported; [done|apply filter_author_ok_accepted].
    + unfold info_authors. simpl.
      rewrite accepted_authors_reported; [|done|apply filter_author_ok_accepted].
      apply reported_authors_strings, filter_author_ok_accepted.
  - intros es ps Hes. unfold discover_authors. simpl.
    rewrite accepted_authors_reported by done.
    split; [done|]. by apply reported_authors_strings.
Qed.

(** *** Contributions across load passes *)

(** [loadAll] never removes a request handler or a menu contributor: what
    was collected before the pass is still there after it, in front of
    what the pass adds. *)
Lemma loadAll_keeps_contributions h c h' :
  loadAll W h = (c, h') →
  webRequestHandlers h `prefix_of` webRequestHandlers h' ∧
  contextMenuContribs h `prefix_of` contextMenuContribs h'.
Proof.
  rewrite loadAll_unfold.
  destruct (scan_pass W h) as [[[]|e] h1] eqn:E;
    apply scan_pass_spec in E as [Hk _].
  - intros Hf%activation_loop_frame.
    rewrite <-(sk_handlers _ _ _ Hk), <-(sk_contribs _ _ _ Hk).
    split; [apply (af_handlers _ _ Hf)|apply (af_contribs _ _ Hf)].
  - intros [= _ <-]. by rewrite (sk_handlers _ _ _ Hk), (sk_contribs _ _ _ Hk).
Qed.

(** The records, the preload list and the page registrations are rebuilt:
    what they held before the pass has no influence on its result. *)
Lemma loadAll_rebuilds_records_preloads_pages h ps rps pgs :
  loadAll W (set_plugins ps (set_rendererPreloads rps (set_rendererPages pgs h)))
  = loadAll W h.
Proof. reflexivity. Qed.

(** *** Two scans from states that are alike *)

Lemma for_each_sim {A} (R : Host → Host → Prop) (body : A → M unit) l :
  (∀ x a b ca a' cb b',
     x ∈ l → R a b → body x a = (ca, a') → body x b = (cb, b') →
     ca = cb ∧ R a' b') →
  ∀ a b ca a' cb b',
    R a b → for_each body l a = (ca, a') → for_each body l b = (cb, b') →
    ca = cb ∧ R a' b'.
Proof.
  induction l as [|x l IH]; intros Hbody a b ca a' cb b' HR; simpl.
  - by intros [= <- <-] [= <- <-].
  - unfold bind.
    destruct (body x a) as [ca1 a1] eqn:Ea, (body x b) as [cb1 b1] eqn:Eb.
    assert (Hx : x ∈ x :: l) by left.
    destruct (Hbody x a b ca1 a1 cb1 b1 Hx HR Ea Eb) as [<- HR1].
    destruct ca1 as [[]|e].
    + apply IH; [|done]. intros x0 ? ? ? ? ? ? Hx0. apply Hbody. by right.
    + by intros [= <- <-] [= <- <-].
Qed.

Lemma require_sim mp a b ca a' cb b' :
  scan_alike W a b → require W mp a = (ca, a') → require W mp b = (cb, b') →
  ca = cb ∧ scan_alike W a' b'.
Proof.
  intros [Hf Hp Hr [Hold Hnew]]. unfold require.
  destruct (resolve W mp) as [file|]; [|by intros [= <- <-] [= <- <-]].
  destruct (require_cache a !! file) as [m|] eqn:Ha.
  - rewrite (Hold _ _ Ha). by intros [= <- <-] [= <- <-].
  - destruct (load_module W file) as [m|] eqn:Hl.
    + intros [= <- <-].
      assert (Hg : cache_grows W (<[file:=m]> (require_cache a))
                     (<[file:=m]> (require_cache b))).
      { split; intros k m' Hk.
        - destruct (decide (file = k)) as [->|Hne].
          + rewrite lookup_insert_eq in Hk |- *. done.
          + rewrite lookup_insert_ne in Hk |- * by done. auto.
        - destruct (decide (file = k)) as [->|Hne].
          + rewrite lookup_insert_eq in Hk |- *. by left.
          + rewrite lookup_insert_ne in Hk |- * by done. auto. }
      destruct (require_cache b !! file) as [m'|] eqn:Hb.
      * destruct (Hnew _ _ Hb) as [?|?]; [congruence|].
        assert (m' = m) as -> by congruence.
        intros [= <- <-]. split; [done|]. split; simpl; try done.
        rewrite <-(insert_id (require_cache b) file m Hb). exact Hg.
      * intros [= <- <-]. split; [done|]. split; simpl; done.
    + intros [= <- <-].
      destruct (require_cache b !! file) as [m'|] eqn:Hb.
      * destruct (Hnew _ _ Hb); congruence.
      * intros [= <- <-]. split; [done|]. split; simpl; done.
Qed.

Lemma scan_alike_frame a b (f : Host → Host) :
  (∀ h, files (f h) = files h ∧ plugins (f h) = plugins h ∧
        rendererPreloads (f h) = rendererPreloads h ∧
        require_cache (f h) = require_cache h) →
  scan_alike W a b → scan_alike W (f a) (f b).
Proof.
  intros Hfr [Hf Hp Hr Hc].
  destruct (Hfr a) as (Fa & Pa & Ra & Ca), (Hfr b) as (Fb & Pb & Rb & Cb).
  split; [congruence..|]. by rewrite Ca, Cb.
Qed.

Lemma load_main_sim r a b ca a' cb b' :
  scan_alike W a b → load_main W r a = (ca, a') → load_main W r b = (cb, b') →
  ca = cb ∧ scan_alike W a' b'.
Proof.
  intros HR. unfold load_main. unfold_m.
  destruct (get_prop (manifest r) "main") as [main|];
    [|by intros [= <- <-] [= <- <-]].
  destruct (truthy main); [|by intros [= <- <-] [= <- <-]].
  destruct main; simpl; unfold_m; try (by intros [= <- <-] [= <- <-]).
  destruct (require W _ a) as [c1 a1] eqn:Ea, (require W _ b) as [c2 b1] eqn:Eb.
  destruct (require_sim _ _ _ _ _ _ _ HR Ea Eb) as [<- HR1].
  destruct c1 as [m|e]; [by intros [= <- <-] [= <- <-]|].
  destruct (to_string_throws (id r)); simpl; intros [= <- <-] [= <- <-];
    split; try done.
  by apply (scan_alike_frame _ _ (emit_event (EvLoadFailed (id r)))).
Qed.

Lemma collect_preload_sim r a b ca a' cb b' :
  scan_alike W a b →
  collect_preload W r a = (ca, a') → collect_preload W r b = (cb, b') →
  ca = cb ∧ scan_alike W a' b'.
Proof.
  intros HR. unfold collect_preload. unfold_m.
  destruct (get_prop (manifest r) "rendererPreload") as [rp|];
    [|by intros [= <- <-] [= <- <-]].
  destruct (truthy rp); [|by intros [= <- <-] [= <- <-]].
  destruct rp; simpl; unfold_m; try (by intros [= <- <-] [= <- <-]).
  destruct (existsSync W _) as [[]|]; intros [= <- <-] [= <- <-];
    split; try done.
  destruct HR as [Hf Hp Hr Hc]. split; simpl; congruence.
Qed.

Lemma scan_entry_sim root ent a b ca a' cb b' :
  scan_alike W a b →
  scan_entry W root ent a = (ca, a') → scan_entry W root ent b = (cb, b') →
  ca = cb ∧ scan_alike W a' b'.
Proof.
  intros HR. unfold scan_entry, read_manifest.
  destruct (isDirectory ent); simpl; [|by intros [= <- <-] [= <- <-]].
  unfold_m. rewrite (sa_files _ _ _ HR).
  destruct (files a !! _ ≫= normalize_manifest) as [m|];
    [|by intros [= <- <-] [= <- <-]].
  destruct (get_prop m "enabled") as [en|]; [|by intros [= <- <-] [= <- <-]].
  destruct (get_prop m "id") as [mid|]; [|by intros [= <- <-] [= <- <-]].
  cbv beta iota.
  assert (Hpush : ∀ r a1 b1, scan_alike W a1 b1 →
            scan_alike W (set_plugins (plugins a1 ++ [r]) a1)
                         (set_plugins (plugins b1 ++ [r]) b1)).
  { intros r a1 b1 [Hf Hp Hr Hc]. split; simpl; congruence. }
  destruct (negb (strict_eq en (VBool false))).
  - match goal with |- context [load_main W ?r0 a] => set (r := r0) end.
    destruct (load_main W r a) as [c1 a1] eqn:Ea,
             (load_main W r b) as [c2 b1] eqn:Eb.
    destruct (load_main_sim _ _ _ _ _ _ _ HR Ea Eb) as [<- HR1].
    destruct c1 as [r1|e]; [|by intros [= <- <-] [= <- <-]].
    destruct (collect_preload W r1 a1) as [c3 a2] eqn:Ea2,
             (collect_preload W r1 b1) as [c4 b2] eqn:Eb2.
    destruct (collect_preload_sim _ _ _ _ _ _ _ HR1 Ea2 Eb2) as [<- HR2].
    destruct c3 as [[]|e]; intros [= <- <-] [= <- <-]; split; auto.
  - intros [= <- <-] [= <- <-]. split; auto.
Qed.

Lemma scan_root_sim root a b ca a' cb b' :
  scan_alike W a b →
  scan_root W root a = (ca, a') → scan_root W root b = (cb, b') →
  ca = cb ∧ scan_alike W a' b'.
Proof.
  intros HR. unfold scan_root.
  destruct (readdirSync W root) as [entries|]; [|by intros [= <- <-] [= <- <-]].
  apply for_each_sim; [|done]. intros x ? ? ? ? ? ? _. apply scan_entry_sim.
Qed.

Lemma scan_pass_sim a b ca a' cb b' :
  files b = files a →
  cache_grows W (require_cache a) (require_cache b) →
  scan_pass W a = (ca, a') → scan_pass W b = (cb, b') →
  ca = cb ∧ scan_alike W a' b'.
Proof.
  intros Hf Hc. unfold scan_pass. unfold_m.
  apply for_each_sim; [|by split].
  intros x ? ? ? ? ? ? _. apply scan_root_sim.
Qed.

(** Two load passes from states with the same manifests, the second
    with a module cache grown from the first one's by loaded modules, end
    the same way with the same records and the same preload list. *)
Lemma loadAll_sim a b ca a' cb b' :
  files b = files a →
  cache_grows W (require_cache a) (require_cache b) →
  loadAll W a = (ca, a') → loadAll W b = (cb, b') →
  ca = cb ∧ scan_alike W a' b'.
Proof.
  intros Hf Hc. rewrite !loadAll_unfold.
  destruct (scan_pass W a) as [c1 a1] eqn:Ea, (scan_pass W b) as [c2 b1] eqn:Eb.
  destruct (scan_pass_sim _ _ _ _ _ _ Hf Hc Ea Eb) as [<- HR].
  destruct c1 as [[]|e]; [|by intros [= <- <-] [= <- <-]].
  intros Ha Hb.
  pose proof (activation_loop_outcome (plugins a1) a1) as Oa.
  pose proof (activation_loop_outcome (plugins b1) b1) as Ob.
  rewrite Ha in Oa. rewrite Hb in Ob. simpl in Oa, Ob.
  apply activation_loop_frame in Ha as Hfa, Hb as Hfb.
  split; [rewrite Oa, Ob; by rewrite (sa_plugins _ _ _ HR)|].
  destruct HR as [H1 H2 H3 H4], Hfa as [A1 A2 A3 A4 _ _ _ _],
    Hfb as [B1 B2 B3 B4 _ _ _ _].
  split; congruence.
Qed.

(** What a load pass leaves of files and modules: it never writes a
    manifest and never drops or replaces a cached module; what it adds to
    the cache is what loading the file gave. *)
Lemma loadAll_files_cache h c h' :
  loadAll W h = (c, h') →
  files h' = files h ∧ cache_grows W (require_cache h) (require_cache h').
Proof.
  rewrite loadAll_unfold.
  destruct (scan_pass W h) as [[[]|e] h1] eqn:E;
    apply scan_pass_spec in E as [Hk _].
  - intros Hf%activation_loop_frame.
    rewrite (af_files _ _ Hf), (af_cache _ _ Hf).
    split; [apply (sk_files _ _ _ Hk)|apply (sk_cache _ _ _ Hk)].
  - intros [= _ <-]. split; [apply (sk_files _ _ _ Hk)|apply (sk_cache _ _ _ Hk)].
Qed.

(** X1.  Calling [loadAll()] again, with nothing changed on disk, ends the
    same way (normally, or with the same exception) and rebuilds the same
    records and the same preload list. *)
Theorem loadAll_again_rebuilds_same_records h :
  (loadAll W (loadAll W h).2).1 = (loadAll W h).1 ∧
  plugins (loadAll W (loadAll W h).2).2 = plugins (loadAll W h).2 ∧
  rendererPreloads (loadAll W (loadAll W h).2).2
  = rendererPreloads (loadAll W h).2.
Proof.
  destruct (loadAll W h) as [c h'] eqn:E1. simpl.
  destruct (loadAll W h') as [c2 h2] eqn:E2. simpl.
  destruct (loadAll_files_cache _ _ _ E1) as [Hf Hc].
  destruct (loadAll_sim h h' c h' c2 h2 Hf Hc E1 E2) as [-> [_ Hp Hr _]].
  done.
Qed.

(** *** Modules that are cached are not run again *)

Lemma for_each_rel {A} (R : relation Host) `{!PreOrder R}
    (body : A → M unit) (l : list A) :
  (∀ x h c h', body x h = (c, h') → R h h') →
  ∀ h c h', for_each body l h = (c, h') → R h h'.
Proof.
  intros Hbody. induction l as [|x l IH]; intros h c h'; simpl.
  - intros [= _ <-]. reflexivity.
  - unfold bind. destruct (body x h) as [[[]|e] h1] eqn:E.
    + intros Hrest. etrans; [by eapply Hbody|by eapply IH].
    + intros [= _ <-]. by eapply Hbody.
Qed.

Lemma fresh_module_grows c c' e :
  cache_grows W c c' → fresh_module c' e → fresh_module c e.
Proof.
  intros [Hold _]. destruct e; simpl; try done.
  intros Hc. destruct (c !! file) as [m|] eqn:E; [|done].
  rewrite (Hold _ _ E) in Hc. done.
Qed.

#[local] Instance runs_fresh_preorder : PreOrder (runs_fresh W).
Proof.
  split.
  - intros h. split; [reflexivity|]. exists []. by rewrite app_nil_r.
  - intros h1 h2 h3 [Hc1 (evs1 & He1 & Hf1)] [Hc2 (evs2 & He2 & Hf2)].
    split; [by etrans|]. exists (evs1 ++ evs2).
    split; [by rewrite He2, He1, app_assoc|].
    apply Forall_app. split; [done|].
    eapply Forall_impl; [exact Hf2|]. intros e. by apply fresh_module_grows.
Qed.

Lemma runs_fresh_quiet h h' e :
  require_cache h' = require_cache h → console h' = console h ++ [e] →
  fresh_module (require_cache h) e → runs_fresh W h h'.
Proof.
  intros Hc He Hf. split; [rewrite Hc; reflexivity|].
  exists [e]. split; [done|]. by constructor.
Qed.

Lemma runs_fresh_silent h h' :
  require_cache h' = require_cache h → console h' = console h →
  runs_fresh W h h'.
Proof.
  intros Hc He. split; [rewrite Hc; reflexivity|].
  exists []. by rewrite app_nil_r.
Qed.

Lemma require_fresh p h c h' : require W p h = (c, h') → runs_fresh W h h'.
Proof.
  intros Hr. pose proof (require_frame _ _ _ _ Hr) as Hf.
  split; [apply (sf_cache _ _ _ Hf)|]. revert Hr. unfold require.
  destruct (resolve W p) as [file|];
    [|intros [= _ <-]; exists []; by rewrite app_nil_r].
  destruct (require_cache h !! file) as [m|] eqn:Hc;
    [intros [= _ <-]; exists []; by rewrite app_nil_r|].
  destruct (load_module W file); intros [= _ <-];
    (exists [EvModuleExecuted file]; split; [done|by constructor]).
Qed.

Lemma load_main_fresh r h c h' : load_main W r h = (c, h') → runs_fresh W h h'.
Proof.
  unfold load_main. unfold_m.
  destruct (get_prop (manifest r) "main") as [main|];
    [|intros [= _ <-]; reflexivity].
  destruct (truthy main); [|intros [= _ <-]; reflexivity].
  destruct (join_value W (dir r) main h) as [[mp|e] h1] eqn:Ej;
    apply join_value_frame in Ej as ->; [|intros [= _ <-]; reflexivity].
  destruct (require W mp h) as [[m|e] h2] eqn:Er;
    apply require_fresh in Er; [by intros [= _ <-]|].
  destruct (to_string_throws (id r)); simpl; intros [= _ <-]; [done|].
  etrans; [exact Er|]. by eapply runs_fresh_quiet.
Qed.

Lemma collect_preload_fresh r h c h' :
  collect_preload W r h = (c, h') → runs_fresh W h h'.
Proof.
  unfold collect_preload. unfold_m.
  destruct (get_prop (manifest r) "rendererPreload") as [rp|];
    [|intros [= _ <-]; reflexivity].
  destruct (truthy rp); [|intros [= _ <-]; reflexivity].
  destruct (join_value W (dir r) rp h) as [[p|e] h1] eqn:Ej;
    apply join_value_frame in Ej as ->; [|intros [= _ <-]; reflexivity].
  destruct (existsSync W p) as [[]|]; intros [= _ <-];
    by apply runs_fresh_silent.
Qed.

Lemma scan_entry_fresh root ent h c h' :
  scan_entry W root ent h = (c, h') → runs_fresh W h h'.
Proof.
  unfold scan_entry, read_manifest.
  destruct (isDirectory ent); simpl; [|intros [= _ <-]; reflexivity].
  unfold_m.
  destruct (files h !! _ ≫= normalize_manifest) as [m|];
    [|intros [= _ <-]; reflexivity].
  destruct (get_prop m "enabled") as [en|]; [|intros [= _ <-]; reflexivity].
  destruct (get_prop m "id") as [mid|]; [|intros [= _ <-]; reflexivity].
  cbv beta iota.
  destruct (negb (strict_eq en (VBool false))).
  - match goal with |- context [load_main W ?r0 h] => set (r := r0) end.
    destruct (load_main W r h) as [[r1|e] h1] eqn:El;
      apply load_main_fresh in El; [|by intros [= _ <-]].
    destruct (collect_preload W r1 h1) as [[[]|e] h2] eqn:Ec;
      apply collect_preload_fresh in Ec; intros [= _ <-]; [|by etrans].
    etrans; [exact El|]. etrans; [exact Ec|]. by apply runs_fresh_silent.
  - intros [= _ <-]. by apply runs_fresh_silent.
Qed.

Lemma scan_pass_fresh h c h' : scan_pass W h = (c, h') → runs_fresh W h h'.
Proof.
  unfold scan_pass. unfold_m. intros Hs.
  etrans; [|eapply (for_each_rel (runs_fresh W)); [|exact Hs]].
  - by apply runs_fresh_silent.
  - intros root h1 c1 h2. unfold scan_root.
    destruct (readdirSync W root); [|intros [= _ <-]; reflexivity].
    apply (for_each_rel (runs_fresh W)). intros ent ? ? ?. apply scan_entry_fresh.
Qed.

Lemma ctx_call_fresh p cc h c h' : ctx_call W p cc h = (c, h') → runs_fresh W h h'.
Proof.
  destruct cc; simpl; unfold_m.
  - intros [= _ <-]. by eapply runs_fresh_quiet.
  - unfold on. destruct (listeners h !! evt); [intros [= _ <-]; by apply runs_fresh_silent|].
    case_bool_decide; intros [= _ <-]; by apply runs_fresh_silent.
  - case_bool_decide; intros [= _ <-];
      [by eapply runs_fresh_quiet|by apply runs_fresh_silent].
  - intros [= _ <-]. by apply runs_fresh_silent.
  - intros [= _ <-]. by apply runs_fresh_silent.
  - destruct (get_prop arg "id") as [i|]; [|intros [= _ <-]; reflexivity].
    destruct (get_prop arg "html") as [html|]; [|intros [= _ <-]; reflexivity].
    destruct (negb (truthy i) || negb (truthy html)); intros [= _ <-];
      [reflexivity|by eapply runs_fresh_quiet].
Qed.

Lemma run_code_fresh p code h c h' : run_code W p code h = (c, h') → runs_fresh W h h'.
Proof.
  revert h. induction code as [| |cc next IHn handler IHh]; intros h; simpl.
  - intros [= _ <-]. reflexivity.
  - intros [= _ <-]. reflexivity.
  - destruct (ctx_call W p cc h) as [[[]|e] h1] eqn:E;
      apply ctx_call_fresh in E; intros Hr; [apply IHn in Hr|apply IHh in Hr];
      by etrans.
Qed.

Lemma activate_record_fresh p h c h' :
  activate_record W p h = (c, h') → runs_fresh W h h'.
Proof.
  unfold activate_record, _buildContext.
  destruct (negb (loaded p)); [intros [= _ <-]; reflexivity|].
  destruct (to_string_throws (id p)); [intros [= _ <-]; reflexivity|].
  unfold try_catch, bind, ret. simpl.
  assert (Hcall : ∀ a c1 h1, call_entry W p a h = (c1, h1) → runs_fresh W h h1).
  { intros a c1 h1. unfold call_entry. unfold_m. intros Hr.
    apply run_code_fresh in Hr. etrans; [|exact Hr]. by eapply runs_fresh_quiet. }
  assert (Hwrap : ∀ (m : M unit),
            (∀ c1 h1, m h = (c1, h1) → runs_fresh W h h1) →
            match m h with
            | (Normal a0, h'0) => (Normal a0, h'0)
            | (Throw _, h'0) => modify (emit_event (EvActivationError (id p))) h'0
            end = (c, h') → runs_fresh W h h').
  { intros m Hm. destruct (m h) as [[[]|e] h1] eqn:E; intros [= _ <-].
    - by eapply Hm.
    - etrans; [by eapply Hm|]. by eapply runs_fresh_quiet. }
  destruct (mod_ p) as [m|]; [|intros [= _ <-]; reflexivity].
  destruct (exp_activate m) as [a|]; [apply Hwrap, Hcall|].
  destruct (exp_call m) as [a|]; [apply Hwrap, Hcall|].
  intros [= _ <-]. reflexivity.
Qed.

(** X2.  A load pass never runs a module file again that the module cache
    already holds: every module execution it adds to the console is of a
    file that was not cached when the pass began.  It never drops or
    replaces a cache entry either, adds only what loading a file gave,
    and never writes a manifest. *)
Theorem loadAll_runs_only_uncached_modules h :
  files (loadAll W h).2 = files h ∧
  (∀ file m, require_cache h !! file = Some m →
             require_cache (loadAll W h).2 !! file = Some m) ∧
  (∀ file m, require_cache (loadAll W h).2 !! file = Some m →
             require_cache h !! file = Some m ∨ load_module W file = Some m) ∧
  ∃ evs, console (loadAll W h).2 = console h ++ evs ∧
         ∀ file, EvModuleExecuted file ∈ evs → require_cache h !! file = None.
Proof.
  destruct (loadAll W h) as [c h'] eqn:E. simpl.
  destruct (loadAll_files_cache _ _ _ E) as [Hf [Hold Hnew]].
  split_and!; [done..|].
  assert (Hr : runs_fresh W h h').
  { revert E. rewrite loadAll_unfold.
    destruct (scan_pass W h) as [[[]|e] h1] eqn:Es;
      apply scan_pass_fresh in Es; [|by intros [= _ <-]].
    intros Ha. etrans; [exact Es|].
    eapply (for_each_rel (runs_fresh W)); [|exact Ha].
    intros p ? ? ?. apply activate_record_fresh. }
  destruct Hr as [_ (evs & He & Hfr)]. exists evs. split; [done|].
  intros file Hin. rewrite Forall_forall in Hfr. apply (Hfr _ Hin).
Qed.

(** *** Where records and preloads come from *)

Lemma for_each_inv {A} (P : Host → Prop) (body : A → M unit) (l : list A) :
  (∀ x h c h', x ∈ l → P h → body x h = (c, h') → P h') →
  ∀ h c h', P h → for_each body l h = (c, h') → P h'.
Proof.
  induction l as [|x l IH]; intros Hbody h c h' HP; simpl.
  - by intros [= _ <-].
  - unfold bind. destruct (body x h) as [[[]|e] h1] eqn:E.
    + apply IH; [|eapply Hbody; [left|done..]].
      intros x0 ? ? ? Hx0. apply Hbody. by right.
    + intros [= _ <-]. eapply Hbody; [left|done..].
Qed.

Lemma require_preloads mp h c h' :
  require W mp h = (c, h') → rendererPreloads h' = rendererPreloads h.
Proof.
  unfold require. destruct (resolve W mp); [|by intros [= _ <-]].
  destruct (require_cache h !! _); [by intros [= _ <-]|].
  destruct (load_module W _); by intros [= _ <-].
Qed.

Lemma load_main_preloads r h c h' :
  load_main W r h = (c, h') → rendererPreloads h' = rendererPreloads h.
Proof.
  unfold load_main. unfold_m.
  destruct (get_prop (manifest r) "main") as [main|]; [|by intros [= _ <-]].
  destruct (truthy main); [|by intros [= _ <-]].
  destruct (join_value W (dir r) main h) as [[mp|e] h1] eqn:Ej;
    apply join_value_frame in Ej as ->; [|by intros [= _ <-]].
  destruct (require W mp h) as [[m|e] h2] eqn:Er;
    apply require_preloads in Er; [by intros [= _ <-]|].
  destruct (to_string_throws (id r)); simpl; by intros [= _ <-].
Qed.

Lemma collect_preload_preloads r h c h' :
  collect_preload W r h = (c, h') →
  rendererPreloads h' = rendererPreloads h ∨
  ∃ s, prop (manifest r) "rendererPreload" = VStr s ∧ s ≠ "" ∧
       existsSync W (path_join W (dir r) s) = Some true ∧
       rendererPreloads h' = rendererPreloads h ++ [path_join W (dir r) s].
Proof.
  unfold collect_preload, prop. unfold_m.
  destruct (get_prop (manifest r) "rendererPreload") as [rp|];
    [|intros [= _ <-]; by left].
  simpl. destruct (truthy rp) eqn:Ht; [|intros [= _ <-]; by left].
  destruct rp; simpl in Ht |- *; unfold_m; try (intros [= _ <-]; by left).
  destruct (existsSync W _) as [[]|] eqn:Hex; intros [= _ <-];
    [|by left..].
  right. exists s. split_and!; try done.
  intros ->. done.
Qed.

Lemma scan_entry_preloads root ent h c h' :
  scan_entry W root ent h = (c, h') →
  rendererPreloads h' = rendererPreloads h ∨
  ∃ m s, manifest_of W h root ent = Some m ∧ enabled_of m = true ∧
         prop m "rendererPreload" = VStr s ∧ s ≠ "" ∧
         existsSync W (path_join W (plugin_dir W root ent) s) = Some true ∧
         rendererPreloads h' =
           rendererPreloads h ++ [path_join W (plugin_dir W root ent) s].
Proof.
  unfold scan_entry, manifest_of, plugin_dir, read_manifest.
  destruct (isDirectory ent); simpl; [|intros [= _ <-]; by left].
  unfold_m.
  destruct (files h !! _ ≫= normalize_manifest) as [m|] eqn:Hm;
    [|intros [= _ <-]; by left].
  assert (Hget : ∀ k, get_prop m k = Some (prop m k)).
  { intros k. destruct (files h !! _) as [p|]; simpl in Hm; [|done].
    by eapply normalize_manifest_get. }
  rewrite !Hget. cbv beta iota. fold (enabled_of m).
  destruct (enabled_of m) eqn:Hen; [|intros [= _ <-]; by left].
  match goal with |- context [load_main W ?r0 h] => set (r := r0) end.
  destruct (load_main W r h) as [[r1|e] h1] eqn:El;
    [|apply load_main_preloads in El; intros [= _ <-]; by left].
  pose proof (load_main_preloads _ _ _ _ El) as Hp1.
  apply load_main_spec in El; try done; [|by rewrite Hget].
  destruct El as (_ & Hdir & Hman & _).
  destruct (collect_preload W r1 h1) as [c2 h2] eqn:Ec.
  apply collect_preload_preloads in Ec. rewrite Hdir, Hman, Hp1 in Ec. simpl in Ec.
  destruct c2 as [[]|e]; intros [= _ <-]; simpl;
    (destruct Ec as [Hsame|(s & Hs & Hne & Hex & Hpush)];
     [by left|right; exists m, s; done]).
Qed.

Lemma candidate_of_entry h root entries ent m :
  readdirSync W root = Some entries → ent ∈ entries →
  manifest_of W h root ent = Some m → candidate W h root ent m.
Proof. intros. split; eauto. Qed.

Lemma scan_entry_provenance h0 root entries ent h c h' :
  root ∈ getPluginDirs W → readdirSync W root = Some entries → ent ∈ entries →
  provenance W h0 h → scan_entry W root ent h = (c, h') → provenance W h0 h'.
Proof.
  intros Hroot Hrd Hent (Hf & Hrec & Hpre) Hs.
  pose proof (scan_entry_preloads _ _ _ _ _ Hs) as Hp.
  apply scan_entry_spec in Hs as [Hfr Hspec].
  rewrite (manifest_of_files h0 h) in Hspec, Hp by done.
  split_and!.
  - by rewrite (sf_files _ _ _ Hfr).
  - destruct (manifest_of W h0 root ent) as [m|] eqn:Hm, c as [[]|e];
      [|by rewrite (proj2 Hspec)|by rewrite Hspec|done].
    destruct Hspec as (_ & r & -> & Hmade & Hok & _).
    apply Forall_app. split; [done|]. constructor; [|constructor].
    exists root, ent, m. split_and!; try done; [by eapply candidate_of_entry|].
    intros Hdis. destruct (mod_ r) as [mo|] eqn:Hmo; [|done].
    destruct (Hok mo Hmo) as [Hen _]. congruence.
  - destruct Hp as [->|(m & s & Hm & Hen & Hs & Hne & Hex & ->)]; [done|].
    apply Forall_app. split; [done|]. constructor; [|constructor].
    exists root, ent, m, s. split_and!; try done. by eapply candidate_of_entry.
Qed.

Lemma scan_pass_provenance h c h' :
  scan_pass W h = (c, h') → provenance W h h'.
Proof.
  unfold scan_pass. unfold_m.
  apply (for_each_inv (provenance W h)).
  - intros root h1 c1 h2 Hroot HP. unfold scan_root.
    destruct (readdirSync W root) as [entries|] eqn:Hrd; [|by intros [= _ <-]].
    apply for_each_inv; [|done].
    intros ent ? ? ? Hent. by eapply scan_entry_provenance.
  - split_and!; [done|constructor..].
Qed.

Lemma loadAll_provenance h c h' : loadAll W h = (c, h') → provenance W h h'.
Proof.
  rewrite loadAll_unfold.
  destruct (scan_pass W h) as [[[]|e] h1] eqn:E;
    apply scan_pass_provenance in E; [|by intros [= _ <-]].
  intros Hf%activation_loop_frame. destruct E as (E1 & E2 & E3).
  unfold provenance.
  by rewrite (af_files _ _ Hf), (af_plugins _ _ Hf), (af_preloads _ _ Hf).
Qed.

(** A record has a module handle only if [require] returned it for the
    plugin's [main], however the pass ends. *)
Lemma loadAll_mod_ok h :
  Forall (mod_ok W (require_cache (loadAll W h).2)) (plugins (loadAll W h).2).
Proof.
  destruct (loadAll W h) as [c h'] eqn:E. simpl. revert E.
  rewrite loadAll_unfold.
  assert (Hscan : ∀ c1 h1, scan_pass W h = (c1, h1) →
            Forall (mod_ok W (require_cache h1)) (plugins h1)).
  { intros c1 h1. unfold scan_pass. unfold_m.
    apply (for_each_inv (λ h2, Forall (mod_ok W (require_cache h2)) (plugins h2)));
      [|constructor].
    intros root h2 c2 h3 _ HP. unfold scan_root.
    destruct (readdirSync W root) as [entries|]; [|by intros [= _ <-]].
    apply (for_each_inv
             (λ h2, Forall (mod_ok W (require_cache h2)) (plugins h2)));
      [|done].
    intros ent h4 c4 h5 _ HP4 Hs.
    apply scan_entry_spec in Hs as [Hfr Hspec].
    assert (Hold : Forall (mod_ok W (require_cache h5)) (plugins h4)).
    { eapply Forall_impl; [exact HP4|]. intros r.
      apply mod_ok_grows, (sf_cache _ _ _ Hfr). }
    destruct (manifest_of W h4 root ent) as [m|], c4 as [[]|e];
      [|by rewrite (proj2 Hspec)|by rewrite Hspec|done].
    destruct Hspec as (_ & r & -> & _ & Hok & _).
    apply Forall_app. split; [done|]. by constructor. }
  destruct (scan_pass W h) as [[[]|e] h1] eqn:Es;
    specialize (Hscan _ _ eq_refl); [|by intros [= _ <-]].
  intros Hf%activation_loop_frame.
  by rewrite (af_plugins _ _ Hf), (af_cache _ _ Hf).
Qed.

(** X3.  Every path [getRendererPreloads()] returns after a load pass is
    the [rendererPreload] of an enabled plugin with a parsed manifest,
    joined to that plugin's directory, and a file [fs.existsSync] found:
    a disabled plugin, or a preload file that is missing, contributes
    nothing. *)
Theorem collected_preloads_are_declared_and_exist h rp :
  rp ∈ getRendererPreloads (loadAll W h).2 → declared_preload W h rp.
Proof.
  destruct (loadAll W h) as [c h'] eqn:E. simpl. intros Hin.
  destruct (loadAll_provenance _ _ _ E) as (_ & _ & Hpre).
  unfold getRendererPreloads, new_Set in Hin.
  destruct (foldl_set_add_spec (rendererPreloads h') [] (NoDup_nil_2))
    as (_ & Hmem & _).
  apply Hmem in Hin as [[]%elem_of_nil|Hin].
  rewrite Forall_forall in Hpre. by apply Hpre.
Qed.

(** X4.  Every record a load pass leaves was built for a directory of one
    of the two roots whose manifest parsed: it has that directory, the
    normalized manifest, the manifest's id (or the directory name) and its
    enabled flag; and the record of a disabled plugin has no module, so
    the activation loop does nothing for it. *)
Theorem records_come_from_candidates h r :
  r ∈ plugins (loadAll W h).2 →
  from_candidate W h r ∧
  (enabled r = false → ∀ h0, activate_record W r h0 = (Normal tt, h0)).
Proof.
  destruct (loadAll W h) as [c h'] eqn:E. simpl. intros Hin.
  destruct (loadAll_provenance _ _ _ E) as (_ & Hrec & _).
  rewrite Forall_forall in Hrec. specialize (Hrec _ Hin). split; [done|].
  intros Hdis h0. destruct Hrec as (? & ? & ? & _ & _ & _ & Hmod).
  apply inert_not_activated. auto.
Qed.

(** *** What the normalization leaves in a manifest *)

Lemma normalize_categories_spec p m :
  normalize_categories p = Some m →
  loose_null p = false ∧
  (∀ k, k ≠ "categories" → prop m k = prop p k) ∧
  (isArray (prop m "categories") = true →
   Forall (λ x, is_string x = true) (elements (prop m "categories"))).
Proof.
  unfold normalize_categories, prop.
  destruct (get_prop p "categories") as [cats|] eqn:Hc; simpl; [|done].
  assert (Hp : loose_null p = false) by (by destruct p).
  assert (Hset : ∀ v m, set_prop p "categories" v = Some m →
            (∀ k, k ≠ "categories" →
                  default VUndef (get_prop m k) = default VUndef (get_prop p k)) ∧
            default VUndef (get_prop m "categories") = v).
  { intros v m0 Hs. split.
    - intros k Hk. by rewrite (get_set_prop_ne _ _ _ _ _ (not_eq_sym Hk) Hs).
    - by rewrite (get_set_prop_eq _ _ _ _ Hs). }
  destruct (is_string cats) eqn:Hstr.
  { intros [Ho Hv]%Hset. rewrite Hv. split_and!; [done..|].
    intros _. simpl. by constructor. }
  destruct (isArray cats) eqn:Harr.
  { intros [Ho Hv]%Hset. rewrite Hv. split_and!; [done..|].
    intros _. simpl. apply Forall_forall.
    intros x Hx%list_elem_of_In%filter_In. tauto. }
  destruct (loose_null cats).
  { intros [Ho Hv]%Hset. rewrite Hv. split_and!; [done..|]. intros _. constructor. }
  intros [= <-]. rewrite Hc. simpl. split_and!; [done..|]. congruence.
Qed.

Lemma normalize_authors_spec p m :
  normalize_authors p = Some m →
  (∀ k, k ≠ "authors" → prop m k = prop p k) ∧
  (isArray (prop m "authors") = true →
   Forall (λ x, author_ok x = true) (elements (prop m "authors"))).
Proof.
  unfold normalize_authors, prop.
  destruct (get_prop p "authors") as [au|] eqn:Hc; simpl; [|done].
  assert (Hset : ∀ v m, set_prop p "authors" v = Some m →
            (∀ k, k ≠ "authors" →
                  default VUndef (get_prop m k) = default VUndef (get_prop p k)) ∧
            default VUndef (get_prop m "authors") = v).
  { intros v m0 Hs. split.
    - intros k Hk. by rewrite (get_set_prop_ne _ _ _ _ _ (not_eq_sym Hk) Hs).
    - by rewrite (get_set_prop_eq _ _ _ _ Hs). }
  destruct (is_string au) eqn:Hstr.
  { intros [Ho Hv]%Hset. rewrite Hv. split; [done|].
    intros _. simpl. constructor; [|done]. unfold author_ok. by rewrite Hstr. }
  destruct (isArray au) eqn:Harr.
  { intros [Ho Hv]%Hset. rewrite Hv. split; [done|].
    intros _. simpl. apply filter_author_ok_accepted. }
  destruct (loose_null au).
  { intros [Ho Hv]%Hset. rewrite Hv. split; [done|]. intros _. constructor. }
  intros [= <-]. rewrite Hc. simpl. split; [done|]. congruence.
Qed.

(** A manifest that went through lines 51-59 parsed to a value other than
    [null]; it keeps every property but [categories] and [authors]; its
    [categories], when an array, holds strings only and its [authors],
    when an array, strings and objects with a name string only. *)
Lemma normalize_manifest_spec p m :
  normalize_manifest p = Some m →
  loose_null p = false ∧
  (∀ k, k ≠ "categories" → k ≠ "authors" → prop m k = prop p k) ∧
  (isArray (prop m "categories") = true →
   Forall (λ x, is_string x = true) (elements (prop m "categories"))) ∧
  (isArray (prop m "authors") = true →
   Forall (λ x, author_ok x = true) (elements (prop m "authors"))).
Proof.
  unfold normalize_manifest.
  destruct (normalize_categories p) as [m1|] eqn:H1; simpl; [|done].
  intros H2. apply normalize_categories_spec in H1 as (Hp & Ho1 & Hc).
  apply normalize_authors_spec in H2 as (Ho2 & Ha).
  split_and!; [done| |by rewrite Ho2|done].
  intros k Hk1 Hk2. by rewrite Ho2, Ho1.
Qed.

Lemma manifest_of_normalized h root ent m :
  manifest_of W h root ent = Some m →
  isDirectory ent = true ∧
  ∃ p, files h !! path_join W (plugin_dir W root ent) "plugin.json" = Some p ∧
       normalize_manifest p = Some m.
Proof.
  unfold manifest_of. destruct (isDirectory ent); [|done].
  destruct (files h !! _) as [p|]; simpl; [|done]. eauto.
Qed.

(** The descriptor [getPluginsInfo()] gives for a record with a normalized
    manifest. *)
Lemma info_of_normalized p r :
  normalize_manifest p = Some (manifest r) →
  ∃ d, info_of r = Some d ∧
       d_id d = id r ∧ d_dir d = dir r ∧ d_enabled d = enabled r ∧
       d_hasMain d = truthy (prop p "main") ∧
       d_hasRendererPreload d = truthy (prop p "rendererPreload") ∧
       Forall (λ x, is_string x = true) (d_categories d) ∧
       Forall (λ x, is_string x = true) (d_authors d).
Proof.
  intros Hn. pose proof (normalize_manifest_spec _ _ Hn) as (_ & Ho & Hc & Ha).
  unfold info_of. rewrite !(normalize_manifest_get _ _ _ Hn). simpl.
  eexists. split; [done|]. simpl. split_and!; try done.
  - by rewrite Ho.
  - by rewrite Ho.
  - destruct (isArray (prop (manifest r) "categories")); [auto|constructor].
  - unfold info_authors.
    destruct (isArray (prop (manifest r) "authors")); [|constructor].
    rewrite accepted_authors_reported by auto.
    apply reported_authors_strings. auto.
Qed.

(** X5.  After a load pass [getPluginsInfo()] does not throw and gives one
    entry per record, in the order of the records, with the record's id,
    directory and enabled flag; every category and every author in it is
    a string. *)
Theorem getPluginsInfo_after_loadAll h :
  ∃ ds, getPluginsInfo (loadAll W h).2 = Some ds ∧
    Forall2 (λ r d, d_id d = id r ∧ d_dir d = dir r ∧ d_enabled d = enabled r ∧
                    Forall (λ x, is_string x = true) (d_categories d) ∧
                    Forall (λ x, is_string x = true) (d_authors d))
            (plugins (loadAll W h).2) ds.
Proof.
  destruct (loadAll W h) as [c h'] eqn:E. simpl.
  destruct (loadAll_provenance _ _ _ E) as (_ & Hrec & _).
  unfold getPluginsInfo. induction Hrec as [|r rs Hr _ IH]; simpl.
  - by exists [].
  - destruct Hr as (root & ent & m & _ & [_ Hm] & (_ & Hman & _) & _).
    apply manifest_of_normalized in Hm as (_ & p & _ & Hn). rewrite <-Hman in Hn.
    destruct (info_of_normalized p r Hn) as (d & -> & ? & ? & ? & _ & _ & ? & ?).
    destruct IH as (ds & -> & Hall). simpl.
    exists (d :: ds). split; [done|]. by constructor.
Qed.

(** X6.  Every record a load pass leaves is also in the result of
    [discoverPlugins()], with the same directory, id and enabled flag. *)
Theorem loaded_records_are_discovered h r :
  r ∈ plugins (loadAll W h).2 →
  ∃ out d, (discoverPlugins W h).1 = Normal out ∧ d ∈ out ∧
           d_dir d = dir r ∧ d_id d = id r ∧ d_enabled d = enabled r.
Proof.
  destruct (loadAll W h) as [c h'] eqn:E. simpl. intros Hin.
  destruct (loadAll_provenance _ _ _ E) as (_ & Hrec & _).
  rewrite Forall_forall in Hrec.
  destruct (Hrec _ Hin) as (root & ent & m & Hroot & [(es & Hrd & Hent) Hm]
                            & (Hdir & Hman & Hid & Hen) & _).
  apply manifest_of_normalized in Hm as (Hisdir & p & Hf & Hn).
  apply normalize_manifest_spec in Hn as (Hp & Ho & _).
  destruct (describe_spec ent (plugin_dir W root ent) p Hp)
    as (d & Hd & Hdd & Hdi & Hde).
  exists (getPluginDirs W ≫= root_descriptors W h), d.
  split; [by rewrite discoverPlugins_pure|].
  split_and!.
  - apply list_elem_of_bind. exists root. split; [|done].
    unfold root_descriptors. rewrite Hrd.
    apply list_elem_of_bind. exists ent. split; [|done].
    unfold entry_descriptors. rewrite Hisdir, Hf. simpl. rewrite Hd. left.
  - by rewrite Hdd, Hdir.
  - rewrite Hdi, Hid. unfold id_of. by rewrite Ho.
  - rewrite Hde, Hen. unfold enabled_of. by rewrite Ho.
Qed.

(** *** Page registrations *)

Lemma ctx_call_pages p cc h c h' :
  ctx_call W p cc h = (c, h') →
  ∃ new, rendererPages h' = rendererPages h ++ new ∧ Forall (page_of W p) new.
Proof.
  assert (Hnone : ∀ h1 : Host, rendererPages h1 = rendererPages h →
            ∃ new, rendererPages h1 = rendererPages h ++ new ∧
                   Forall (page_of W p) new).
  { intros h1 ->. exists []. by rewrite app_nil_r. }
  destruct cc; simpl; unfold_m.
  - intros [= _ <-]. by apply Hnone.
  - unfold on. destruct (listeners h !! evt); [intros [= _ <-]; by apply Hnone|].
    case_bool_decide; intros [= _ <-]; by apply Hnone.
  - case_bool_decide; intros [= _ <-]; by apply Hnone.
  - intros [= _ <-]. by apply Hnone.
  - intros [= _ <-]. by apply Hnone.
  - destruct (get_prop arg "id") as [i|]; [|intros [= _ <-]; by apply Hnone].
    destruct (get_prop arg "html") as [html|]; [|intros [= _ <-]; by apply Hnone].
    destruct (truthy i) eqn:Hi; simpl; [|intros [= _ <-]; by apply Hnone].
    destruct (truthy html) eqn:Hh; simpl; [|intros [= _ <-]; by apply Hnone].
    intros [= _ <-]. eexists. split; [done|]. constructor; [|done].
    split_and!; done.
Qed.

Lemma run_code_pages p code h c h' :
  run_code W p code h = (c, h') →
  ∃ new, rendererPages h' = rendererPages h ++ new ∧ Forall (page_of W p) new.
Proof.
  revert h. induction code as [| |cc next IHn handler IHh]; intros h; simpl.
  - intros [= _ <-]. exists []. by rewrite app_nil_r.
  - intros [= _ <-]. exists []. by rewrite app_nil_r.
  - destruct (ctx_call W p cc h) as [[[]|e] h1] eqn:E;
      apply ctx_call_pages in E as (new1 & E1 & H1); intros Hr;
      [apply IHn in Hr|apply IHh in Hr]; destruct Hr as (new2 & E2 & H2);
      (exists (new1 ++ new2);
       split; [by rewrite E2, E1, app_assoc|by apply Forall_app]).
Qed.

Lemma activate_record_pages p h c h' :
  activate_record W p h = (c, h') →
  ∃ new, rendererPages h' = rendererPages h ++ new ∧
         Forall (λ pg, is_Some (activatable p) ∧ page_of W p pg) new.
Proof.
  intros Ha. destruct (aborts_activation p) eqn:Hab.
  { rewrite activate_record_aborts in Ha by done. injection Ha as _ <-.
    exists []. by rewrite app_nil_r. }
  destruct (activate_record_spec p h Hab) as (h1 & Ha' & _ & Hs).
  rewrite Ha' in Ha. injection Ha as _ <-.
  destruct (activatable p) as [a|] eqn:Hact;
    [|subst h1; exists []; by rewrite app_nil_r].
  clear Hs. revert Ha'.
  unfold aborts_activation, activate_record, activatable, _buildContext in *.
  destruct (loaded p); simpl in *; [|done]. rewrite Hab.
  destruct (mod_ p) as [m|]; simpl in *; [|done].
  unfold try_catch, call_entry. unfold_m.
  assert (Hrun : ∀ a0 h2,
    match run_code W p (a0 (paths_of W p))
            (emit_event (EvActivate (id p) (dir p)) h) with
    | (Normal a1, h'0) => (Normal a1, h'0)
    | (Throw _, h'0) => (Normal tt, emit_event (EvActivationError (id p)) h'0)
    end = (Normal tt, h2) →
    ∃ new, rendererPages h2 = rendererPages h ++ new ∧
           Forall (λ pg, is_Some (Some a) ∧ page_of W p pg) new).
  { intros a0 h2.
    destruct (run_code W p _ _) as [[[]|e] h3] eqn:Er;
      apply run_code_pages in Er as (new & Hn & Hall); intros [= <-];
      (exists new; split; [done|]; eapply Forall_impl; [exact Hall|]; by eauto). }
  unfold entry_point in Hact.
  destruct (exp_activate m) as [a0|]; [apply Hrun|].
  destruct (exp_call m) as [a0|]; [apply Hrun|done].
Qed.

(** X7.  Every page registration a load pass leaves was made by
    [registerRendererPage] in this pass, for a record of the pass that
    has a loaded module and an entry point: its id and its file are
    truthy, its plugin id is that record's id, and its URL is the file's
    URL when the file is a string (none otherwise). *)
Theorem pages_belong_to_activated_records h pg :
  pg ∈ rendererPages (loadAll W h).2 →
  ∃ r, r ∈ plugins (loadAll W h).2 ∧ is_Some (activatable r) ∧ page_of W r pg.
Proof.
  rewrite loadAll_unfold.
  destruct (scan_pass W h) as [[[]|e] h1] eqn:E;
    apply scan_pass_spec in E as [Hk _];
    [|simpl; rewrite (sk_pages _ _ _ Hk); by intros []%elem_of_nil].
  destruct (for_each (activate_record W) (plugins h1) h1) as [c h'] eqn:Ea. simpl.
  assert (Hinv : plugins h' = plugins h1 ∧
            Forall (λ pg, ∃ r, r ∈ plugins h1 ∧ is_Some (activatable r) ∧
                               page_of W r pg) (rendererPages h')).
  { revert Ea.
    apply (for_each_inv (λ h2, plugins h2 = plugins h1 ∧
             Forall (λ pg, ∃ r, r ∈ plugins h1 ∧ is_Some (activatable r) ∧
                                page_of W r pg) (rendererPages h2))).
    - intros p h2 c2 h3 Hp [Hpl Hall] Hact.
      pose proof (activate_record_frame _ _ _ _ Hact) as Hf.
      apply activate_record_pages in Hact as (new & -> & Hnew).
      split; [by rewrite (af_plugins _ _ Hf)|].
      apply Forall_app. split; [done|].
      eapply Forall_impl; [exact Hnew|]. intros pg0 [? ?]. by exists p.
    - split; [done|]. rewrite (sk_pages _ _ _ Hk). constructor. }
  destruct Hinv as [Hpl Hall]. rewrite Forall_forall in Hall.
  intros Hin. rewrite Hpl. by apply Hall.
Qed.

(** *** Persisting the enabled flag *)

Lemma normalize_object ps : is_Some (normalize_manifest (VObj ps)).
Proof.
  unfold normalize_manifest, normalize_categories, normalize_authors. simpl.
  repeat (match goal with
          | |- context [if ?b then _ else _] => destruct b
          end; simpl); eauto.
Qed.

Lemma setEnabled_object pid en h p ps :
  find_plugin pid (plugins h) = Some p →
  files h !! path_join W (dir p) "plugin.json" = Some (VObj ps) →
  write_rejects W (path_join W (dir p) "plugin.json") = false →
  setEnabled W pid en h
  = (Normal true,
     set_files (<[path_join W (dir p) "plugin.json" :=
                    json_roundtrip
                      (VObj (prop_set "enabled" (VBool (truthy en)) ps))]>
                  (files h)) h).
Proof.
  intros Hfind Hfile Hw. unfold setEnabled, read_manifest. unfold_m.
  rewrite Hfind. cbv beta iota. rewrite Hfile. unfold set_prop, reparse.
  cbn [unwritten]. cbv beta iota. by rewrite Hw.
Qed.

(** X8.  A successful [setEnabled(id, enabled)] on a plugin whose manifest
    is an object changes that one file and nothing else: the tracked
    records are as before (so [getPluginsInfo()] still reports the old
    flag until the next load pass), every other file is untouched, and
    from then on the manifest of the plugin's directory reads back with
    [enabled] equal to [!!enabled], which is what [discoverPlugins()]
    then lists.  A property that is a string, a boolean, [null] or a
    finite number reads back as it was, so an id of that kind (or no id)
    is listed unchanged; an id that is an infinite number was written as
    [null], and the directory name is listed in its place. *)
Theorem setEnabled_is_read_back pid en h p root entries ent ps :
  tracked_as pid (plugins h) p →
  root ∈ getPluginDirs W → readdirSync W root = Some entries →
  ent ∈ entries → isDirectory ent = true →
  dir p = plugin_dir W root ent →
  files h !! path_join W (dir p) "plugin.json" = Some (VObj ps) →
  write_rejects W (path_join W (dir p) "plugin.json") = false →
  ∃ h' doc, setEnabled W pid en h = (Normal true, h') ∧
    plugins h' = plugins h ∧ getPluginsInfo h' = getPluginsInfo h ∧
    require_cache h' = require_cache h ∧
    (∀ k, k ≠ path_join W (dir p) "plugin.json" → files h' !! k = files h !! k) ∧
    files h' !! path_join W (dir p) "plugin.json" = Some doc ∧
    prop doc "enabled" = VBool (truthy en) ∧
    (∀ k v, k ≠ "enabled" → own_prop k ps = Some v → json_plain v = true →
            prop doc k = v) ∧
    (∃ m', manifest_of W h' root ent = Some m' ∧
           enabled_of m' = truthy en ∧ id_of ent m' = id_of ent doc) ∧
    (∃ out d, (discoverPlugins W h').1 = Normal out ∧ d ∈ out ∧
              d_dir d = dir p ∧ d_enabled d = truthy en ∧
              d_id d = id_of ent doc) ∧
    ((∀ v, own_prop "id" ps = Some v → json_plain v = true) →
     id_of ent doc = id_of ent (VObj ps)) ∧
    (∀ b, own_prop "id" ps = Some (VInf b) →
          id_of ent (VObj ps) = VInf b ∧ id_of ent doc = VStr (ename ent)).
Proof.
  intros Hfind%find_plugin_tracked Hroot Hrd Hent Hisdir Hdir Hfile Hw.
  rewrite (setEnabled_object _ _ _ _ _ Hfind Hfile Hw).
  set (mp := path_join W (dir p) "plugin.json").
  pose proof (enabled_written ps (truthy en)) as Hwritten.
  pose proof (others_written ps (truthy en)) as Hothers.
  assert (Hobj : ∃ qs, json_roundtrip
                   (VObj (prop_set "enabled" (VBool (truthy en)) ps)) = VObj qs)
    by (simpl; eauto).
  assert (Hdoc : ∃ doc, doc = json_roundtrip
                   (VObj (prop_set "enabled" (VBool (truthy en)) ps)))
    by eauto.
  destruct Hdoc as [doc Hdoc]. rewrite <-Hdoc in Hwritten, Hothers, Hobj |- *.
  assert (Hh : ∃ h', h' = set_files (<[mp:=doc]> (files h)) h) by eauto.
  destruct Hh as [h' Hh]. rewrite <-Hh. exists h', doc. split; [done|].
  assert (Hlook : files h' !! path_join W (plugin_dir W root ent) "plugin.json"
                  = Some doc).
  { rewrite Hh. simpl. rewrite <-Hdir. apply lookup_insert_eq. }
  assert (Hprop_en : prop doc "enabled" = VBool (truthy en))
    by (unfold prop; by rewrite Hwritten).
  assert (Hen : enabled_of doc = truthy en).
  { unfold enabled_of. rewrite Hprop_en. simpl. by destruct (truthy en). }
  assert (Hnn : loose_null doc = false)
    by (destruct Hobj as [qs ->]; done).
  assert (Hid : prop doc "id" = match own_prop "id" ps with
                                | Some v => if json_plain v then v
                                            else prop doc "id"
                                | None => VUndef
                                end).
  { specialize (Hothers "id" ltac:(done)). unfold prop.
    destruct (own_prop "id" ps) as [v|]; [|by rewrite Hothers].
    destruct (json_plain v); [|done]. by rewrite Hothers. }
  split_and!.
  - by rewrite Hh.
  - by rewrite Hh.
  - by rewrite Hh.
  - intros k Hk. rewrite Hh. simpl. by apply lookup_insert_ne.
  - rewrite Hh. simpl. apply lookup_insert_eq.
  - done.
  - intros k v Hk Hv Hplain. specialize (Hothers k Hk). rewrite Hv in Hothers.
    unfold prop. by rewrite Hothers.
  - destruct Hobj as [qs Hqs].
    destruct (normalize_object qs) as [m' Hm']. rewrite <-Hqs in Hm'.
    exists m'. unfold manifest_of. rewrite Hisdir, Hlook.
    split; [exact Hm'|].
    apply normalize_manifest_spec in Hm' as (_ & Ho & _).
    unfold enabled_of, id_of in *. rewrite !Ho by done. done.
  - destruct (describe_spec ent (plugin_dir W root ent) doc Hnn)
      as (d & Hd & Hdd & Hdi & Hde).
    exists (getPluginDirs W ≫= root_descriptors W h'), d.
    split; [by rewrite discoverPlugins_pure|].
    split_and!; [|congruence..].
    apply list_elem_of_bind. exists root. split; [|done].
    unfold root_descriptors. rewrite Hrd.
    apply list_elem_of_bind. exists ent. split; [|done].
    unfold entry_descriptors. rewrite Hisdir, Hlook.
    change (Some doc ≫= describe ent (plugin_dir W root ent))
      with (describe ent (plugin_dir W root ent) doc).
    rewrite Hd. left.
  - intros Hplain. unfold id_of. rewrite Hid. unfold prop. simpl.
    rewrite prop_lookup_own.
    destruct (own_prop "id" ps) as [v|] eqn:Hv; [|done].
    by rewrite (Hplain v eq_refl).
  - intros b Hb. unfold id_of, prop. simpl. rewrite prop_lookup_own, Hb. simpl.
    split; [done|].
    pose proof (json_roundtrip_prop "id"
                  (prop_set "enabled" (VBool (truthy en)) ps)) as Hrt.
    rewrite own_prop_set_ne, Hb in Hrt by done.
    rewrite <-Hdoc in Hrt. by rewrite Hrt.
Qed.

(** *** What a reload loads *)



(** *** The event bus *)

Section Bus.

Context (cb_throws : Callback → list value → bool).

Lemma call_subscribers_app evt args l1 l2 :
  call_subscribers cb_throws evt args (l1 ++ l2)
  = call_subscribers cb_throws evt args l1 ++ call_subscribers cb_throws evt args l2.
Proof.
  induction l1 as [|cb l1 IH]; simpl; [done|]. by rewrite IH, app_assoc.
Qed.

Lemma call_subscribers_called evt args l :
  called (call_subscribers cb_throws evt args l) = l ∧
  bus_errors (call_subscribers cb_throws evt args l)
  = length (List.filter (λ cb, cb_throws cb args) l).
Proof.
  unfold called, bus_errors.
  induction l as [|cb l [IH1 IH2]]; simpl; [done|].
  destruct (cb_throws cb args); simpl;
    (split; [f_equal; exact IH1|by rewrite ?IH2]).
Qed.

(** X10.  After [on(evt, cb)] returns, [emit(evt, ...)] makes the calls it
    made before, in the same order, and then calls [cb]; what [emit] does
    for any other event name is unchanged. *)
Theorem on_then_emit evt cb args h h' :
  on evt cb h = (Normal tt, h') →
  ∃ before,
    emit cb_throws evt args h = Normal before ∧
    emit cb_throws evt args h'
    = Normal (before ++ call_subscribers cb_throws evt args [cb]) ∧
    ∀ evt' args', evt' ≠ evt →
      emit cb_throws evt' args' h' = emit cb_throws evt' args' h.
Proof.
  unfold on, emit.
  destruct (listeners h !! evt) as [l|] eqn:Hl.
  - intros [= <-]. simpl. rewrite lookup_insert_eq.
    exists (call_subscribers cb_throws evt args l).
    split_and!; [done|by rewrite call_subscribers_app|].
    intros evt' args' Hne. by rewrite lookup_insert_ne.
  - case_bool_decide; [done|]. intros [= <-]. simpl. rewrite lookup_insert_eq.
    exists []. split_and!; [done..|].
    intros evt' args' Hne. by rewrite lookup_insert_ne.
Qed.

(** X11.  [emit] calls every subscriber of the event once, in the order of
    registration, whichever of them throw, and logs one error per
    subscriber that throws.  For an event without subscriber list it
    calls nothing; but for a name every object inherits ([constructor],
    [toString], ...) that has no list of its own, [emit] and [on] both
    throw a [TypeError], and [on] registers nothing. *)
Theorem emit_calls_every_subscriber evt args h :
  match listeners h !! evt with
  | Some l =>
      ∃ evs, emit cb_throws evt args h = Normal evs ∧ called evs = l ∧
             bus_errors evs = length (List.filter (λ cb, cb_throws cb args) l)
  | None =>
      if bool_decide (evt ∈ object_prototype_keys)
      then emit cb_throws evt args h = Throw TypeError ∧
           ∀ cb, on evt cb h = (Throw TypeError, h)
      else emit cb_throws evt args h = Normal [] ∧
           ∀ cb, ∃ h', on evt cb h = (Normal tt, h') ∧
                       listeners h' !! evt = Some [cb]
  end.
Proof.
  unfold emit, on. destruct (listeners h !! evt) as [l|] eqn:Hl.
  - eexists. split; [done|]. apply call_subscribers_called.
  - case_bool_decide; [done|]. split; [done|].
    intros cb. eexists. split; [done|]. simpl. apply lookup_insert_eq.
Qed.

End Bus.

End Proofs.

(** ** The GPU configuration *)

Section GPUFacts.

Import GPU.

Context (sys : Sys).

Lemma includes_spec sub s :
  sub ≠ "" →
  includes sub s = true ↔ ∃ m, String.substring m (String.length sub) s = sub.
Proof.
  intros Hne. unfold includes.
  destruct (String.index 0 sub s) as [m|] eqn:E.
  - split; [|done]. intros _. exists m. by eapply String.index_correct1.
  - split; [done|]. intros [m Hm].
    exfalso. eapply (String.index_correct3 0 m); eauto. lia.
Qed.

Lemma appendSwitches_ok sws st :
  Forall (λ sv, switch_throws sys sv.1 = false) sws →
  appendSwitches sys sws st
  = (true, {| cfg := cfg st; switches := switches st ++ sws |}).
Proof.
  revert st. induction sws as [|[sw v] sws IH]; intros st Hall; simpl.
  - rewrite app_nil_r. by destruct st.
  - apply Forall_cons in Hall as [Hsw Hall]. simpl in Hsw. rewrite Hsw.
    rewrite IH by done. simpl. by rewrite <-app_assoc.
Qed.

Lemma appendSwitches_throws sws st :
  Exists (λ sv, switch_throws sys sv.1 = true) sws →
  ∃ done_, appendSwitches sys sws st
           = (false, {| cfg := cfg st; switches := switches st ++ done_ |}) ∧
           done_ `prefix_of` sws.
Proof.
  revert st. induction sws as [|[sw v] sws IH]; intros st Hex; simpl.
  - by apply Exists_nil in Hex.
  - destruct (switch_throws sys sw) eqn:Hsw.
    + exists []. rewrite app_nil_r. split; [by destruct st|apply prefix_nil].
    + apply Exists_cons in Hex as [Hex|Hex]; [simpl in Hex; congruence|].
      destruct (IH {| cfg := cfg st; switches := switches st ++ [(sw, v)] |} Hex)
        as (d & -> & Hpre).
      exists ((sw, v) :: d). simpl. rewrite <-app_assoc. split; [done|].
      by apply prefix_cons.
Qed.

(** X12.  When no switch is refused, [configure()] on a fresh instance
    completes without applying the fallback: no fallback switch is on the
    command line and [fallbackApplied] stays false.  On SteamOS it appends
    the conservative switches and nothing else; elsewhere it also appends
    the six acceleration switches.  [no-sandbox] and the
    [VaapiVideoDecoder] feature are appended exactly off Linux. *)
Theorem configure_without_refusals :
  (∀ sw, switch_throws sys sw = false) →
  ∃ st, configure sys {| cfg := constructor sys; switches := [] |} = (true, st) ∧
    fallbackApplied (cfg st) = false ∧
    isSteamOS (cfg st) = detectSteamOS sys (constructor sys) ∧
    (∀ sw, sw ∈ map fst fallback_switches → sw ∉ switch_names st) ∧
    (detectSteamOS sys (constructor sys) = true →
     platform sys = "linux" ∧ switches st = conservative_switches sys) ∧
    (detectSteamOS sys (constructor sys) = false →
     ∀ sw, sw ∈ map fst (acceleration_switches (constructor sys)) →
           sw ∈ switch_names st) ∧
    ("no-sandbox" ∈ switch_names st ↔ platform sys ≠ "linux") ∧
    ("enable-features" ∈ switch_names st ↔ platform sys ≠ "linux").
Proof.
  intros Hno.
  assert (Hall : ∀ sws : list (string * option string),
            Forall (λ sv, switch_throws sys sv.1 = false) sws)
    by (intros sws; apply Forall_forall; auto).
  assert (Hoff : String.eqb (platform sys) "linux" = false →
                 detectSteamOS sys (constructor sys) = false).
  { intros E. unfold detectSteamOS, constructor. simpl. by rewrite E. }
  assert (Hlinux : isLinux (constructor sys) = String.eqb (platform sys) "linux")
    by done.
  unfold configure, applyConservativeSettings, tryEnableGPU.
  cbn [cfg switches isGPUSupported fallbackApplied isSteamOS isLinux].
  rewrite appendSwitches_ok by apply Hall.
  cbn [cfg switches isGPUSupported fallbackApplied isSteamOS isLinux].
  remember (detectSteamOS sys (constructor sys)) as d eqn:Hd.
  destruct d; cbn [negb].
  - eexists. split; [done|].
    cbn [cfg switches isGPUSupported fallbackApplied isSteamOS isLinux].
    unfold switch_names. cbn [switches app].
    destruct (String.eqb (platform sys) "linux") eqn:Hlin;
      [|specialize (Hoff eq_refl); congruence].
    apply String.eqb_eq in Hlin as Hplat.
    unfold conservative_switches. rewrite Hlin.
    split_and!; try done.
    + intros sw Hin.
      repeat (apply elem_of_cons in Hin as [->|Hin];
              [apply (bool_decide_unpack _); by vm_compute|]).
      by apply elem_of_nil in Hin.
    + split; [|done]. intros Hin. exfalso. revert Hin.
      apply (bool_decide_unpack _). by vm_compute.
    + split; [|done]. intros Hin. exfalso. revert Hin.
      apply (bool_decide_unpack _). by vm_compute.
  - rewrite appendSwitches_ok by apply Hall.
    eexists. split; [done|].
    cbn [cfg switches isGPUSupported fallbackApplied isSteamOS isLinux].
    unfold switch_names. cbn [switches app].
    unfold conservative_switches, acceleration_switches. rewrite Hlinux.
    destruct (String.eqb (platform sys) "linux") eqn:Hlin.
    + apply String.eqb_eq in Hlin as Hplat.
      split_and!; try done.
      * intros sw Hin.
        repeat (apply elem_of_cons in Hin as [->|Hin];
                [apply (bool_decide_unpack _); by vm_compute|]).
        by apply elem_of_nil in Hin.
      * intros _ sw Hin.
        repeat (apply elem_of_cons in Hin as [->|Hin];
                [apply (bool_decide_unpack _); by vm_compute|]).
        by apply elem_of_nil in Hin.
      * split; [|done]. intros Hin. exfalso. revert Hin.
        apply (bool_decide_unpack _). by vm_compute.
      * split; [|done]. intros Hin. exfalso. revert Hin.
        apply (bool_decide_unpack _). by vm_compute.
    + assert (Hplat : platform sys ≠ "linux")
        by (intros E; rewrite E in Hlin; done).
      split_and!; try done.
      * intros sw Hin.
        repeat (apply elem_of_cons in Hin as [->|Hin];
                [apply (bool_decide_unpack _); by vm_compute|]).
        by apply elem_of_nil in Hin.
      * intros _ sw Hin.
        repeat (apply elem_of_cons in Hin as [->|Hin];
                [apply (bool_decide_unpack _); by vm_compute|]).
        by apply elem_of_nil in Hin.
      * split; [done|]. intros _. apply (bool_decide_unpack _). by vm_compute.
      * split; [done|]. intros _. apply (bool_decide_unpack _). by vm_compute.
Qed.

(** X13.  When [appendSwitch] throws for one of the acceleration switches
    (and for no conservative or fallback switch), [configure()] off
    SteamOS still completes: the [catch] applies the fallback, so the
    command line ends with the three fallback switches,
    [fallbackApplied] is true, [isGPUSupported] is false, and
    [getRecommendations()] reports the fallback mode. *)
Theorem configure_falls_back :
  Forall (λ sv, switch_throws sys sv.1 = false)
         (conservative_switches sys ++ fallback_switches) →
  detectSteamOS sys (constructor sys) = false →
  Exists (λ sv, switch_throws sys sv.1 = true)
         (acceleration_switches (constructor sys)) →
  ∃ st before,
    configure sys {| cfg := constructor sys; switches := [] |} = (true, st) ∧
    switches st = before ++ fallback_switches ∧
    fallbackApplied (cfg st) = true ∧ isGPUSupported (cfg st) = false ∧
    "Fallback mode is active due to GPU issues" ∈ getRecommendations (cfg st).
Proof.
  intros [Hcons Hfb]%Forall_app Hdet Hex.
  unfold configure, applyConservativeSettings, tryEnableGPU.
  cbn [cfg switches isGPUSupported fallbackApplied isSteamOS isLinux].
  rewrite appendSwitches_ok by done.
  cbn [cfg switches isGPUSupported fallbackApplied isSteamOS isLinux].
  rewrite Hdet. cbn [negb].
  assert (Hcfg : {| isGPUSupported := isGPUSupported (constructor sys);
                    fallbackApplied := fallbackApplied (constructor sys);
                    isSteamOS := false;
                    isLinux := isLinux (constructor sys) |} = constructor sys).
  { unfold constructor. done. }
  rewrite Hcfg.
  destruct (appendSwitches_throws (acceleration_switches (constructor sys))
              {| cfg := constructor sys;
                 switches := [] ++ conservative_switches sys |} Hex)
    as (d & -> & _).
  unfold applyFallback. rewrite appendSwitches_ok by done.
  cbn [cfg switches isGPUSupported fallbackApplied isSteamOS isLinux].
  eexists _, _. split; [done|].
  cbn [cfg switches isGPUSupported fallbackApplied isSteamOS isLinux].
  split_and!; try done.
  unfold getRecommendations. cbn [isGPUSupported fallbackApplied negb].
  apply (bool_decide_unpack _). by vm_compute.
Qed.

(** X14.  [detectSteamOS()] is false off Linux whatever the files and the
    environment say.  On Linux without a SteamOS marker file, it is false
    when [/etc/os-release] exists but cannot be read, even with the
    Gamescope or Steam variables set (the [catch] skips those tests);
    when [/etc/os-release] does not exist, the variables decide. *)
Theorem detectSteamOS_edges :
  (platform sys ≠ "linux" → detectSteamOS sys (constructor sys) = false) ∧
  (platform sys = "linux" →
   file_exists sys "/etc/steamos-release" = false →
   file_exists sys "/usr/share/steamos/steamos.conf" = false →
   (file_exists sys "/etc/os-release" = true → os_release sys = None →
    detectSteamOS sys (constructor sys) = false) ∧
   (file_exists sys "/etc/os-release" = false →
    detectSteamOS sys (constructor sys)
    = (env_set sys "GAMESCOPE_WAYLAND_DISPLAY" || env_set sys "SteamDeck"
       || env_set sys "STEAM_RUNTIME" || env_set sys "SteamAppId"))).
Proof.
  unfold detectSteamOS, constructor. simpl. split.
  - intros Hne. destruct (String.eqb (platform sys) "linux") eqn:E; [|done].
    apply String.eqb_eq in E. done.
  - intros -> -> ->. simpl. split.
    + by intros -> ->.
    + intros ->.
      by destruct (env_set sys "GAMESCOPE_WAYLAND_DISPLAY"),
        (env_set sys "SteamDeck"), (env_set sys "STEAM_RUNTIME"),
        (env_set sys "SteamAppId").
Qed.

(** X15.  [checkGPUStatus()] reports as enabled exactly the features whose
    status text does not contain [disabled], in the order of the status
    object, and counts the GPU as supported when there are at least three
    of them; the field it sets makes [getRecommendations()] start with
    the good news exactly then, and [fallbackApplied] is not touched.
    When the status query throws, it answers with the failure object and
    leaves the instance as it was. *)
Theorem checkGPUStatus_then_recommendations (c : Config) :
  match gpu_feature_status sys with
  | Some info =>
      ∃ supported enabled c',
        checkGPUStatus sys c = (Report supported enabled info, c') ∧
        enabled `sublist_of` map fst info ∧
        (∀ k, k ∈ enabled ↔
              ∃ v, (k, v) ∈ info ∧ includes "disabled" v = false) ∧
        (supported = true ↔ (3 ≤ List.length enabled)%nat) ∧
        isGPUSupported c' = supported ∧
        fallbackApplied c' = fallbackApplied c ∧
        (head (getRecommendations c') = Some "GPU acceleration is working" ↔
         (3 ≤ List.length enabled)%nat)
  | None => checkGPUStatus sys c = (Failure, c)
  end.
Proof.
  unfold checkGPUStatus. destruct (gpu_feature_status sys) as [info|]; [|done].
  eexists _, _, _. split; [done|].
  cbn [isGPUSupported fallbackApplied]. split_and!; try done.
  - induction info as [|[k v] info IH]; simpl; [done|].
    destruct (includes "disabled" v); simpl;
      [by apply sublist_cons|by apply sublist_skip].
  - intros k. rewrite list_elem_of_fmap. split.
    + intros ([k' v] & -> & Hin%list_elem_of_In%filter_In). simpl in *.
      exists v. rewrite list_elem_of_In. split; [tauto|].
      destruct Hin as [_ Hin]. by destruct (includes "disabled" v).
    + intros (v & Hin & Hv). exists (k, v). split; [done|].
      apply list_elem_of_In, filter_In. rewrite <-list_elem_of_In.
      split; [done|]. simpl. by rewrite Hv.
  - rewrite Nat.ltb_lt. lia.
  - unfold getRecommendations. cbn [isGPUSupported fallbackApplied].
    destruct (Nat.ltb 2 _) eqn:E; simpl.
    + apply Nat.ltb_lt in E. split; [lia|done].
    + apply Nat.ltb_ge in E. split; [done|lia].
Qed.

End GPUFacts.

(** ** The installation of [Demo] *)

Lemma demo_all_well_typed : all_well_typed Demo.env Demo.start.
Proof.
  intros root ent m Hroot [(entries & Hrd & Hent) Hm].
  vm_compute in Hroot.
  repeat (apply elem_of_cons in Hroot as [->|Hroot]);
    [| |by apply elem_of_nil in Hroot];
    vm_compute in Hrd; injection Hrd as <-;
    repeat (apply elem_of_cons in Hent as [->|Hent]);
    try (by apply elem_of_nil in Hent);
    vm_compute in Hm; try discriminate; injection Hm as <-; reflexivity.
Qed.

Lemma demo_all_ids_print : all_ids_print Demo.env Demo.start.
Proof.
  intros root ent m Hroot [(entries & Hrd & Hent) Hm].
  vm_compute in Hroot.
  repeat (apply elem_of_cons in Hroot as [->|Hroot]);
    [| |by apply elem_of_nil in Hroot];
    vm_compute in Hrd; injection Hrd as <-;
    repeat (apply elem_of_cons in Hent as [->|Hent]);
    try (by apply elem_of_nil in Hent);
    vm_compute in Hm; try discriminate; injection Hm as <-; reflexivity.
Qed.

(** C1 fails on the code.  After [loadAll()] and then [reload()] on the
    installation of [Demo], the records, the preload list and the page
    registrations are those of the second pass alone, but the request
    handler and the menu contributor the plugin [ads] registered in the
    first pass are still there, next to the ones of the second pass. *)
Theorem stale_contributions_survive_reload :
  length (plugins Demo.after_load) = 4 ∧
  length (plugins Demo.after_reload) = 4 ∧
  rendererPreloads Demo.after_reload = rendererPreloads Demo.after_load ∧
  length (rendererPages Demo.after_load) = 1 ∧
  length (rendererPages Demo.after_reload) = 1 ∧
  length (webRequestHandlers Demo.after_load) = 1 ∧
  length (webRequestHandlers Demo.after_reload) = 2 ∧
  contextMenuContribs Demo.after_load = [7] ∧
  contextMenuContribs Demo.after_reload = [7; 7].
Proof. vm_compute. repeat split. Qed.

(** C2 fails on the code as stated: after [loadAll()], the manifest of
    the record of [ads] has an object among its [authors]. *)
Lemma loadAll_keeps_author_objects :
  (λ r, prop (manifest r) "authors") <$> plugins Demo.after_load !! 0
  = Some (VArr [VObj [("name", VStr "Ann")]; VStr "Bob"] []) ∧
  ¬ Forall (λ x, is_string x = true) [VObj [("name", VStr "Ann")]; VStr "Bob"].
Proof.
  split; [by vm_compute|].
  intros H. apply Forall_cons in H as [H _]. discriminate H.
Qed.

(** C3 fails on the code.  [Demo] with [broken] declaring an id that has
    no string: loading the main module of [broken] throws, the [catch] of
    line 73 throws while it builds its message, and the [TypeError]
    leaves [loadAll].  Only [ads], scanned before, has a record: [broken]
    has none, the user root is never scanned, and nothing is activated.
    With a string for that id the pass completes with all four records.
    The pass is aborted in the same way when the [main] of [broken] is
    not a string: [path.join], line 67, is outside the [try]. *)
Theorem load_failure_with_opaque_id_aborts :
  candidate Demo.env Demo.start_opaque_broken "/app/plugins"
    {| ename := "broken"; isDirectory := true |}
    (VObj [("id", Demo.opaque_id); ("main", VStr "index.js");
           ("categories", VArr [] []); ("authors", VArr [] [])]) ∧
  require_fails Demo.env (require_cache Demo.start_opaque_broken)
    "/app/plugins/broken/index.js" ∧
  (loadAll Demo.env Demo.start_opaque_broken).1 = Throw TypeError ∧
  map dir (plugins (loadAll Demo.env Demo.start_opaque_broken).2)
  = ["/app/plugins/ads"] ∧
  console (loadAll Demo.env Demo.start_opaque_broken).2
  = [EvModuleExecuted "/app/plugins/ads/index.js";
     EvModuleExecuted "/app/plugins/broken/index.js"] ∧
  (loadAll Demo.env Demo.start).1 = Normal tt ∧
  map dir (plugins Demo.after_load)
  = ["/app/plugins/ads"; "/app/plugins/broken"; "/home/plugins/ads-user";
     "/home/plugins/off"] ∧
  (loadAll Demo.env Demo.start_numeric_main).1 = Throw TypeError ∧
  map dir (plugins (loadAll Demo.env Demo.start_numeric_main).2)
  = ["/app/plugins/ads"].
Proof.
  split_and!; try (by vm_compute).
  split; [|by vm_compute]. eexists. split; [by vm_compute|]. right. left.
Qed.

(** C4 fails on the code.  [Demo] with [ads-user] declaring an id that has
    no string.  The scan completes with all four records, that of
    [ads-user] enabled, with a loaded module and an entry point.  In the
    activation loop the entry point of [ads] throws and the error is
    logged with its id; for [ads-user], discovered after it, line 106
    throws while it builds the log prefix, the [catch] of line 99 throws
    while it builds its message, and the [TypeError] leaves [loadAll]:
    the entry point of [ads-user] is never called. *)
Theorem opaque_id_stops_activation_of_peers :
  (scan_pass Demo.env Demo.start_opaque_user).1 = Normal tt ∧
  map dir (plugins (scan_pass Demo.env Demo.start_opaque_user).2)
  = ["/app/plugins/ads"; "/app/plugins/broken"; "/home/plugins/ads-user";
     "/home/plugins/off"] ∧
  (∃ r, plugins (scan_pass Demo.env Demo.start_opaque_user).2 !! 2 = Some r ∧
        dir r = "/home/plugins/ads-user" ∧ id r = Demo.opaque_id ∧
        enabled r = true ∧ mod_ r = Some Demo.ads_user_exports ∧
        activatable r = Some Demo.ads_user_main) ∧
  (loadAll Demo.env Demo.start_opaque_user).1 = Throw TypeError ∧
  console (loadAll Demo.env Demo.start_opaque_user).2
  = [EvModuleExecuted "/app/plugins/ads/index.js";
     EvModuleExecuted "/app/plugins/broken/index.js";
     EvLoadFailed (VStr "broken");
     EvModuleExecuted "/home/plugins/ads-user/main.js";
     EvActivate (VStr "adblock") "/app/plugins/ads";
     EvRegisteredPage (VStr "ads") (VStr "/app/plugins/ads/page.html");
     EvActivationError (VStr "adblock")].
Proof.
  split_and!; try (by vm_compute).
  eexists. split; [by vm_compute|]. by vm_compute.
Qed.

(** C5 fails on the code.  [Demo] with [broken] declaring an id that has
    no string, as for C3: [ads] under the bundled root and [ads-user]
    under the user root both declare the id [adblock], but the pass is
    aborted in the bundled root, so only [ads] has a record, and neither
    is activated. *)
Theorem same_id_pair_lost_when_pass_aborts :
  candidate Demo.env Demo.start_opaque_broken "/app/plugins"
    {| ename := "ads"; isDirectory := true |}
    (VObj [("id", VStr "adblock"); ("main", VStr "index.js");
           ("rendererPreload", VStr "preload.js");
           ("authors", VArr [VObj [("name", VStr "Ann")]; VStr "Bob"] []);
           ("categories", VArr [] [])]) ∧
  candidate Demo.env Demo.start_opaque_broken "/home/plugins"
    {| ename := "ads-user"; isDirectory := true |}
    (VObj [("id", VStr "adblock"); ("main", VStr "main.js");
           ("rendererPreload", VStr "preload.js");
           ("categories", VArr [] []); ("authors", VArr [] [])]) ∧
  (loadAll Demo.env Demo.start_opaque_broken).1 = Throw TypeError ∧
  map (λ r, (id r, dir r)) (plugins (loadAll Demo.env Demo.start_opaque_broken).2)
  = [(VStr "adblock", "/app/plugins/ads")] ∧
  Forall (λ e, match e with EvActivate _ _ => False | _ => True end)
         (console (loadAll Demo.env Demo.start_opaque_broken).2).
Proof.
  split_and!; try (by vm_compute).
  - split; [|by vm_compute]. eexists. split; [by vm_compute|]. left.
  - split; [|by vm_compute]. eexists. split; [by vm_compute|]. left.
  - vm_compute. by repeat constructor.
Qed.

(** C6 fails on the code as stated.  In [Demo] with [empty/plugin.json]
    holding the JSON array [[]], the directory is tracked under its name;
    [setEnabled("empty", false)] returns [true], and the file it wrote
    holds the array without any [enabled] flag, so the plugin still reads
    as enabled.  And for an id without a string that no record has, the
    error is a [TypeError], not the not-found error. *)
Lemma setEnabled_array_manifest_keeps_no_flag :
  (∃ h', setEnabled Demo.env (VStr "empty") (VBool false) Demo.after_load_array
         = (Normal true, h') ∧
         files h' !! "/app/plugins/empty/plugin.json" = Some (VArr [] []) ∧
         get_prop (VArr [] []) "enabled" = Some VUndef ∧
         enabled_of (VArr [] []) = true) ∧
  untracked Demo.opaque_id (plugins Demo.after_load_array) ∧
  setEnabled Demo.env Demo.opaque_id (VBool false) Demo.after_load_array
  = (Throw TypeError, Demo.after_load_array).
Proof.
  split_and!.
  - eexists. split; [by vm_compute|]. by vm_compute.
  - unfold untracked. vm_compute. by repeat constructor.
  - by vm_compute.
Qed.


(** The record of [ads] after the first load pass of [Demo]. *)
Lemma demo_ads_tracked :
  tracked_as (VStr "adblock") (plugins Demo.after_load)
    {| id := VStr "adblock"; dir := "/app/plugins/ads";
       manifest :=
         VObj [("id", VStr "adblock"); ("main", VStr "index.js");
               ("rendererPreload", VStr "preload.js");
               ("authors", VArr [VObj [("name", VStr "Ann")]; VStr "Bob"] []);
               ("categories", VArr [] [])];
       enabled := true;
       mod_ := Some Demo.ads_exports;
       mainPath := Some "/app/plugins/ads/index.js" |}.
Proof.
  eexists [], _. split; [vm_compute; reflexivity|].
  split; [reflexivity|constructor].
Defined.

(** On [Demo] after the first load pass: no plugin is called [missing];
    [adblock] is, first of all, the plugin [ads], and its manifest is
    rewritten with [enabled] false. *)
Lemma setEnabled_fails_loudly_witness :
  setEnabled Demo.env (VStr "missing") (VBool false) Demo.after_load
  = (Throw (PluginNotFound (VStr "missing")), Demo.after_load) ∧
  ∃ doc,
    setEnabled Demo.env (VStr "adblock") (VBool false) Demo.after_load
    = (Normal true,
       set_files (<["/app/plugins/ads/plugin.json" := doc]>
                    (files Demo.after_load)) Demo.after_load) ∧
    get_prop doc "enabled" = Some (VBool false).
Proof.
  split.
  - destruct (setEnabled_fails_loudly Demo.env (VStr "missing") (VBool false)
                Demo.after_load) as (Hnf & _).
    apply Hnf. unfold untracked. vm_compute. by repeat constructor.
  - destruct (setEnabled_fails_loudly Demo.env (VStr "adblock") (VBool false)
                Demo.after_load) as (_ & Hfound & _).
    specialize (Hfound _ demo_ads_tracked). cbv zeta in Hfound.
    assert (Hfile : files Demo.after_load
                      !! path_join Demo.env "/app/plugins/ads" "plugin.json"
                    = Some (VObj [("id", VStr "adblock"); ("main", VStr "index.js");
                                  ("rendererPreload", VStr "preload.js");
                                  ("authors",
                                   VArr [VObj [("name", VStr "Ann")]; VStr "Bob";
                                         VNum 5] [])]))
      by (by vm_compute).
    cbn [dir] in Hfound. rewrite Hfile in Hfound.
    destruct Hfound as (_ & Hobj & _). specialize (Hobj _ eq_refl).
    change (write_rejects Demo.env
              (path_join Demo.env "/app/plugins/ads" "plugin.json"))
      with false in Hobj.
    destruct Hobj as (doc & Hset & _ & Hen). exists doc. split; [exact Hset|exact Hen].
Defined.


(** The plugin [broken] of [Demo]: its main module throws when loaded, the
    pass completes, and its record is inert. *)
Lemma load_failure_leaves_inert_record_witness :
  require_fails Demo.env (require_cache Demo.start) "/app/plugins/broken/index.js" ∧
  ∃ h', loadAll Demo.env Demo.start = (Normal tt, h') ∧
    Forall (mod_ok Demo.env (require_cache h')) (plugins h') ∧
    (∃ r, r ∈ plugins h' ∧
          made_for Demo.env "/app/plugins"
            {| ename := "broken"; isDirectory := true |}
            (VObj [("id", VStr "broken"); ("main", VStr "index.js");
                   ("categories", VArr [] []); ("authors", VArr [] [])]) r ∧
          mod_ r = None ∧ mainPath r = None ∧
          ∀ h0, activate_record Demo.env r h0 = (Normal tt, h0)) ∧
    (∀ root' ent' m', root' ∈ getPluginDirs Demo.env →
       candidate Demo.env Demo.start root' ent' m' →
       ∃ r', r' ∈ plugins h' ∧ made_for Demo.env root' ent' m' r').
Proof.
  assert (Hf : require_fails Demo.env (require_cache Demo.start)
                 "/app/plugins/broken/index.js") by (by vm_compute).
  split; [exact Hf|].
  apply (load_failure_leaves_inert_record Demo.env Demo.start "/app/plugins"
           {| ename := "broken"; isDirectory := true |} _ "index.js").
  - exact demo_all_well_typed.
  - exact demo_all_ids_print.
  - vm_compute. left.
  - split; [|by vm_compute].
    eexists. split; [by vm_compute|]. right. left.
  - reflexivity.
  - reflexivity.
  - exact Hf.
Defined.

(** The entry point of [ads] throws; [ads-user], two records later, is
    activated all the same. *)
Lemma activation_failure_is_isolated_witness :
  ∃ h' evs,
    loadAll Demo.env Demo.start = (Normal tt, h') ∧
    plugins h' = plugins (scan_pass Demo.env Demo.start).2 ∧
    console h' = console (scan_pass Demo.env Demo.start).2 ++ evs ∧
    [EvActivate (VStr "adblock") "/app/plugins/ads";
     EvActivationError (VStr "adblock");
     EvActivate (VStr "adblock") "/home/plugins/ads-user"] `sublist_of` evs.
Proof.
  eapply (activation_failure_is_isolated Demo.env Demo.start
            (scan_pass Demo.env Demo.start).2 0 2
            {| id := VStr "adblock"; dir := "/app/plugins/ads";
               manifest := _; enabled := true;
               mod_ := Some Demo.ads_exports;
               mainPath := Some "/app/plugins/ads/index.js" |}
            {| id := VStr "adblock"; dir := "/home/plugins/ads-user";
               manifest := _; enabled := true;
               mod_ := Some Demo.ads_user_exports;
               mainPath := Some "/home/plugins/ads-user/main.js" |}
            Demo.ads_activate Demo.ads_user_main).
  - by vm_compute.
  - by vm_compute.
  - by vm_compute.
  - by vm_compute.
  - lia.
  - reflexivity.
  - reflexivity.
  - reflexivity.
  - by vm_compute.
Defined.

(** [ads] under the bundled root and [ads-user] under the user root both
    declare the id [adblock]; both main modules load, and both entry
    points are called. *)
Lemma same_id_in_both_roots_witness :
  ∃ h' h1 evs i j r1 r2,
    loadAll Demo.env Demo.start = (Normal tt, h') ∧
    i < j ∧ plugins h' !! i = Some r1 ∧ plugins h' !! j = Some r2 ∧
    made_for Demo.env "/app/plugins" {| ename := "ads"; isDirectory := true |}
      (VObj [("id", VStr "adblock"); ("main", VStr "index.js");
             ("rendererPreload", VStr "preload.js");
             ("authors", VArr [VObj [("name", VStr "Ann")]; VStr "Bob"] []);
             ("categories", VArr [] [])]) r1 ∧
    made_for Demo.env "/home/plugins"
      {| ename := "ads-user"; isDirectory := true |}
      (VObj [("id", VStr "adblock"); ("main", VStr "main.js");
             ("rendererPreload", VStr "preload.js");
             ("categories", VArr [] []); ("authors", VArr [] [])]) r2 ∧
    id r1 = id r2 ∧
    scan_pass Demo.env Demo.start = (Normal tt, h1) ∧
    console h' = console h1 ++ evs ∧
    mod_ r1 = Some Demo.ads_exports ∧ mod_ r2 = Some Demo.ads_user_exports ∧
    [EvActivate (id r1) (dir r1); EvActivate (id r2) (dir r2)]
      `sublist_of` evs.
Proof.
  destruct (same_id_in_both_roots_kept_and_activated Demo.env Demo.start
              {| ename := "ads"; isDirectory := true |}
              (VObj [("id", VStr "adblock"); ("main", VStr "index.js");
                     ("rendererPreload", VStr "preload.js");
                     ("authors",
                      VArr [VObj [("name", VStr "Ann")]; VStr "Bob"] []);
                     ("categories", VArr [] [])])
              {| ename := "ads-user"; isDirectory := true |}
              (VObj [("id", VStr "adblock"); ("main", VStr "main.js");
                     ("rendererPreload", VStr "preload.js");
                     ("categories", VArr [] []); ("authors", VArr [] [])]))
    as (h' & h1 & evs & i & j & r1 & r2 & Hl & Hij & Hi & Hj & Hm1 & Hm2 & Hid
        & Hs & Hc & Hact).
  - exact demo_all_well_typed.
  - exact demo_all_ids_print.
  - split; [|by vm_compute].
    eexists. split; [by vm_compute|]. left.
  - split; [|by vm_compute].
    eexists. split; [by vm_compute|]. left.
  - reflexivity.
  - exists h', h1, evs, i, j, r1, r2. split_and!; try done;
      apply (Hact "index.js" Demo.ads_exports Demo.ads_activate
                  "main.js" Demo.ads_user_exports Demo.ads_user_main);
      try reflexivity; try (intros [=]);
      (eexists; split; [by vm_compute|by vm_compute]).
Defined.

(** ** The further properties on [Demo] *)

(** The preload of [ads] is collected and is the declared one. *)
Lemma collected_preloads_are_declared_and_exist_witness :
  "/app/plugins/ads/preload.js"
    ∈ getRendererPreloads (loadAll Demo.env Demo.start).2 ∧
  declared_preload Demo.env Demo.start "/app/plugins/ads/preload.js".
Proof.
  assert (Hin : "/app/plugins/ads/preload.js"
                  ∈ getRendererPreloads (loadAll Demo.env Demo.start).2)
    by (vm_compute; left).
  split; [exact Hin|].
  exact (collected_preloads_are_declared_and_exist Demo.env Demo.start _ Hin).
Defined.

(** The record of [off], the disabled plugin of the user root. *)
Lemma records_come_from_candidates_witness :
  ∃ r, plugins (loadAll Demo.env Demo.start).2 !! 3 = Some r ∧
       enabled r = false ∧
       from_candidate Demo.env Demo.start r ∧
       (enabled r = false →
        ∀ h0, activate_record Demo.env r h0 = (Normal tt, h0)).
Proof.
  eexists. split; [by vm_compute|]. split; [reflexivity|].
  apply (records_come_from_candidates Demo.env Demo.start).
  apply (list_elem_of_lookup_2 _ 3). by vm_compute.
Defined.

(** The record of [ads] and its descriptor. *)
Lemma loaded_records_are_discovered_witness :
  ∃ r, plugins (loadAll Demo.env Demo.start).2 !! 0 = Some r ∧
    ∃ out d, (discoverPlugins Demo.env Demo.start).1 = Normal out ∧ d ∈ out ∧
             d_dir d = dir r ∧ d_id d = id r ∧ d_enabled d = enabled r.
Proof.
  eexists. split; [by vm_compute|].
  apply (loaded_records_are_discovered Demo.env Demo.start).
  apply (list_elem_of_lookup_2 _ 0). by vm_compute.
Defined.

(** The page [ads] registers before [registerRendererPage] throws. *)
Lemma pages_belong_to_activated_records_witness :
  ∃ pg, rendererPages (loadAll Demo.env Demo.start).2 !! 0 = Some pg ∧
    ∃ r, r ∈ plugins (loadAll Demo.env Demo.start).2 ∧
         is_Some (activatable r) ∧ page_of Demo.env r pg.
Proof.
  eexists. split; [by vm_compute|].
  apply (pages_belong_to_activated_records Demo.env Demo.start).
  apply (list_elem_of_lookup_2 _ 0). by vm_compute.
Defined.

(** Disabling [adblock] after the first load pass rewrites the manifest of
    [ads], the first plugin with that id. *)
Lemma setEnabled_is_read_back_witness :
  ∃ h' doc, setEnabled Demo.env (VStr "adblock") (VBool false) Demo.after_load
            = (Normal true, h') ∧
    plugins h' = plugins Demo.after_load ∧
    getPluginsInfo h' = getPluginsInfo Demo.after_load ∧
    require_cache h' = require_cache Demo.after_load ∧
    (∀ k, k ≠ "/app/plugins/ads/plugin.json" →
          files h' !! k = files Demo.after_load !! k) ∧
    files h' !! "/app/plugins/ads/plugin.json" = Some doc ∧
    prop doc "enabled" = VBool false ∧
    prop doc "main" = VStr "index.js" ∧
    ∃ out d, (discoverPlugins Demo.env h').1 = Normal out ∧ d ∈ out ∧
             d_dir d = "/app/plugins/ads" ∧ d_enabled d = false ∧
             d_id d = VStr "adblock".
Proof.
  destruct (setEnabled_is_read_back Demo.env (VStr "adblock") (VBool false)
              Demo.after_load
              {| id := VStr "adblock"; dir := "/app/plugins/ads";
                 manifest :=
                   VObj [("id", VStr "adblock"); ("main", VStr "index.js");
                         ("rendererPreload", VStr "preload.js");
                         ("authors",
                          VArr [VObj [("name", VStr "Ann")]; VStr "Bob"] []);
                         ("categories", VArr [] [])];
                 enabled := true;
                 mod_ := Some Demo.ads_exports;
                 mainPath := Some "/app/plugins/ads/index.js" |}
              "/app/plugins"
              [{| ename := "ads"; isDirectory := true |};
               {| ename := "broken"; isDirectory := true |};
               {| ename := "README.md"; isDirectory := false |};
               {| ename := "empty"; isDirectory := true |}]
              {| ename := "ads"; isDirectory := true |}
              [("id", VStr "adblock"); ("main", VStr "index.js");
               ("rendererPreload", VStr "preload.js");
               ("authors",
                VArr [VObj [("name", VStr "Ann")]; VStr "Bob"; VNum 5] [])])
    as (h' & doc & Hset & Hp & Hinfo & Hcache & Hfiles & Hdoc & Hen & Hplain
        & _ & (out & d & Hout & Hd & Hdd & Hde & Hdi) & Hid & _).
  - eexists [], _. split; [vm_compute; reflexivity|].
    split; [reflexivity|constructor].
  - vm_compute. left.
  - by vm_compute.
  - left.
  - reflexivity.
  - reflexivity.
  - by vm_compute.
  - reflexivity.
  - exists h', doc. split_and!; try done.
    + by apply Hplain.
    + exists out, d. split_and!; try done.
      rewrite Hdi, Hid; [reflexivity|].
      intros v Hv. vm_compute in Hv. by injection Hv as <-.
Defined.


(** A second subscriber of [app-ready], after the one [ads-user]
    registered in the load pass; neither throws. *)
Lemma on_then_emit_witness :
  ∃ h' before,
    on "app-ready" 2 Demo.after_load = (Normal tt, h') ∧
    emit (λ _ _, false) "app-ready" [] Demo.after_load = Normal before ∧
    emit (λ _ _, false) "app-ready" [] h'
    = Normal (before ++ call_subscribers (λ _ _, false) "app-ready" [] [2]) ∧
    ∀ evt' args', evt' ≠ "app-ready" →
      emit (λ _ _, false) evt' args' h'
      = emit (λ _ _, false) evt' args' Demo.after_load.
Proof.
  assert (Hon : ∃ h', on "app-ready" 2 Demo.after_load = (Normal tt, h')).
  { eexists. by vm_compute. }
  destruct Hon as [h' Hon]. exists h'.
  destruct (on_then_emit (λ _ _, false) "app-ready" 2 [] Demo.after_load h' Hon)
    as (before & H1 & H2 & H3).
  exists before. by split_and!.
Defined.

(** ** The GPU configuration on [DemoGPU] *)

(** On the Windows desktop every switch is accepted. *)
Lemma configure_without_refusals_witness :
  ∃ st, GPU.configure DemoGPU.desktop
          {| GPU.cfg := GPU.constructor DemoGPU.desktop; GPU.switches := [] |}
        = (true, st) ∧
    GPU.fallbackApplied (GPU.cfg st) = false ∧
    GPU.isSteamOS (GPU.cfg st)
    = GPU.detectSteamOS DemoGPU.desktop (GPU.constructor DemoGPU.desktop) ∧
    (∀ sw, sw ∈ map fst GPU.fallback_switches → sw ∉ GPU.switch_names st) ∧
    (GPU.detectSteamOS DemoGPU.desktop (GPU.constructor DemoGPU.desktop) = true →
     GPU.platform DemoGPU.desktop = "linux" ∧
     GPU.switches st = GPU.conservative_switches DemoGPU.desktop) ∧
    (GPU.detectSteamOS DemoGPU.desktop (GPU.constructor DemoGPU.desktop) = false →
     ∀ sw, sw ∈ map fst (GPU.acceleration_switches
                           (GPU.constructor DemoGPU.desktop)) →
           sw ∈ GPU.switch_names st) ∧
    ("no-sandbox" ∈ GPU.switch_names st ↔ GPU.platform DemoGPU.desktop ≠ "linux") ∧
    ("enable-features" ∈ GPU.switch_names st
     ↔ GPU.platform DemoGPU.desktop ≠ "linux").
Proof.
  apply (configure_without_refusals DemoGPU.desktop). intros sw. reflexivity.
Defined.

(** On the Linux desktop of [DemoGPU], [enable-zero-copy] is refused. *)
Lemma configure_falls_back_witness :
  ∃ st before,
    GPU.configure DemoGPU.sys DemoGPU.start = (true, st) ∧
    GPU.switches st = before ++ GPU.fallback_switches ∧
    GPU.fallbackApplied (GPU.cfg st) = true ∧
    GPU.isGPUSupported (GPU.cfg st) = false ∧
    "Fallback mode is active due to GPU issues"
      ∈ GPU.getRecommendations (GPU.cfg st).
Proof.
  apply (configure_falls_back DemoGPU.sys).
  - apply (bool_decide_unpack _). by vm_compute.
  - reflexivity.
  - apply (bool_decide_unpack _). by vm_compute.
Defined.

(** On [DemoGPU.deck] the Gamescope variable is set, but reading
    [/etc/os-release] throws first: SteamOS is not detected. *)
Lemma detectSteamOS_edges_witness :
  GPU.env_set DemoGPU.deck "GAMESCOPE_WAYLAND_DISPLAY" = true ∧
  GPU.detectSteamOS DemoGPU.deck (GPU.constructor DemoGPU.deck) = false.
Proof.
  split; [reflexivity|].
  destruct (detectSteamOS_edges DemoGPU.deck) as [_ Hlinux].
  by apply Hlinux.
Defined.

(** On [DemoGPU.desktop] three of the four features are not disabled. *)
Lemma checkGPUStatus_then_recommendations_witness :
  ∃ info c',
    GPU.checkGPUStatus DemoGPU.desktop (GPU.constructor DemoGPU.desktop)
    = (GPU.Report true ["2d_canvas"; "gpu_compositing"; "webgl"] info, c') ∧
    head (GPU.getRecommendations c') = Some "GPU acceleration is working".
Proof.
  destruct (checkGPUStatus_then_recommendations DemoGPU.desktop
              (GPU.constructor DemoGPU.desktop))
    as (supported & enabled & c' & Heq & _ & _ & _ & _ & _ & Hrec).
  assert (He : enabled = ["2d_canvas"; "gpu_compositing"; "webgl"]).
  { vm_compute in Heq. by injection Heq as _ <- _. }
  assert (Hs : supported = true).
  { vm_compute in Heq. by injection Heq as <- _ _. }
  subst. eexists _, c'. split; [exact Heq|].
  apply Hrec. simpl. lia.
Defined.
